(** * TrelloApp: card ordering, moves, realtime fan-out and client stores

    A shallow embedding of the parts of the repository that decide how cards
    are ordered and moved:

    - [Position]  : src/lib/position.ts ([calculateNewPosition]);
    - [Binary64]  : the vocabulary for the arithmetic of JavaScript numbers;
    - [Server]    : the Prisma card table with the handlers
                    POST and GET /api/cards and PATCH /api/cards/[id]/move;
    - [ListRoute] : the handler PATCH /api/lists/[id]/reorder;
    - [Realtime]  : the Socket.io server of src/server/socket.ts;
    - [BoardStore]: the zustand store of src/store/boardStore.ts together with
                    the [card:moved] listener of useRealtimeBoard;
    - [Kanban]    : components/kanban-board.tsx (the drag and drop handlers
                    and the handlers that add and delete cards and lists);
    - [PositionArrays]: the array helpers of src/lib/position.ts
                    ([reorderItems], [moveItemBetweenArrays]);
    - [DragAndDrop]: src/hooks/useDragAndDrop.ts ([handleDragEnd]);
    - [Optimistic]: the order of the cards in the client store against the
                    order in which the server returns them.

    Definitions come first, grouped in one module per source file; the
    theorems follow. *)

From Stdlib Require Import ZArith Lia.
From Stdlib Require Import Floats.PrimFloat Floats.SpecFloat Floats.FloatOps.
From Stdlib Require Import Floats.FloatAxioms Uint63.
From stdpp Require Import gmap strings list fin_maps sorting pretty.

(** ** src/lib/position.ts *)

Module Position.

(** A JavaScript [number] is an IEEE 754 binary64 value: Rocq's primitive
    [float].  The function is written over the operations it uses. *)
Class Number (N : Type) := {
  num_of_Z : Z -> N;
  num_add : N -> N -> N;
  num_div : N -> N -> N;
  num_ltb : N -> N -> bool
}.

Definition float_of_Z (z : Z) : float :=
  if (z <? 0)%Z then PrimFloat.opp (PrimFloat.of_uint63 (Uint63.of_Z (- z)))
  else PrimFloat.of_uint63 (Uint63.of_Z z).

#[export] Instance float_number : Number float := {
  num_of_Z := float_of_Z;
  num_add := PrimFloat.add;
  num_div := PrimFloat.div;
  num_ltb := PrimFloat.ltb
}.

Section Allocator.
Context {N : Type} `{Number N}.

(** [number | null] is [option N]; the four returns are tried in the
    order of the source. *)
Definition calculateNewPosition (beforePosition afterPosition : option N) : N :=
  match beforePosition, afterPosition with
  | None, Some afterPosition => num_div afterPosition (num_of_Z 2)
  | Some beforePosition, None => num_add beforePosition (num_of_Z 1000)
  | Some beforePosition, Some afterPosition =>
      num_div (num_add beforePosition afterPosition) (num_of_Z 2)
  | None, None => num_of_Z 1000
  end.

(** What a caller of the allocator can observe.  The TypeScript function
    has return type [number] and no [throw]: every call completes with a
    key, and the second constructor is never produced. *)
Inductive AllocationOutcome : Type :=
| Allocated (key : N)
| PrecisionExhausted.

Definition allocate (before after : option N) : AllocationOutcome :=
  Allocated (calculateNewPosition before after).

(** [a] lies strictly between [lo] and [hi]. *)
Definition strictly_between (lo a hi : N) : bool :=
  num_ltb lo a && num_ltb a hi.
End Allocator.

Arguments AllocationOutcome : clear implicits.

(** Two binary64 keys are adjacent when the second is the successor of the
    first: no representable value lies strictly between them. *)
Definition adjacent (before after : float) : bool :=
  PrimFloat.ltb before after && PrimFloat.eqb (PrimFloat.next_up before) after.

(** The successor of 1 in binary64, 1 + 2^-52. *)
Definition one_next : float := PrimFloat.next_up 1%float.

End Position.

(** ** binary64 arithmetic *)

(** The arithmetic of a JavaScript [number] is that of Rocq's primitive
    floats, which the Standard Library specifies by the functions of
    [SpecFloat] on sign, mantissa and exponent.  This module is the
    vocabulary in which that specification is read: values as whole numbers
    of units of 2^-1074, and rounding to nearest. *)
Module Binary64.
Local Open Scope Z_scope.

(** The value of a finite binary64 number in units of 2^-1074, the least
    positive one: every finite value is a whole number of them. *)
Definition units (x : spec_float) : Z :=
  match x with
  | S754_finite s m e => cond_Zopp s (Zpos m * 2 ^ (e + 1074))
  | _ => 0
  end.

Definition finite (x : spec_float) : bool :=
  match x with
  | S754_zero _ | S754_finite _ _ _ => true
  | _ => false
  end.

(** The values binary64 could hold if its exponent had no upper bound: a
    mantissa of at most 53 bits times a power of two. *)
Definition grid (G : Z) : Prop :=
  exists g k, 0 <= k /\ Z.abs g <= 2 ^ 53 /\ G = g * 2 ^ k.

(** [R] is as near to [X] as any value of the grid. *)
Definition nearest (R X : Z) : Prop :=
  forall G, grid G -> Z.abs (R - X) <= Z.abs (G - X).

(** The number 2. *)
Definition two : spec_float := S754_finite false 4503599627370496 (-51).

(** What the record holds after [n] shifts of [x]: the quotient by 2^n,
    and where the remainder lies with respect to one half of 2^n. *)
Definition tracks (x n : Z) (mrs : shr_record) : Prop :=
  shr_m mrs = x / 2 ^ n /\
  match shr_r mrs, shr_s mrs with
  | false, false => x mod 2 ^ n = 0
  | false, true => 0 < 2 * (x mod 2 ^ n) < 2 ^ n
  | true, false => 2 * (x mod 2 ^ n) = 2 ^ n
  | true, true => 2 ^ n < 2 * (x mod 2 ^ n)
  end.

(** Rounding [x] to a multiple of 2^n, to the nearest one and to the even
    one of two that are equally near; the result counts units of 2^n. *)
Definition rne (n x : Z) : Z :=
  if 2 * (x mod 2 ^ n) <? 2 ^ n then x / 2 ^ n
  else if 2 ^ n <? 2 * (x mod 2 ^ n) then x / 2 ^ n + 1
  else if Z.even (x / 2 ^ n) then x / 2 ^ n else x / 2 ^ n + 1.

End Binary64.

(** ** The Prisma store and the card routes (src/app/api/cards) *)

Module Server.
Local Open Scope Z_scope.

(** *** prisma/schema.prisma *)

(** [model Card]: the scalar columns; the [id] column is the key of the
    table below.  [DateTime] values are milliseconds.  [position] is an
    [Int] column: the calls that write it reject a value outside 32 bits
    (see [int4] below). *)
Record Card := {
  title : string;
  description : option string;
  listId : string;
  position : Z;
  dueDate : option string;
  cover : option string;
  archived : bool;
  createdAt : Z;
  updatedAt : Z
}.

(** [model List], the columns the card routes read. *)
Record List := { list_title : string; boardId : string }.

(** [model Activity] with the [metadata] the two routes write. *)
Inductive Metadata :=
| CreatedMeta (cardTitle : string) (inList : string)
| MovedMeta (from_listId : string) (from_position : Z)
            (to_listId : string) (to_position : Z).

Record Activity := {
  action : string;
  entityType : string;
  entityId : string;
  cardId : option string;
  userId : string;
  metadata : Metadata
}.

(** The database: [cards] and [lists] by primary key, [board_members] as
    the set of (boardId, userId) pairs ([@@unique([boardId, userId])]),
    activities in insertion order. *)
Record DB := {
  lists : gmap string List;
  boardMembers : gset (string * string);
  cards : gmap string Card;
  activities : list Activity
}.

Definition with_cards (m : gmap string Card) (db : DB) : DB :=
  {| lists := lists db; boardMembers := boardMembers db;
     cards := m; activities := activities db |}.

Definition with_activity (a : Activity) (db : DB) : DB :=
  {| lists := lists db; boardMembers := boardMembers db;
     cards := cards db; activities := activities db ++ [a] |}.

(** A row as the JSON object Prisma returns for it: one entry per scalar
    column of [model Card], in schema order. *)
Inductive JsValue :=
| JNull
| JString (s : string)
| JNumber (z : Z)
| JBool (b : bool)
| JDate (ms : Z).

Definition nullable (o : option string) : JsValue :=
  match o with Some s => JString s | None => JNull end.

Definition card_json (id : string) (c : Card) : list (string * JsValue) :=
  [ ("id", JString id);
    ("title", JString (title c));
    ("description", nullable (description c));
    ("listId", JString (listId c));
    ("position", JNumber (position c));
    ("dueDate", nullable (dueDate c));
    ("cover", nullable (cover c));
    ("archived", JBool (archived c));
    ("createdAt", JDate (createdAt c));
    ("updatedAt", JDate (updatedAt c)) ]%string.

(** [obj[key]] on such an object. *)
Fixpoint json_field (key : string) (obj : list (string * JsValue)) : option JsValue :=
  match obj with
  | [] => None
  | (k, v) :: obj' => if decide (k = key) then Some v else json_field key obj'
  end.

(** Writes to single columns of a row. *)
Definition set_listId (l : string) (c : Card) : Card :=
  {| title := title c; description := description c; listId := l;
     position := position c; dueDate := dueDate c; cover := cover c;
     archived := archived c; createdAt := createdAt c; updatedAt := updatedAt c |}.

Definition set_position (p : Z) (c : Card) : Card :=
  {| title := title c; description := description c; listId := listId c;
     position := p; dueDate := dueDate c; cover := cover c;
     archived := archived c; createdAt := createdAt c; updatedAt := updatedAt c |}.

Definition set_updatedAt (t : Z) (c : Card) : Card :=
  {| title := title c; description := description c; listId := listId c;
     position := position c; dueDate := dueDate c; cover := cover c;
     archived := archived c; createdAt := createdAt c; updatedAt := t |}.

(** *** The Prisma client *)

Inductive PrismaError :=
| RecordNotFound        (* P2025: update of a missing row *)
| ForeignKeyViolation   (* P2003 *)
| UniqueViolation       (* P2002 *)
| ValueOutOfRange       (* a value that does not fit an [Int] column *)
| ConnectionError.      (* the statement did not reach the database *)

(** [Int] is a signed 32-bit column ([integer] in PostgreSQL): a call that
    carries or would store a value outside it is rejected. *)
Definition int4 (z : Z) : bool := (- 2 ^ 31 <=? z) && (z <? 2 ^ 31).

(** One Prisma call run against a store: an error, or a value and the next
    store. *)
Definition Query (A : Type) : Type := DB -> PrismaError + (A * DB).

(** [card.findUnique({ where: { id } })]. *)
Definition card_findUnique (id : string) (db : DB) : option Card := cards db !! id.

(** [card.count({ where })]. *)
Definition card_count (where_ : Card -> bool) (db : DB) : Z :=
  Z.of_nat (size (filter (fun kv : string * Card => Is_true (where_ kv.2)) (cards db))).

(** [{ gt }], [{ gte }], [{ lt }], [{ lte }] on an [Int] column. *)
Inductive IntFilter :=
| IntGt (n : Z)
| IntGte (n : Z)
| IntLt (n : Z)
| IntLte (n : Z).

Definition filter_value (f : IntFilter) : Z :=
  match f with IntGt n | IntGte n | IntLt n | IntLte n => n end.

Definition int_filter (f : IntFilter) (z : Z) : bool :=
  match f with
  | IntGt n => n <? z
  | IntGte n => n <=? z
  | IntLt n => z <? n
  | IntLte n => z <=? n
  end.

(** [where: { listId, position: { ... } }]. *)
Record CardWhere := { where_listId : string; where_position : list IntFilter }.

Definition card_where (w : CardWhere) (c : Card) : bool :=
  bool_decide (listId c = where_listId w)
  && forallb (fun f => int_filter f (position c)) (where_position w).

(** [card.updateMany({ where, data })]; [@updatedAt] stamps the rows it
    writes.  The call is rejected, and writes nothing, when a value of the
    filter or a position it would store does not fit the column. *)
Definition card_updateMany (now : Z) (w : CardWhere) (data : Card -> Card) : Query unit :=
  fun db =>
    if forallb int4 (filter_value <$> where_position w)
       && bool_decide (map_Forall (fun _ c => card_where w c = true ->
                                              int4 (position (data c)) = true)
                         (cards db))
    then inr (tt, with_cards ((fun c => if card_where w c
                                        then set_updatedAt now (data c)
                                        else c) <$> cards db) db)
    else inl ValueOutOfRange.

(** [card.update({ where: { id }, data })]: rejects when the row is missing,
    when the new position does not fit the column or when the new [listId]
    references no list. *)
Definition card_update (now : Z) (id : string) (data : Card -> Card) : Query unit :=
  fun db =>
    match cards db !! id with
    | None => inl RecordNotFound
    | Some c =>
        let c' := set_updatedAt now (data c) in
        if int4 (position c') then
          match lists db !! listId c' with
          | None => inl ForeignKeyViolation
          | Some _ => inr (tt, with_cards (<[id := c']> (cards db)) db)
          end
        else inl ValueOutOfRange
    end.

(** [card.create({ data })] with the generated [id]. *)
Definition card_create (id : string) (c : Card) : Query (string * Card) :=
  fun db =>
    if int4 (position c) then
      match cards db !! id with
      | Some _ => inl UniqueViolation
      | None =>
          match lists db !! listId c with
          | None => inl ForeignKeyViolation
          | Some _ => inr ((id, c), with_cards (<[id := c]> (cards db)) db)
          end
      end
    else inl ValueOutOfRange.

(** [activity.create({ data })]: [cardId] references a card. *)
Definition activity_create (a : Activity) : Query unit :=
  fun db =>
    match cardId a with
    | Some cid =>
        match cards db !! cid with
        | None => inl ForeignKeyViolation
        | Some _ => inr (tt, with_activity a db)
        end
    | None => inr (tt, with_activity a db)
    end.

Definition increment (n : Z) (c : Card) : Card := set_position (position c + n) c.
Definition decrement (n : Z) (c : Card) : Card := set_position (position c - n) c.

(** The body of [prisma.$transaction(async (tx) => ...)].  Its calls go
    through [tx] and run on a working copy of the store, which no other
    connection reads.  A body gives the working copy as it stands after each
    call that resolved, oldest first, and how it ended: an error, or a value
    and the last working copy. *)
Definition Tx (A : Type) : Type := DB -> list DB * (PrismaError + (A * DB)).

Definition tx_ret {A} (a : A) : Tx A := fun db => ([], inr (a, db)).

Definition tx_bind {A B} (m : Tx A) (k : A -> Tx B) : Tx B :=
  fun db => match m db with
            | (written, inl e) => (written, inl e)
            | (written, inr (a, db')) =>
                let '(written', r) := k a db' in (written ++ written', r)
            end.

Definition tx_seq {A} (m : Tx unit) (k : Tx A) : Tx A := tx_bind m (fun _ => k).

(** What a piece of code leaves behind: [seen] is the store as the other
    connections read it, after each Prisma call of that code, oldest first;
    [answer] is the value and the store at the end. *)
Record Ran (A : Type) := { seen : list DB; answer : A * DB }.
Arguments seen {A} _.
Arguments answer {A} _.

(** [prisma.$transaction]: while the body runs the other connections read
    the store as it was; the writes of the body are committed together when
    it resolves and dropped when it rejects. *)
Definition transaction {A} (body : Tx A) (db : DB) : Ran (PrismaError + A) :=
  match body db with
  | (written, inl e) =>
      {| seen := ((fun _ => db) <$> written) ++ [db]; answer := (inl e, db) |}
  | (written, inr (a, db')) =>
      {| seen := ((fun _ => db) <$> written) ++ [db']; answer := (inr a, db') |}
  end.

(** A call outside a transaction commits on its own. *)
Definition autocommit {A} (call : Query A) (db : DB) : Ran (PrismaError + A) :=
  match call db with
  | inl e => {| seen := [db]; answer := (inl e, db) |}
  | inr (a, db') => {| seen := [db']; answer := (inr a, db') |}
  end.

(** *** Route handlers *)

(** [NextResponse.json(body, { status })]. *)
Inductive Response :=
| CardJson (status : Z) (card : option (string * Card))
| ErrorJson (status : Z) (error : string).

Definition status_of (r : Response) : Z :=
  match r with CardJson s _ => s | ErrorJson s _ => s end.

(** A handler either returns early with a response or goes on with a
    value; the store is threaded through. *)
Definition Handler (A : Type) : Type := DB -> Ran (Response + A).

Definition h_bind {A B} (m : Handler A) (k : A -> Handler B) : Handler B :=
  fun db => let ran := m db in
            match answer ran with
            | (inl r, db') => {| seen := seen ran; answer := (inl r, db') |}
            | (inr a, db') =>
                let ran' := k a db' in
                {| seen := seen ran ++ seen ran'; answer := answer ran' |}
            end.

Definition respond {A} (r : Response) : Handler A :=
  fun db => {| seen := []; answer := (inl r, db) |}.

(** The response of a handler and the store it leaves. *)
Definition run_handler (h : Handler Response) (db : DB) : Response * DB :=
  match answer (h db) with
  | (inl r, db') => (r, db')
  | (inr r, db') => (r, db')
  end.

(** Every store another connection can read while the handler runs: the
    store before the request, then the store after each Prisma call. *)
Definition observed (h : Handler Response) (db : DB) : list DB := db :: seen (h db).

Notation "x <~ m ;; k" := (h_bind m (fun x => k))
  (at level 100, m at next level, right associativity).
Notation "m ;;; k" := (tx_seq m k) (at level 100, right associativity).

Section Routes.
(** The environment of a request.  The Prisma calls of a handler are
    numbered along its run (in PATCH: 0 the read of the card, 1 and 2 the
    [updateMany] statements, 3 the update of the card, 4 the activity, 5 the
    read of the moved card; in POST: 0 the read of the list, 1 the count,
    2 the creation, 3 the activity); [faults k] says that call [k] is
    rejected by the database connection.  [cuid], [datetime] and [url] are
    zod's string formats. *)
Context (faults : nat -> bool).
Context (cuid datetime url : string -> bool).

(** Call number [k], as the connection lets it through. *)
Definition call {A} (k : nat) (op : Query A) : Query A :=
  fun db => if faults k then inl ConnectionError else op db.

(** [await tx...] inside a transaction body. *)
Definition stmt {A} (k : nat) (op : Query A) : Tx A :=
  fun db => match call k op db with
            | inl e => ([], inl e)
            | inr (a, db') => ([db'], inr (a, db'))
            end.

(** The [catch] of the handlers answers 500. *)
Definition internal_error : Response := ErrorJson 500 "Internal server error".

Definition caught {A} (r : Ran (PrismaError + A)) : Ran (Response + A) :=
  {| seen := seen r;
     answer := match answer r with
               | (inl _, db') => (inl internal_error, db')
               | (inr a, db') => (inr a, db')
               end |}.

(** [await prisma...] outside a transaction. *)
Definition await {A} (k : nat) (op : Query A) : Handler A :=
  fun db => caught (autocommit (call k op) db).

(** [await prisma.$transaction(...)]. *)
Definition await_transaction {A} (body : Tx A) : Handler A :=
  fun db => caught (transaction body db).

(** A step of the handler that makes no Prisma call. *)
Definition branch {A} (f : DB -> Response + A) : Handler A :=
  fun db => {| seen := []; answer := (f db, db) |}.

(** The [include: { list: { include: { board: { include: { members:
    { where: { userId } } } } } } }] part of the reads: the member rows of
    the board that owns the list, for one user. *)
Definition board_members_of (l : List) (uid : string) (db : DB) : list (string * string) :=
  if decide ((boardId l, uid) ∈ boardMembers db) then [(boardId l, uid)] else [].

(** **** PATCH /api/cards/[id]/move *)

Record MoveBody := { destinationListId : string; newPosition : Z }.

(** [moveCardSchema.parse]: a cuid and an integer that is at least 0. *)
Definition moveCardSchema_parse (body : MoveBody) : option MoveBody :=
  if cuid (destinationListId body) && (0 <=? newPosition body) then Some body else None.

(** The body of [prisma.$transaction(async (tx) => { ... })]. *)
Definition moveTransaction (uid id sourceListId : string) (sourcePosition : Z)
    (destinationListId : string) (newPosition now : Z) : Tx unit :=
  (if decide (sourceListId = destinationListId) then
     if sourcePosition <? newPosition then
       stmt 1 (card_updateMany now
                 {| where_listId := sourceListId;
                    where_position := [IntGt sourcePosition; IntLte newPosition] |}
                 (decrement 1))
     else if newPosition <? sourcePosition then
       stmt 1 (card_updateMany now
                 {| where_listId := sourceListId;
                    where_position := [IntGte newPosition; IntLt sourcePosition] |}
                 (increment 1))
     else tx_ret tt
   else
     stmt 1 (card_updateMany now
               {| where_listId := sourceListId;
                  where_position := [IntGt sourcePosition] |}
               (decrement 1)) ;;;
     stmt 2 (card_updateMany now
               {| where_listId := destinationListId;
                  where_position := [IntGte newPosition] |}
               (increment 1))) ;;;
  stmt 3 (card_update now id
            (fun c => set_position newPosition (set_listId destinationListId c))) ;;;
  stmt 4 (activity_create
            {| action := "moved"; entityType := "card"; entityId := id;
               cardId := Some id; userId := uid;
               metadata := MovedMeta sourceListId sourcePosition
                                     destinationListId newPosition |}).

Definition PATCH (session : option string) (id : string) (body : MoveBody)
    (now : Z) : Handler Response :=
  match session with
  | None => respond (ErrorJson 401 "Unauthorized")
  | Some uid =>
      match moveCardSchema_parse body with
      | None => respond (ErrorJson 400 "Validation error")
      | Some parsed =>
          let destinationListId := destinationListId parsed in
          let newPosition := newPosition parsed in
          card <~ await 0 (fun db => inr (card_findUnique id db, db)) ;;
          match card with
          | None => respond (ErrorJson 404 "Card not found")
          | Some card =>
              _ <~ branch (fun db =>
                     match lists db !! listId card with
                     | None => inl internal_error
                     | Some l =>
                         if decide (length (board_members_of l uid db) = 0%nat)
                         then inl (ErrorJson 403 "Forbidden")
                         else inr tt
                     end) ;;
              let sourceListId := listId card in
              let sourcePosition := position card in
              _ <~ await_transaction
                     (moveTransaction uid id sourceListId sourcePosition
                        destinationListId newPosition now) ;;
              updatedCard <~ await 5 (fun db => inr (card_findUnique id db, db)) ;;
              respond (CardJson 200 ((fun c => (id, c)) <$> updatedCard))
          end
      end
  end.

(** **** POST /api/cards *)

Record CreateBody := {
  new_title : string;
  new_description : option string;
  new_listId : string;
  new_position : option Z;
  new_dueDate : option string;
  new_cover : option string
}.

Definition optional (check : string -> bool) (o : option string) : bool :=
  match o with Some s => check s | None => true end.

(** [createCardSchema.parse]. *)
Definition createCardSchema_parse (body : CreateBody) : option CreateBody :=
  if (1 <=? String.length (new_title body))%nat
     && (String.length (new_title body) <=? 200)%nat
     && optional (fun d => (String.length d <=? 5000)%nat) (new_description body)
     && cuid (new_listId body)
     && match new_position body with Some p => 0 <=? p | None => true end
     && optional datetime (new_dueDate body)
     && optional url (new_cover body)
  then Some body else None.

(** [newId] is the [cuid()] that [@default(cuid())] draws for the row. *)
Definition POST (session : option string) (body : CreateBody) (newId : string)
    (now : Z) : Handler Response :=
  match session with
  | None => respond (ErrorJson 401 "Unauthorized")
  | Some uid =>
      match createCardSchema_parse body with
      | None => respond (ErrorJson 400 "Validation error")
      | Some validatedData =>
          list <~ await 0 (fun db => inr (lists db !! new_listId validatedData, db)) ;;
          match list with
          | None => respond (ErrorJson 404 "List not found")
          | Some l =>
              _ <~ branch (fun db =>
                     if decide (length (board_members_of l uid db) = 0%nat)
                     then inl (ErrorJson 403 "Forbidden")
                     else inr tt) ;;
              position <~
                match new_position validatedData with
                | Some p => branch (fun _ => inr p)
                | None =>
                    await 1 (fun db =>
                      inr (card_count
                             (fun c => bool_decide (listId c = new_listId validatedData))
                             db, db))
                end ;;
              card <~ await 2
                (card_create newId
                   {| title := new_title validatedData;
                      description := new_description validatedData;
                      listId := new_listId validatedData;
                      position := position;
                      dueDate := new_dueDate validatedData;
                      cover := new_cover validatedData;
                      archived := false;
                      createdAt := now;
                      updatedAt := now |}) ;;
              _ <~ await 3
                (activity_create
                   {| action := "created"; entityType := "card";
                      entityId := card.1; cardId := Some card.1; userId := uid;
                      metadata := CreatedMeta (title card.2) (listId card.2) |}) ;;
              respond (CardJson 201 (Some card))
          end
      end
  end.

End Routes.

(** **** GET /api/cards?listId=... *)

Definition position_asc (a b : string * Card) : Prop := position a.2 <= position b.2.

#[export] Instance position_asc_dec a b : Decision (position_asc a b).
Proof. unfold position_asc. apply _. Defined.

(** [findMany({ where: { listId }, orderBy: { position: 'asc' } })]. *)
Definition card_findMany_byList (l : string) (db : DB) : list (string * Card) :=
  merge_sort position_asc
    (filter (fun kv : string * Card => listId kv.2 = l) (map_to_list (cards db))).

(** *** The vocabulary of the properties *)

(** The row [c] after the [updateMany] statements of a move of a card from
    ([src], [p]) to ([dest], [q]). *)
Definition shifted (now : Z) (src : string) (p : Z) (dest : string) (q : Z) (c : Card) : Card :=
  if decide (src = dest) then
    if p <? q then
      if bool_decide (listId c = src) && (p <? position c) && (position c <=? q)
      then set_updatedAt now (decrement 1 c) else c
    else if q <? p then
      if bool_decide (listId c = src) && (q <=? position c) && (position c <? p)
      then set_updatedAt now (increment 1 c) else c
    else c
  else
    let c1 := if bool_decide (listId c = src) && (p <? position c)
              then set_updatedAt now (decrement 1 c) else c in
    if bool_decide (listId c1 = dest) && (q <=? position c1)
    then set_updatedAt now (increment 1 c1) else c1.

(** The moved row after [card.update]. *)
Definition moved (now : Z) (dest : string) (q : Z) (c : Card) : Card :=
  set_updatedAt now (set_position q (set_listId dest c)).

Definition moved_activity (uid id : string) (c : Card) (dest : string) (q : Z) : Activity :=
  {| action := "moved"; entityType := "card"; entityId := id;
     cardId := Some id; userId := uid;
     metadata := MovedMeta (listId c) (position c) dest q |}.

(** The store after a committed move of the card [id], whose row was [c]. *)
Definition committed_move (uid id : string) (c : Card) (dest : string) (q now : Z)
    (db : DB) : DB :=
  with_activity (moved_activity uid id c dest q)
    (with_cards
       (<[id := moved now dest q c]>
          (shifted now (listId c) (position c) dest q <$> cards db))
       db).

(** The statements of the transaction that the move of the row [c] to
    ([dest], [q]) runs, by their numbers: the shift of the source list (1)
    unless the card stays where it is, the shift of the destination list
    (2) when the list changes, the update of the card (3) and the activity
    record (4). *)
Definition move_step (c : Card) (dest : string) (q : Z) (k : nat) : Prop :=
  (k = 1%nat /\ (listId c <> dest \/ position c <> q)) \/
  (k = 2%nat /\ listId c <> dest) \/
  k = 3%nat \/ k = 4%nat.

(** The row POST inserts. *)
Definition created (body : CreateBody) (pos now : Z) : Card :=
  {| title := new_title body; description := new_description body;
     listId := new_listId body; position := pos;
     dueDate := new_dueDate body; cover := new_cover body;
     archived := false; createdAt := now; updatedAt := now |}.

Definition created_position (body : CreateBody) (db : DB) : Z :=
  match new_position body with
  | Some p => p
  | None => card_count (fun c => bool_decide (listId c = new_listId body)) db
  end.

(** No two cards of one list share a position: sorted by position, the
    siblings of every list are strictly ordered. *)
Definition order_invariant (db : DB) : Prop :=
  forall i ci, cards db !! i = Some ci ->
  forall j cj, cards db !! j = Some cj ->
    listId ci = listId cj -> position ci = position cj -> i = j.

#[export] Instance order_invariant_dec db : Decision (order_invariant db).
Proof.
  apply (map_Forall_dec (fun i ci => forall j cj, cards db !! j = Some cj ->
           listId ci = listId cj -> position ci = position cj -> i = j)).
Defined.

(** [card.count({ where: { listId } })]. *)
Definition siblings_count (l : string) (db : DB) : Z :=
  card_count (fun c => bool_decide (listId c = l)) db.

(** Dense positions: the cards of a list of [n] cards hold the positions
    0 .. n-1, each once. *)
Definition dense (db : DB) : Prop :=
  order_invariant db /\
  forall i c, cards db !! i = Some c -> 0 <= position c < siblings_count (listId c) db.

#[export] Instance dense_dec db : Decision (dense db).
Proof.
  apply and_dec; [apply _|].
  apply (map_Forall_dec (fun (i : string) c =>
           0 <= position c < siblings_count (listId c) db)).
Defined.

(** Every stored position fits the column and is not the largest value of
    it, so that a shift by one fits too. *)
Definition headroom (db : DB) : Prop :=
  forall i c, cards db !! i = Some c -> - 2 ^ 31 <= position c < 2 ^ 31 - 1.

#[export] Instance headroom_dec db : Decision (headroom db).
Proof.
  apply (map_Forall_dec (fun (i : string) c => - 2 ^ 31 <= position c < 2 ^ 31 - 1)).
Defined.

Definition in_list (l : string) (kv : string * Card) : Prop :=
  Is_true (bool_decide (listId kv.2 = l)).

Definition one_if (P : Prop) `{Decision P} : Z := if decide P then 1 else 0.

(** A new position is in range for the card [c] when it is an index of the
    destination list as it will be after the move. *)
Definition move_in_range (c : Card) (dest : string) (q : Z) (db : DB) : Prop :=
  if decide (listId c = dest) then 0 <= q < siblings_count dest db
  else 0 <= q <= siblings_count dest db.

Definition position_lt (a b : string * Card) : Prop := position a.2 < position b.2.

Section Operations.
Context (faults : nat -> bool).
Context (cuid datetime url : string -> bool).

(** The operations that write positions. *)
Inductive Operation :=
| CreateCard (session : option string) (body : CreateBody) (newId : string) (now : Z)
| MoveCard (session : option string) (id : string) (body : MoveBody) (now : Z).

(** The store after the handler of the operation has answered. *)
Definition commit (op : Operation) (db : DB) : DB :=
  match op with
  | CreateCard session body newId now =>
      (run_handler (POST faults cuid datetime url session body newId now) db).2
  | MoveCard session id body now =>
      (run_handler (PATCH faults cuid session id body now) db).2
  end.

(** The requested position is an index of the destination list. *)
Definition in_range (op : Operation) (db : DB) : Prop :=
  match op with
  | CreateCard _ body _ _ =>
      match new_position body with
      | Some p => 0 <= p <= siblings_count (new_listId body) db
      | None => True
      end
  | MoveCard _ id body _ =>
      match cards db !! id with
      | Some c => move_in_range c (destinationListId body) (newPosition body) db
      | None => True
      end
  end.

(** The operation lets the server choose the position of a new card. *)
Definition at_tail (op : Operation) : Prop :=
  match op with
  | CreateCard _ body _ _ => new_position body = None
  | MoveCard _ _ _ _ => True
  end.

(** What each operation needs of the store it starts from. *)
Definition precondition (op : Operation) (db : DB) : Prop :=
  match op with
  | CreateCard _ _ _ _ => dense db
  | MoveCard _ _ _ _ => order_invariant db
  end.

End Operations.

(** *** A sample board *)

(** No Prisma call is rejected. *)
Definition no_faults : nat -> bool := fun _ => false.

(** A [string] stands for the JavaScript string it encodes in UTF-8.  The
    regular expressions of zod see the UTF-16 code units of that string:
    one unit for a character of one to three bytes, two (a surrogate pair)
    for a character of four bytes.  A byte sequence that is not well-formed
    UTF-8 stands for no string. *)
Definition continuation (b : N) : bool := ((128 <=? b) && (b <? 192))%N.

Fixpoint code_units (bytes : list N) : option (list N) :=
  match bytes with
  | [] => Some []
  | b :: rest =>
      if (b <? 128)%N then cons b <$> code_units rest
      else if ((194 <=? b) && (b <? 224))%N then
        match rest with
        | c1 :: rest1 =>
            if continuation c1
            then cons ((b - 192) * 64 + (c1 - 128))%N <$> code_units rest1
            else None
        | _ => None
        end
      else if ((224 <=? b) && (b <? 240))%N then
        match rest with
        | c1 :: c2 :: rest2 =>
            let point := ((b - 224) * 4096 + (c1 - 128) * 64 + (c2 - 128))%N in
            if continuation c1 && continuation c2
               && (2048 <=? point)%N
               && negb ((55296 <=? point) && (point <? 57344))%N
            then cons point <$> code_units rest2
            else None
        | _ => None
        end
      else if ((240 <=? b) && (b <? 245))%N then
        match rest with
        | c1 :: c2 :: c3 :: rest3 =>
            let point := ((b - 240) * 262144 + (c1 - 128) * 4096
                          + (c2 - 128) * 64 + (c3 - 128))%N in
            if continuation c1 && continuation c2 && continuation c3
               && (65536 <=? point)%N && (point <? 1114112)%N
            then (fun units => (55296 + (point - 65536) / 1024)%N
                               :: (56320 + (point - 65536) mod 1024)%N
                               :: units) <$> code_units rest3
            else None
        | _ => None
        end
      else None
  end.

Definition js_string (s : string) : option (list N) :=
  code_units (Ascii.N_of_ascii <$> String.list_ascii_of_string s).

(** The class [\s] of a JavaScript regular expression: the white space and
    the line terminators of ECMAScript. *)
Definition js_whitespace (u : N) : bool :=
  (((9 <=? u) && (u <=? 13)) || (u =? 32) || (u =? 160) || (u =? 5760)
   || ((8192 <=? u) && (u <=? 8202)) || (u =? 8232) || (u =? 8233)
   || (u =? 8239) || (u =? 8287) || (u =? 12288) || (u =? 65279))%N.

(** zod's [cuid()] format, [/^c[^\s-]{8,}$/i]: the letter c, then eight or
    more code units, none of them white space or a hyphen. *)
Definition cuid_char (u : N) : bool := negb (js_whitespace u || (u =? 45)%N).

Definition zod_cuid (s : string) : bool :=
  match js_string s with
  | Some (c :: rest) =>
      ((c =? 99) || (c =? 67))%N
      && (8 <=? length rest)%nat
      && forallb cuid_char rest
  | _ => false
  end.

(** The sample requests carry no [dueDate] and no [cover], so the two other
    formats are never consulted. *)
Definition no_format : string -> bool := fun _ => false.

Definition sample_card (t l : string) (p : Z) : Card :=
  {| title := t; description := None; listId := l; position := p;
     dueDate := None; cover := None; archived := false;
     createdAt := 0; updatedAt := 0 |}.

(** Two lists of one board: A, B, C at 0, 1, 2 in the first and D at 0 in
    the second; one member. *)
Definition sample_db : DB :=
  {| lists := {[ "clist00001" := {| list_title := "To Do"; boardId := "cboard0001" |};
                 "clist00002" := {| list_title := "Done"; boardId := "cboard0001" |} ]};
     boardMembers := {[ ("cboard0001", "cuser00001") ]};
     cards := {[ "ccard0000A" := sample_card "A" "clist00001" 0;
                 "ccard0000B" := sample_card "B" "clist00001" 1;
                 "ccard0000C" := sample_card "C" "clist00001" 2;
                 "ccard0000D" := sample_card "D" "clist00002" 0 ]};
     activities := [] |}.

(** A dense board whose only card, B, is in the second list. *)
Definition one_card_db : DB :=
  {| lists := {[ "clist00001" := {| list_title := "To Do"; boardId := "cboard0001" |};
                 "clist00002" := {| list_title := "Done"; boardId := "cboard0001" |} ]};
     boardMembers := {[ ("cboard0001", "cuser00001") ]};
     cards := {[ "ccard0000B" := sample_card "B" "clist00002" 0 ]};
     activities := [] |}.

Definition new_card_body (p : option Z) : CreateBody :=
  {| new_title := "E"; new_description := None; new_listId := "clist00001";
     new_position := p; new_dueDate := None; new_cover := None |}.

(** POST /api/cards for a card E in the first list, by the member. *)
Definition create_E (p : option Z) : Operation :=
  CreateCard (Some "cuser00001") (new_card_body p) "ccard0000E" 7.

(** PATCH /api/cards/[id]/move by the member. *)
Definition move_to (id dest : string) (q : Z) : Operation :=
  MoveCard (Some "cuser00001") id {| destinationListId := dest; newPosition := q |} 7.

Definition sample_commit (op : Operation) (db : DB) : DB :=
  commit no_faults zod_cuid no_format no_format op db.

Definition sample_PATCH (faults : nat -> bool) (id dest : string) (q : Z) (db : DB)
    : Response * DB :=
  run_handler (PATCH faults zod_cuid (Some "cuser00001") id
                 {| destinationListId := dest; newPosition := q |} 7) db.

(** [one_card_db] after B was moved to the empty first list with
    [newPosition] 1, which the schema accepts: the only card of the list
    sits at position 1. *)
Definition sparse_db : DB :=
  sample_commit (move_to "ccard0000B" "clist00001" 1) one_card_db.

(** The positions of a store, by card id. *)
Definition positions (db : DB) : list (string * (string * Z)) :=
  (fun kv : string * Card => (kv.1, (listId kv.2, position kv.2)))
    <$> map_to_list (cards db).

(** **** GET /api/cards *)

(** [findMany({ where, orderBy: { position: 'asc' } })] for any [where]. *)
Definition card_findMany (where_ : Card -> bool) (db : DB) : list (string * Card) :=
  merge_sort position_asc
    (filter (fun kv : string * Card => Is_true (where_ kv.2)) (map_to_list (cards db))).

(** [searchParams.get] gives a string or [null]; in a condition the empty
    string counts as absent too. *)
Definition truthy (o : option string) : option string :=
  match o with
  | Some s => if decide (s = EmptyString) then None else Some s
  | None => None
  end.

Record CardsQuery := {
  boardId_param : option string;
  listId_param : option string;
  search_param : option string
}.

(** The answer of GET: the rows (status 200), or an error.  The relations
    that [include] adds to each row are not part of the model. *)
Inductive CardsResponse :=
| CardsJson (rows : list (string * Card))
| CardsError (status : Z) (error : string).

Section Reads.
(** [faults 0] rejects the one Prisma call of the handler;
    [contains_insensitive text search] is the database's answer to
    [{ contains: search, mode: 'insensitive' }]. *)
Context (faults : nat -> bool).
Context (contains_insensitive : string -> string -> bool).

(** The [where] object the handler builds. *)
Definition cards_where (q : CardsQuery) (db : DB) (c : Card) : bool :=
  match truthy (listId_param q) with
  | Some l => bool_decide (listId c = l)
  | None =>
      match truthy (boardId_param q) with
      | Some b => bool_decide (boardId <$> lists db !! listId c = Some b)
      | None => true
      end
  end
  && match truthy (search_param q) with
     | Some s =>
         contains_insensitive (title c) s
         || match description c with
            | Some d => contains_insensitive d s
            | None => false
            end
     | None => true
     end.

Definition GET (session : option string) (q : CardsQuery) (db : DB) : CardsResponse :=
  match session with
  | None => CardsError 401 "Unauthorized"
  | Some _ =>
      if faults 0 then CardsError 500 "Internal server error"
      else CardsJson (card_findMany (cards_where q db) db)
  end.

End Reads.

(** *** More vocabulary *)

(** Where every card is: its list and its position. *)
Definition placement (db : DB) : gmap string (string * Z) :=
  (fun c => (listId c, position c)) <$> cards db.

(** Who may write: the session user is a member of the board that owns the
    list the handler looks at, which is the list named in the body for a
    creation and the list that holds the card for a move. *)
Definition authorized (op : Operation) (db : DB) : Prop :=
  match op with
  | CreateCard session body _ _ =>
      exists uid l, session = Some uid /\ lists db !! new_listId body = Some l /\
                    (boardId l, uid) ∈ boardMembers db
  | MoveCard session id _ _ =>
      exists uid c l, session = Some uid /\ cards db !! id = Some c /\
                      lists db !! listId c = Some l /\
                      (boardId l, uid) ∈ boardMembers db
  end.

(** The sample board with a list of a second board, of which the sample
    user is not a member. *)
Definition two_board_db : DB :=
  {| lists := <["clist00003" := {| list_title := "Elsewhere"; boardId := "cboard0002" |}]>
                (lists sample_db);
     boardMembers := boardMembers sample_db;
     cards := cards sample_db;
     activities := [] |}.

(** Only the creation of the activity record (call 3 of POST) is rejected. *)
Definition activity_fault : nat -> bool := fun k => bool_decide (k = 3%nat).

End Server.

(** ** src/app/api/lists/[id]/reorder/route.ts *)

Module ListRoute.
Local Open Scope Z_scope.

(** [model List]: the scalar columns. *)
Record List := {
  title : string;
  boardId : string;
  position : Z;
  archived : bool;
  createdAt : Z;
  updatedAt : Z
}.

Record DB := {
  lists : gmap string List;
  boardMembers : gset (string * string)
}.

Definition with_lists (m : gmap string List) (db : DB) : DB :=
  {| lists := m; boardMembers := boardMembers db |}.

Definition set_position (p : Z) (l : List) : List :=
  {| title := title l; boardId := boardId l; position := p;
     archived := archived l; createdAt := createdAt l; updatedAt := updatedAt l |}.

Definition set_updatedAt (t : Z) (l : List) : List :=
  {| title := title l; boardId := boardId l; position := position l;
     archived := archived l; createdAt := createdAt l; updatedAt := t |}.

(** [where: { boardId, position: { ... } }], with the filters of the card
    routes. *)
Record ListWhere := {
  where_boardId : string;
  where_position : list Server.IntFilter
}.

Definition list_where (w : ListWhere) (l : List) : bool :=
  bool_decide (boardId l = where_boardId w)
  && forallb (fun f => Server.int_filter f (position l)) (where_position w).

(** [list.updateMany({ where, data })].  [position] is an [Int] column
    here too: the call is rejected, and writes nothing, when a value of the
    filter or a position it would store does not fit it. *)
Definition list_updateMany (now : Z) (w : ListWhere) (data : List -> List)
    (db : DB) : option DB :=
  if forallb Server.int4 (Server.filter_value <$> where_position w)
     && bool_decide (map_Forall (fun _ l => list_where w l = true ->
                                            Server.int4 (position (data l)) = true)
                       (lists db))
  then Some (with_lists ((fun l => if list_where w l
                                   then set_updatedAt now (data l)
                                   else l) <$> lists db) db)
  else None.

Inductive Response :=
| ListJson (status : Z) (id : string) (list : List)
| ErrorJson (status : Z) (error : string).

Definition status_of (r : Response) : Z :=
  match r with ListJson s _ _ => s | ErrorJson s _ => s end.

Definition internal_error : Response := ErrorJson 500 "Internal server error".

Section Route.
(** The Prisma calls of the handler: 0 the read of the list, 1 the
    [updateMany], 2 the update of the list; [faults k] rejects call [k].
    The calls are awaited one after the other, outside any transaction, so
    each one that resolves is committed. *)
Context (faults : nat -> bool).

(** The rows [updateMany] shifts, for a list of [board] that goes from
    [oldPosition] to [newPosition]. *)
Definition shift (now : Z) (board : string) (oldPosition newPosition : Z) (l : List) : List :=
  if oldPosition <? newPosition then
    if bool_decide (boardId l = board) && (oldPosition <? position l)
       && (position l <=? newPosition)
    then set_updatedAt now (set_position (position l - 1) l) else l
  else if newPosition <? oldPosition then
    if bool_decide (boardId l = board) && (newPosition <=? position l)
       && (position l <? oldPosition)
    then set_updatedAt now (set_position (position l + 1) l) else l
  else l.

Definition PATCH (session : option string) (id : string) (newPosition now : Z)
    (db : DB) : Response * DB :=
  match session with
  | None => (ErrorJson 401 "Unauthorized", db)
  | Some uid =>
      if negb (0 <=? newPosition) then (ErrorJson 400 "Validation error", db)
      else if faults 0 then (internal_error, db)
      else
        match lists db !! id with
        | None => (ErrorJson 404 "List not found", db)
        | Some list =>
            if decide ((boardId list, uid) ∈ boardMembers db) then
              let oldPosition := position list in
              let reordered : option DB :=
                if oldPosition <? newPosition then
                  if faults 1 then None
                  else list_updateMany now
                         {| where_boardId := boardId list;
                            where_position :=
                              [Server.IntGt oldPosition; Server.IntLte newPosition] |}
                         (fun l => set_position (position l - 1) l) db
                else if newPosition <? oldPosition then
                  if faults 1 then None
                  else list_updateMany now
                         {| where_boardId := boardId list;
                            where_position :=
                              [Server.IntGte newPosition; Server.IntLt oldPosition] |}
                         (fun l => set_position (position l + 1) l) db
                else Some db in
              match reordered with
              | None => (internal_error, db)
              | Some db1 =>
                  if faults 2 then (internal_error, db1)
                  else
                    match lists db1 !! id with
                    | None => (internal_error, db1)
                    | Some l =>
                        if Server.int4 newPosition then
                          let updatedList :=
                            set_updatedAt now (set_position newPosition l) in
                          (ListJson 200 id updatedList,
                           with_lists (<[id := updatedList]> (lists db1)) db1)
                        else (internal_error, db1)
                    end
              end
            else (ErrorJson 403 "Forbidden", db)
        end
  end.

End Route.

(** The store a reorder leaves when every call resolves. *)
Definition reordered (id : string) (list : List) (newPosition now : Z) (db : DB) : DB :=
  with_lists
    (<[id := set_updatedAt now (set_position newPosition list)]>
       (shift now (boardId list) (position list) newPosition <$> lists db))
    db.

(** No two lists of one board share a position. *)
Definition order_invariant (db : DB) : Prop :=
  forall i li, lists db !! i = Some li ->
  forall j lj, lists db !! j = Some lj ->
    boardId li = boardId lj -> position li = position lj -> i = j.

#[export] Instance order_invariant_dec db : Decision (order_invariant db).
Proof.
  apply (map_Forall_dec (fun i li => forall j lj, lists db !! j = Some lj ->
           boardId li = boardId lj -> position li = position lj -> i = j)).
Defined.

(** Three lists of one board at 0, 1, 2, and its member. *)
Definition sample_list (t : string) (p : Z) : List :=
  {| title := t; boardId := "cboard0001"; position := p; archived := false;
     createdAt := 0; updatedAt := 0 |}.

Definition sample_db : DB :=
  {| lists := {[ "clist00001" := sample_list "To Do" 0;
                 "clist00002" := sample_list "Doing" 1;
                 "clist00003" := sample_list "Done" 2 ]};
     boardMembers := {[ ("cboard0001", "cuser00001") ]} |}.

(** Only the update of the list (call 2) is rejected. *)
Definition update_fault : nat -> bool := fun k => bool_decide (k = 2%nat).

End ListRoute.

(** ** src/server/socket.ts *)

Module Realtime.

(** [socket.user], decoded from the handshake token. *)
Record SocketUser := { user_id : string; email : string; name : option string }.

(** The payload of [card:moved]. *)
Record CardMovedData := {
  cardId : string;
  sourceListId : string;
  destListId : string;
  newPosition : Z
}.

(** What a client sends to the server ... *)
Inductive ClientEvent :=
| BoardJoin (boardId : string)
| BoardLeave (boardId : string)
| CardMoved (boardId : string) (data : CardMovedData).

(** ... and what the server sends to a client. *)
Inductive ServerEvent :=
| BoardUserJoined (userId : option string) (userName : option string) (socketId : string)
| BoardActiveUsers (users : list (option string * option string * string))
| BoardUserLeft (userId : option string) (socketId : string)
| CardMovedTo (data : CardMovedData).

(** One delivery: the socket that receives, and the event. *)
Definition Emission : Type := string * ServerEvent.

(** The Socket.io server (version 4.6): the connected sockets by id, and the
    adapter's rooms, a room being the set of socket ids in it. *)
Record IO := {
  sockets : gmap string SocketUser;
  rooms : gmap string (gset string)
}.

Definition io_empty : IO := {| sockets := ∅; rooms := ∅ |}.

Definition room_members (room : string) (io : IO) : gset string :=
  default ∅ (rooms io !! room).

(** [socket.join(room)]. *)
Definition socket_join (s room : string) (io : IO) : IO :=
  {| sockets := sockets io;
     rooms := <[room := {[s]} ∪ room_members room io]> (rooms io) |}.

(** [socket.leave(room)]: an emptied room is dropped by the adapter. *)
Definition socket_leave (s room : string) (io : IO) : IO :=
  {| sockets := sockets io;
     rooms := let rest := room_members room io ∖ {[s]} in
              if decide (rest = ∅) then delete room (rooms io)
              else <[room := rest]> (rooms io) |}.

(** [socket.rooms]. *)
Definition socket_rooms (s : string) (io : IO) : list string :=
  (map_to_list (filter (fun kv : string * gset string => s ∈ kv.2) (rooms io))).*1.

(** [socket.to(room).emit(event)]: every socket of the room but [s]. *)
Definition socket_to_emit (s room : string) (ev : ServerEvent) (io : IO) : list Emission :=
  (fun t => (t, ev)) <$> elements (room_members room io ∖ {[s]}).

(** [socket.emit(event)]. *)
Definition socket_emit (s : string) (ev : ServerEvent) : list Emission := [(s, ev)].

(** [io.in(room).fetchSockets()]. *)
Definition fetchSockets (room : string) (io : IO) : list (string * option SocketUser) :=
  (fun t => (t, sockets io !! t)) <$> elements (room_members room io).

(** [`board:${boardId}`]. *)
Definition board_room (boardId : string) : string := String.append "board:" boardId.

(** A new connection that passed the middleware: Socket.io puts the socket
    in the room named by its own id. *)
Definition on_connection (s : string) (u : SocketUser) (io : IO) : IO :=
  socket_join s s {| sockets := <[s := u]> (sockets io); rooms := rooms io |}.

Definition userId_of (s : string) (io : IO) : option string := user_id <$> sockets io !! s.
Definition userName_of (s : string) (io : IO) : option string := sockets io !! s ≫= name.

(** The listeners registered in [io.on('connection', ...)], for socket [s]. *)
Definition on_event (s : string) (ev : ClientEvent) (io : IO) : IO * list Emission :=
  match ev with
  | BoardJoin boardId =>
      let io1 := socket_join s (board_room boardId) io in
      let presence :=
        socket_to_emit s (board_room boardId)
          (BoardUserJoined (userId_of s io1) (userName_of s io1) s) io1 in
      let activeUsers :=
        (fun '(t, u) => (user_id <$> u, u ≫= name, t))
          <$> filter (fun su : string * option SocketUser => su.1 ≠ s)
                (fetchSockets (board_room boardId) io1) in
      (io1, presence ++ socket_emit s (BoardActiveUsers activeUsers))
  | BoardLeave boardId =>
      let io1 := socket_leave s (board_room boardId) io in
      (io1, socket_to_emit s (board_room boardId)
              (BoardUserLeft (userId_of s io1) s) io1)
  | CardMoved boardId data =>
      (io, socket_to_emit s (board_room boardId) (CardMovedTo data) io)
  end.

(** The [disconnect] listener.  In Socket.io 4 the socket has left all its
    rooms before [disconnect] fires, so [socket.rooms] is read after that. *)
Definition on_disconnect (s : string) (io : IO) : IO * list Emission :=
  let io1 := foldr (socket_leave s) io (socket_rooms s io) in
  let io2 := {| sockets := delete s (sockets io1); rooms := rooms io1 |} in
  (io2, concat ((fun room =>
                   if String.prefix "board:" room
                   then socket_to_emit s room (BoardUserLeft (userId_of s io) s) io2
                   else [])
                <$> socket_rooms s io2)).

(** What happens at the server, in order. *)
Inductive Step :=
| Connect (s : string) (u : SocketUser)
| Receive (s : string) (ev : ClientEvent)
| Disconnect (s : string).

Definition step (st : Step) (io : IO) : IO * list Emission :=
  match st with
  | Connect s u => (on_connection s u io, [])
  | Receive s ev => on_event s ev io
  | Disconnect s => on_disconnect s io
  end.

(** The server after a history (oldest step first). *)
Definition run (history : list Step) (io : IO) : IO :=
  foldl (fun io st => (step st io).1) io history.

(** Read off the history alone: is [t] in the room of board [b]?  What a
    single step says about it, if anything: a join of [b] by [t] says yes, a
    leave of [b] by [t] and a disconnect of [t] say no. *)
Definition verdict (st : Step) (t b : string) : option bool :=
  match st with
  | Receive s (BoardJoin b') =>
      if decide (s = t /\ b' = b) then Some true else None
  | Receive s (BoardLeave b') =>
      if decide (s = t /\ b' = b) then Some false else None
  | Disconnect s => if decide (s = t) then Some false else None
  | Connect _ _ | Receive _ (CardMoved _ _) => None
  end.

(** The most recent step that says something decides. *)
Fixpoint latest_verdict (newest_first : list Step) (t b : string) : bool :=
  match newest_first with
  | [] => false
  | st :: older =>
      match verdict st t b with
      | Some v => v
      | None => latest_verdict older t b
      end
  end.

Definition currently_joined (history : list Step) (t b : string) : bool :=
  latest_verdict (reverse history) t b.

(** Socket ids are drawn by the engine (twenty characters of the base64id
    alphabet): none starts with "board:". *)
Definition socket_id_ok (st : Step) : bool :=
  match st with
  | Connect s _ => negb (String.prefix "board:" s)
  | _ => true
  end.

Definition socket_ids_ok (history : list Step) : bool := forallb socket_id_ok history.

(** A history for the examples: three sockets connect; [s1] and [s2] join
    board [b1], [s3] joins board [b2], and [s2] leaves [b1] again. *)
Definition alice : SocketUser :=
  {| user_id := "cuser00001"; email := "alice@example.com"; name := Some "Alice" |}.

Definition sample_history : list Step :=
  [ Connect "s1" alice; Connect "s2" alice; Connect "s3" alice; Connect "s4" alice;
    Receive "s1" (BoardJoin "b1"); Receive "s2" (BoardJoin "b1");
    Receive "s3" (BoardJoin "b2"); Receive "s4" (BoardJoin "b1");
    Receive "s2" (BoardLeave "b1") ].

Definition sample_moved : CardMovedData :=
  {| cardId := "ccard0000A"; sourceListId := "clist00001";
     destListId := "clist00002"; newPosition := 0 |}.

End Realtime.

(** ** src/store/boardStore.ts and src/hooks/useRealtimeBoard.ts *)

Module BoardStore.
Local Open Scope Z_scope.

(** [type Card] of src/types: the row with its [id]. *)
Record Card := { id : string; row : Server.Card }.

Definition listId (c : Card) : string := Server.listId (row c).
Definition position (c : Card) : Z := Server.position (row c).

Definition set_listId (l : string) (c : Card) : Card :=
  {| id := id c; row := Server.set_listId l (row c) |}.
Definition set_position (p : Z) (c : Card) : Card :=
  {| id := id c; row := Server.set_position p (row c) |}.

(** [cards: Record<string, Card[]>].  The keys are list ids (cuids, never
    integer-like), so [for (const listId in state.cards)] visits them in
    insertion order: an association list with one entry per key. *)
Definition CardsByList : Type := list (string * list Card).

Record BoardState := {
  lists : list (string * Server.List);
  cards : CardsByList
}.

(** [state.cards[listId]]. *)
Fixpoint cards_get (l : string) (m : CardsByList) : option (list Card) :=
  match m with
  | [] => None
  | (k, v) :: m' => if decide (k = l) then Some v else cards_get l m'
  end.

(** [state.cards[listId] = v]: in place for a key that exists, a new last
    key otherwise. *)
Fixpoint cards_set (l : string) (v : list Card) (m : CardsByList) : CardsByList :=
  match m with
  | [] => [(l, v)]
  | (k, v0) :: m' => if decide (k = l) then (k, v) :: m' else (k, v0) :: cards_set l v m'
  end.

(** The start index of [arr.splice(start, ...)] for an integer [start]. *)
Definition splice_start (start : Z) (len : nat) : nat :=
  if start <? 0 then Z.to_nat (Z.max (Z.of_nat len + start) 0)
  else Z.to_nat (Z.min start (Z.of_nat len)).

(** [arr.splice(start, 0, item)]. *)
Definition splice_insert {A} (start : Z) (item : A) (arr : list A) : list A :=
  let k := splice_start start (length arr) in
  take k arr ++ item :: drop k arr.

(** [arr.forEach((c, index) => { c.position = index })]. *)
Definition renumber (arr : list Card) : list Card :=
  imap (fun index c => set_position (Z.of_nat index) c) arr.

(** The loop of [moveCard] that takes the card out of the first list that
    holds it: [findIndex] by id, then [splice(index, 1)] and [break]. *)
Fixpoint take_out (cardId : string) (m : CardsByList) : option Card * CardsByList :=
  match m with
  | [] => (None, [])
  | (listId, arr) :: m' =>
      match list_find (fun c => id c = cardId) arr with
      | Some (index, card) => (Some card, (listId, delete index arr) :: m')
      | None => let '(found, m'') := take_out cardId m' in (found, (listId, arr) :: m'')
      end
  end.

Definition moveCard (cardId newListId : string) (newPosition : Z) (state : BoardState) : BoardState :=
  match take_out cardId (cards state) with
  | (None, _) => state
  | (Some card, cards1) =>
      let card := set_position newPosition (set_listId newListId card) in
      let cards2 := match cards_get newListId cards1 with
                    | None => cards_set newListId [] cards1
                    | Some _ => cards1
                    end in
      let arr := default [] (cards_get newListId cards2) in
      {| lists := lists state;
         cards := cards_set newListId (renumber (splice_insert newPosition card arr)) cards2 |}
  end.

(** [addCard]: the card is pushed on the array of its list, which is
    created when missing; nothing checks whether the id is already held. *)
Definition addCard (card : Card) (state : BoardState) : BoardState :=
  let cards1 := match cards_get (listId card) (cards state) with
                | None => cards_set (listId card) [] (cards state)
                | Some _ => cards state
                end in
  {| lists := lists state;
     cards := cards_set (listId card)
                (default [] (cards_get (listId card) cards1) ++ [card]) cards1 |}.

(** [socket.on('card:moved', (data) => moveCard(...))]. *)
Definition on_card_moved (data : Realtime.CardMovedData) (state : BoardState) : BoardState :=
  moveCard (Realtime.cardId data) (Realtime.destListId data) (Realtime.newPosition data) state.

(** All cards of the store, list after list. *)
Definition all_cards (m : CardsByList) : list Card := concat m.*2.

(** Every card id occurs at most once in the whole store. *)
Definition unique_ids (state : BoardState) : Prop :=
  NoDup (id <$> all_cards (cards state)).

(** A card with its position blanked: two arrays that agree up to positions
    are renumbered to the same array. *)
Definition erase (c : Card) : Card := set_position 0 c.

(** The sample board of the server as a client holds it after
    [fetchBoard]. *)
Definition client_card (i t l : string) (p : Z) : Card :=
  {| id := i; row := Server.sample_card t l p |}.

Definition sample_store : BoardState :=
  {| lists := map_to_list (Server.lists Server.sample_db);
     cards := [ ("clist00001", [ client_card "ccard0000A" "A" "clist00001" 0;
                                 client_card "ccard0000B" "B" "clist00001" 1;
                                 client_card "ccard0000C" "C" "clist00001" 2 ]);
                ("clist00002", [ client_card "ccard0000D" "D" "clist00002" 0 ]) ] |}.

(** The same store after [addCard] pushed card A a second time (a
    [card:created] event for a card the fetch had already delivered). *)
Definition store_with_duplicate : BoardState :=
  addCard (client_card "ccard0000A" "A" "clist00001" 0) sample_store.

(** [card:moved] for card A, to the head of the second list. *)
Definition moved_A : Realtime.CardMovedData :=
  {| Realtime.cardId := "ccard0000A"; Realtime.sourceListId := "clist00001";
     Realtime.destListId := "clist00002"; Realtime.newPosition := 0 |}.

(** The ids of the cards of each list, in order. *)
Definition layout (state : BoardState) : list (string * list (string * Z)) :=
  (fun kv : string * list Card =>
     (kv.1, (fun c => (id c, position c)) <$> kv.2)) <$> cards state.

(** *** The other actions of the store *)

(** [deleteCard]: the array of every list is replaced by its filter. *)
Definition deleteCard (cardId : string) (state : BoardState) : BoardState :=
  {| lists := lists state;
     cards := (fun kv : string * list Card =>
                 (kv.1, filter (fun c => id c ≠ cardId) kv.2)) <$> cards state |}.

(** [delete state.cards[listId]]. *)
Definition cards_delete (l : string) (m : CardsByList) : CardsByList :=
  filter (fun kv : string * list Card => kv.1 ≠ l) m.

(** [addList]: the list is pushed, and its array of cards is set to [[]]
    whether or not the key was there. *)
Definition addList (list : string * Server.List) (state : BoardState) : BoardState :=
  {| lists := lists state ++ [list];
     cards := cards_set list.1 [] (cards state) |}.

Definition deleteList (listId : string) (state : BoardState) : BoardState :=
  {| lists := filter (fun l : string * Server.List => l.1 ≠ listId) (lists state);
     cards := cards_delete listId (cards state) |}.

(** The step of the [reduce] in [fetchBoard]. *)
Definition group_step (acc : CardsByList) (card : Card) : CardsByList :=
  let acc1 := match cards_get (listId card) acc with
              | None => cards_set (listId card) [] acc
              | Some _ => acc
              end in
  cards_set (listId card) (default [] (cards_get (listId card) acc1) ++ [card]) acc1.

(** [fetchBoard] once the request has settled: [None] when it failed (the
    store keeps its lists and cards), the lists and cards of the response
    otherwise. *)
Definition fetchBoard (data : option (list (string * Server.List) * list Card))
    (state : BoardState) : BoardState :=
  match data with
  | None => state
  | Some (data_lists, data_cards) =>
      {| lists := data_lists; cards := foldl group_step [] data_cards |}
  end.

(** The keys of [state.cards] are distinct, as the keys of an object are. *)
Definition distinct_keys (m : CardsByList) : Prop := NoDup m.*1.

End BoardStore.

(** ** components/kanban-board.tsx *)

Module Kanban.

Inductive Priority := low | medium | high.

Record Task := {
  id : string;
  title : string;
  description : option string;
  priority : option Priority;
  assignee : option string;
  dueDate : option string;
  tags : option (list string)
}.

Record Column := { col_id : string; col_title : string; tasks : list Task }.

(** The three pieces of component state that [handleDrop] touches. *)
Record BoardState := {
  columns : list Column;
  draggedTask : option (Task * string);
  dragOverColumnId : option string
}.

Definition with_tasks (ts : list Task) (col : Column) : Column :=
  {| col_id := col_id col; col_title := col_title col; tasks := ts |}.

Definition handleDragStart (task : Task) (sourceColumnId : string) (st : BoardState) : BoardState :=
  {| columns := columns st;
     draggedTask := Some (task, sourceColumnId);
     dragOverColumnId := dragOverColumnId st |}.

Definition handleDrop (targetColumnId : string) (st : BoardState) : BoardState :=
  match draggedTask st with
  | None => st
  | Some (task, sourceColumnId) =>
      if decide (sourceColumnId = targetColumnId) then
        {| columns := columns st; draggedTask := None; dragOverColumnId := None |}
      else
        {| columns :=
             (fun col =>
                if decide (col_id col = sourceColumnId) then
                  with_tasks (filter (fun t => id t ≠ id task) (tasks col)) col
                else if decide (col_id col = targetColumnId) then
                  with_tasks (tasks col ++ [task]) col
                else col) <$> columns st;
           draggedTask := None;
           dragOverColumnId := None |}
  end.

(** All tasks of the board, column after column. *)
Definition all_tasks (cols : list Column) : list Task := concat (tasks <$> cols).

Definition column (cid : string) (cols : list Column) : option Column :=
  snd <$> list_find (fun col => col_id col = cid) cols.

(** The board a drag starts from: column ids are distinct, task ids are
    distinct over the whole board, and the dragged task was picked up from
    the column recorded with it. *)
Definition well_formed (cols : list Column) : Prop :=
  NoDup (col_id <$> cols) /\ NoDup (id <$> all_tasks cols).

Definition dragging (st : BoardState) (task : Task) (sourceColumnId : string) : Prop :=
  draggedTask st = Some (task, sourceColumnId) /\
  exists col, column sourceColumnId (columns st) = Some col /\ task ∈ tasks col.

(** What [handleDrop] does to one column. *)
Definition drop_column (task : Task) (sourceColumnId targetColumnId : string)
    (col : Column) : Column :=
  if decide (col_id col = sourceColumnId) then
    with_tasks (filter (fun t => id t ≠ id task) (tasks col)) col
  else if decide (col_id col = targetColumnId) then
    with_tasks (tasks col ++ [task]) col
  else col.

(** The tasks taken out of the columns called [src], and put into the
    columns called [tgt], by [drop_column]. *)
Definition taken_out (task : Task) (src : string) (cols : list Column) : list Task :=
  concat ((fun col => if decide (col_id col = src)
                      then filter (fun t => id t = id task) (tasks col) else [])
          <$> cols).

Definition put_in (task : Task) (src tgt : string) (cols : list Column) : list Task :=
  concat ((fun col => if decide (col_id col = src) then []
                      else if decide (col_id col = tgt) then [task] else [])
          <$> cols).

(** [initialColumns]. *)
Definition mkTask (i t d : string) (p : Priority) (a : string)
    (tg : list string) (due : option string) : Task :=
  {| id := i; title := t; description := Some d; priority := Some p;
     assignee := Some a; dueDate := due; tags := Some tg |}.

Definition initialColumns : list Column :=
  [
    {| col_id := "backlog"; col_title := "Backlog";
       tasks := [
        mkTask "1" "Research competitor features"
          "Analyze top 3 competitors and identify key differentiators"
          medium "Sarah" ["research"; "planning"] (Some "Dec 28");
        mkTask "2" "User interview sessions"
          "Schedule 5 user interviews to gather feedback"
          high "Mike" ["user research"] (Some "Dec 30");
        mkTask "3" "Define success metrics"
          "Establish KPIs for Q1 goals"
          medium "Alex" ["analytics"] (Some "Jan 5") ] |};
    {| col_id := "todo"; col_title := "To Do";
       tasks := [
        mkTask "4" "Design new dashboard layout"
          "Create wireframes and high-fidelity mockups"
          high "Emma" ["design"; "ui"] (Some "Dec 24");
        mkTask "5" "Setup authentication flow"
          "Implement OAuth and SSO integration"
          high "Alex" ["backend"; "security"] (Some "Dec 26");
        mkTask "11" "Database schema optimization"
          "Review and optimize query performance"
          medium "Jordan" ["backend"; "performance"] None ] |};
    {| col_id := "in-progress"; col_title := "In Progress";
       tasks := [
        mkTask "6" "Implement drag and drop"
          "Add DnD functionality to kanban board with visual feedback"
          high "Jordan" ["frontend"; "feature"] (Some "Dec 23");
        mkTask "7" "Write API documentation"
          "Document all REST endpoints with examples"
          medium "Sam" ["docs"; "backend"] None ] |};
    {| col_id := "review"; col_title := "Review";
       tasks := [
        mkTask "8" "Code review for payment integration"
          "Review Stripe integration implementation"
          high "Chris" ["review"; "backend"] (Some "Dec 22");
        mkTask "12" "Security audit"
          "Review authentication and data validation"
          high "Taylor" ["security"; "review"] None ] |};
    {| col_id := "done"; col_title := "Done";
       tasks := [
        mkTask "9" "Setup project repository"
          "Initialize Git repo with CI/CD configuration"
          medium "Mike" ["setup"] None;
        mkTask "10" "Configure CI/CD pipeline"
          "Setup automated testing and deployment"
          medium "Taylor" ["devops"] None;
        mkTask "13" "Design system foundation"
          "Create color palette and typography scale"
          low "Emma" ["design"] None ] |} ].

(** Task 1 of the backlog, and the board while it is being dragged. *)
Definition task_1 : Task :=
  mkTask "1" "Research competitor features"
    "Analyze top 3 competitors and identify key differentiators"
    medium "Sarah" ["research"; "planning"] (Some "Dec 28").

Definition initial_board : BoardState :=
  {| columns := initialColumns; draggedTask := None; dragOverColumnId := None |}.

Definition dragging_task_1 : BoardState :=
  handleDragStart task_1 "backlog" initial_board.

(** *** The other handlers *)

Definition handleDragOver (columnId : string) (st : BoardState) : BoardState :=
  {| columns := columns st;
     draggedTask := draggedTask st;
     dragOverColumnId := Some columnId |}.

Definition handleDragEnd (st : BoardState) : BoardState :=
  {| columns := columns st; draggedTask := None; dragOverColumnId := None |}.

(** The updater of [handleDeleteCard]. *)
Definition handleDeleteCard (columnId taskId : string) (cols : list Column) : list Column :=
  (fun col =>
     if decide (col_id col = columnId)
     then with_tasks (filter (fun t => id t ≠ taskId) (tasks col)) col
     else col) <$> cols.

Definition handleDeleteList (columnId : string) (cols : list Column) : list Column :=
  filter (fun col => col_id col ≠ columnId) cols.

(** The state of the two dialogs. *)
Record CardDialog := {
  addCardDialogOpen : bool;
  addCardColumnId : option string;
  newCardTitle : string;
  newCardDescription : string;
  newCardPriority : Priority;
  newCardAssignee : string
}.

Record ListDialog := { addListDialogOpen : bool; newListTitle : string }.

Definition handleOpenAddCard (columnId : string) (dlg : CardDialog) : CardDialog :=
  {| addCardDialogOpen := true; addCardColumnId := Some columnId;
     newCardTitle := newCardTitle dlg; newCardDescription := newCardDescription dlg;
     newCardPriority := newCardPriority dlg; newCardAssignee := newCardAssignee dlg |}.

(** A string in a condition, and [s || undefined]: the empty string is
    falsy. *)
Definition nonempty (s : string) : option string :=
  if decide (s = EmptyString) then None else Some s.

(** [`task-${Date.now()}`] and [`list-${Date.now()}`]: the clock is a
    count of milliseconds, printed in decimal. *)
Definition task_id (now : N) : string := String.append "task-" (pretty now).
Definition list_id (now : N) : string := String.append "list-" (pretty now).

Section Dialogs.
(** [String.prototype.trim]; the handlers are read for any such function. *)
Context (trim : string -> string).

Definition newTask (now : N) (dlg : CardDialog) (t : string) : Task :=
  {| id := task_id now;
     title := t;
     description := nonempty (trim (newCardDescription dlg));
     priority := Some (newCardPriority dlg);
     assignee := nonempty (trim (newCardAssignee dlg));
     dueDate := None;
     tags := None |}.

(** [handleAddCard] at time [now]: the dialog and the columns after it. *)
Definition handleAddCard (now : N) (dlg : CardDialog) (cols : list Column)
    : CardDialog * list Column :=
  match nonempty (trim (newCardTitle dlg)), addCardColumnId dlg ≫= nonempty with
  | Some t, Some columnId =>
      ({| addCardDialogOpen := false; addCardColumnId := None;
          newCardTitle := EmptyString; newCardDescription := EmptyString;
          newCardPriority := medium; newCardAssignee := EmptyString |},
       (fun col =>
          if decide (col_id col = columnId)
          then with_tasks (tasks col ++ [newTask now dlg t]) col
          else col) <$> cols)
  | _, _ => (dlg, cols)
  end.

Definition handleAddList (now : N) (dlg : ListDialog) (cols : list Column)
    : ListDialog * list Column :=
  match nonempty (trim (newListTitle dlg)) with
  | Some t =>
      ({| addListDialogOpen := false; newListTitle := EmptyString |},
       cols ++ [ {| col_id := list_id now; col_title := t; tasks := [] |} ])
  | None => (dlg, cols)
  end.

End Dialogs.

(** The dialog after "Add card" was opened on the backlog and a title was
    typed. *)
Definition sample_dialog : CardDialog :=
  {| addCardDialogOpen := true; addCardColumnId := Some "backlog";
     newCardTitle := "Write release notes"; newCardDescription := EmptyString;
     newCardPriority := low; newCardAssignee := "Sam" |}.

(** A stand-in for [trim] on strings that carry no white space at their
    ends. *)
Definition no_trim : string -> string := fun s => s.

End Kanban.

(** ** src/lib/position.ts: the array helpers *)

Module PositionArrays.
Local Open Scope Z_scope.

(** An item is an object with a [position] among its properties: a finite
    map from property names to values. *)
Abbreviation JsObject := (gmap string Server.JsValue).

(** [{ ...item, position: index }]; spreading [undefined] adds nothing. *)
Definition with_position (index : nat) (item : option JsObject) : JsObject :=
  <["position" := Server.JNumber (Z.of_nat index)]> (default ∅ item).

(** [arr.splice(start, 1)]: the array that is left, and the removed
    element, which is [undefined] when [start] is past the end. *)
Definition splice_remove {A} (start : Z) (arr : list A) : list A * option A :=
  let k := BoardStore.splice_start start (length arr) in
  (delete k arr, arr !! k).

(** [result.map((item, index) => ({ ...item, position: index }))]. *)
Definition renumber (arr : list (option JsObject)) : list JsObject :=
  imap with_position arr.

Definition reorderItems (items : list JsObject) (startIndex endIndex : Z) : list JsObject :=
  let '(result, removed) := splice_remove startIndex items in
  renumber (BoardStore.splice_insert endIndex removed (Some <$> result)).

Definition moveItemBetweenArrays (source destination : list JsObject)
    (sourceIndex destIndex : Z) : list JsObject * list JsObject :=
  let '(sourceClone, removed) := splice_remove sourceIndex source in
  let destClone := BoardStore.splice_insert destIndex removed (Some <$> destination) in
  (renumber (Some <$> sourceClone), renumber destClone).

(** An item without its position. *)
Definition payload (item : JsObject) : JsObject := delete "position" item.

(** The same for an array element that may be [undefined]. *)
Definition payload_of (item : option JsObject) : JsObject := payload (default ∅ item).

(** The positions of an array of items. *)
Definition positions (items : list JsObject) : list (option Server.JsValue) :=
  (fun item : JsObject => item !! "position") <$> items.

(** The positions 0, 1, ..., n-1. *)
Definition indexes (n : nat) : list (option Server.JsValue) :=
  (fun i => Some (Server.JNumber (Z.of_nat i))) <$> seq 0 n.

(** Three items for the examples. *)
Definition item (name : string) (p : Z) : JsObject :=
  {[ "id" := Server.JString name; "position" := Server.JNumber p ]}.

Definition sample_items : list JsObject := [ item "a" 0; item "b" 1; item "c" 2 ].

End PositionArrays.

(** ** src/hooks/useDragAndDrop.ts *)

Module DragAndDrop.
Local Open Scope Z_scope.

(** [data.current] of a draggable or droppable: [{ type: 'list' }] or
    [{ type: 'card', card }]; anything else, [undefined] included, is
    [None]. *)
Inductive DragData :=
| ListData
| CardData (card : BoardStore.Card).

Record Draggable := { drag_id : string; drag_data : option DragData }.

Record DragEndEvent := { active : Draggable; over : option Draggable }.

(** The lists the hook is given: the [id] and the [cards], which the type
    of the prop does not promise. *)
Record List := { list_id : string; list_cards : option (list BoardStore.Card) }.

(** The two pieces of state of the hook. *)
Record DragState := { activeId : option string; overId : option string }.

Definition cleared : DragState := {| activeId := None; overId := None |}.

(** A call of one of the two callbacks. *)
Inductive Call :=
| ListReorder (listId : string) (newPosition : Z)
| CardMove (cardId sourceListId destListId : string) (newPosition : Z).

(** [arr.findIndex(pred)]: the first index, or -1. *)
Definition findIndex {A} (P : A -> Prop) `{forall x, Decision (P x)} (arr : list A) : Z :=
  match list_find P arr with
  | Some (index, _) => Z.of_nat index
  | None => -1
  end.

(** [lists.find((l) => l.id === id)]. *)
Definition find_list (id : string) (lists : list List) : option List :=
  snd <$> list_find (fun l => list_id l = id) lists.

(** [x || 0] for a number that may be [undefined]. *)
Definition or_zero (x : option Z) : Z := default 0 x.

(** [await callback(...)]: the state is cleared after a call that
    resolves; a call that rejects ends the handler there, with the state as
    it was. *)
Definition awaited (resolves : Call -> bool) (call : Call) (st : DragState)
    : list Call * DragState :=
  ([call], if resolves call then cleared else st).

Definition handleDragEnd (lists : list List) (resolves : Call -> bool)
    (event : DragEndEvent) (st : DragState) : list Call * DragState :=
  match over event with
  | None => ([], cleared)
  | Some over =>
      if decide (drag_id (active event) = drag_id over) then ([], cleared)
      else
        match drag_data (active event) with
        | Some ListData =>
            match drag_data over with
            | Some ListData =>
                let oldIndex := findIndex (fun l => list_id l = drag_id (active event)) lists in
                let newIndex := findIndex (fun l => list_id l = drag_id over) lists in
                if decide (oldIndex <> -1 /\ newIndex <> -1 /\ oldIndex <> newIndex)
                then awaited resolves (ListReorder (drag_id (active event)) newIndex) st
                else ([], cleared)
            | _ => ([], cleared)
            end
        | Some (CardData activeCard) =>
            let sourceListId := BoardStore.listId activeCard in
            let target : option (string * Z) :=
              match drag_data over with
              | Some ListData =>
                  let destListId := drag_id over in
                  let destList := find_list destListId lists in
                  Some (destListId,
                        or_zero ((fun cards : list BoardStore.Card => Z.of_nat (length cards))
                                   <$> (destList ≫= list_cards)))
              | Some (CardData overCard) =>
                  let destListId := BoardStore.listId overCard in
                  let destList := find_list destListId lists in
                  Some (destListId,
                        or_zero (findIndex (fun c => BoardStore.id c = drag_id over)
                                   <$> (destList ≫= list_cards)))
              | None => None
              end in
            match target with
            | None => ([], cleared)
            | Some (destListId, newPosition) =>
                if decide (sourceListId <> destListId \/
                           BoardStore.position activeCard <> newPosition)
                then awaited resolves
                       (CardMove (drag_id (active event)) sourceListId destListId newPosition)
                       st
                else ([], cleared)
            end
        | None => ([], cleared)
        end
  end.

(** The drop of card A of the sample store on card D, for a hook whose
    copy of the second list is empty. *)
Definition stale_lists : list List :=
  [ {| list_id := "clist00001"; list_cards := Some [] |};
    {| list_id := "clist00002"; list_cards := Some [] |} ].

Definition drop_A_on_D : DragEndEvent :=
  {| active := {| drag_id := "ccard0000A";
                  drag_data := Some (CardData (BoardStore.client_card "ccard0000A" "A"
                                                 "clist00001" 0)) |};
     over := Some {| drag_id := "ccard0000D";
                     drag_data := Some (CardData (BoardStore.client_card "ccard0000D" "D"
                                                    "clist00002" 0)) |} |}.

End DragAndDrop.

(** ** The client store against the card table *)

Module Optimistic.

(** The card ids of a list in the order the server returns them
    ([orderBy: { position: 'asc' }]) ... *)
Definition server_order (l : string) (db : Server.DB) : list string :=
  (Server.card_findMany_byList l db).*1.

(** ... and in the order the client store holds them. *)
Definition client_order (l : string) (state : BoardStore.BoardState) : list string :=
  BoardStore.id <$> default [] (BoardStore.cards_get l (BoardStore.cards state)).

(** The client shows the cards of every list in the order of the server. *)
Definition in_step (db : Server.DB) (state : BoardStore.BoardState) : Prop :=
  forall l, client_order l state = server_order l db.

End Optimistic.

(** * Theorems *)

(** ** binary64 arithmetic *)

Section Binary64Facts.
Import Binary64.
Local Open Scope Z_scope.

Lemma digits2_size p : digits2_pos p = Pos.size p.
Proof. induction p; cbn; congruence. Qed.

Lemma digits2_bounds p :
  2 ^ (Zpos (digits2_pos p) - 1) <= Zpos p < 2 ^ Zpos (digits2_pos p).
Proof.
  rewrite digits2_size.
  pose proof (Pos.size_gt p) as Hgt. pose proof (Pos.size_le p) as Hle.
  split.
  - apply Pos2Z.pos_le_pos in Hle. rewrite Pos2Z.inj_pow in Hle.
    replace (Zpos (Pos.size p)) with (Zpos (Pos.size p) - 1 + 1) in Hle at 1 by lia.
    rewrite Z.pow_add_r in Hle by lia. change (Zpos p~0) with (2 * Zpos p) in Hle. lia.
  - apply Pos2Z.pos_lt_pos in Hgt. now rewrite Pos2Z.inj_pow in Hgt.
Qed.

(** *** Shifting right with a round bit and a sticky bit *)

Lemma shr_1_nonneg m r s :
  0 <= m ->
  shr_1 {| shr_m := m; shr_r := r; shr_s := s |} =
    {| shr_m := m / 2; shr_r := Z.odd m; shr_s := r || s |}.
Proof.
  intros Hm. rewrite <- Z.div2_div.
  destruct m as [|[p|p|]|p]; try reflexivity. lia.
Qed.

Lemma iter_pos_iter {A} (f : A -> A) p x :
  SpecFloat.iter_pos f p x = Nat.iter (Pos.to_nat p) f x.
Proof.
  revert x. induction p as [p IH|p IH|]; intros x; cbn [SpecFloat.iter_pos].
  - rewrite !IH. rewrite Pos2Nat.inj_xI.
    replace (S (2 * Pos.to_nat p))%nat with (Pos.to_nat p + (Pos.to_nat p + 1))%nat by lia.
    rewrite !Nat.iter_add. reflexivity.
  - rewrite !IH. rewrite Pos2Nat.inj_xO.
    replace (2 * Pos.to_nat p)%nat with (Pos.to_nat p + Pos.to_nat p)%nat by lia.
    rewrite Nat.iter_add. reflexivity.
  - reflexivity.
Qed.

Lemma tracks_start x : tracks x 0 {| shr_m := x; shr_r := false; shr_s := false |}.
Proof. split; cbn; [now rewrite Z.div_1_r|now rewrite Z.mod_1_r]. Qed.

Lemma tracks_step x n mrs :
  0 <= x -> 0 <= n -> tracks x n mrs -> tracks x (n + 1) (shr_1 mrs).
Proof.
  intros Hx Hn [Hm Hloc]. destruct mrs as [m r s]. cbn [shr_m shr_r shr_s] in *.
  assert (Hpow : 0 < 2 ^ n) by (apply Z.pow_pos_nonneg; lia).
  assert (Hm0 : 0 <= m) by (subst m; apply Z.div_pos; lia).
  rewrite shr_1_nonneg by exact Hm0. unfold tracks. cbn [shr_m shr_r shr_s].
  rewrite Z.pow_add_r, Z.pow_1_r by lia.
  assert (Hdiv : x / (2 ^ n * 2) = m / 2)
    by (subst m; now rewrite Z.div_div by lia).
  assert (Hmod : x mod (2 ^ n * 2) = 2 ^ n * (m mod 2) + x mod 2 ^ n).
  { subst m. rewrite Z.rem_mul_r by lia. lia. }
  split; [now symmetry|]. rewrite Hmod.
  pose proof (Z.mod_pos_bound x (2 ^ n) Hpow) as Hrem.
  rewrite Zodd_mod. destruct (Z.eqb_spec (m mod 2) 1) as [Hodd|Heven].
  - rewrite Hodd. destruct r, s; cbn [orb]; lia.
  - assert (m mod 2 = 0) as -> by (pose proof (Z.mod_pos_bound m 2); lia).
    destruct r, s; cbn [orb]; lia.
Qed.

Lemma tracks_iter x n :
  0 <= x ->
  tracks x (Z.of_nat n)
    (Nat.iter n shr_1 {| shr_m := x; shr_r := false; shr_s := false |}).
Proof.
  intros Hx. induction n as [|n IH].
  - apply tracks_start.
  - rewrite Nat2Z.inj_succ, <- Z.add_1_r. cbn [Nat.iter]. apply tracks_step; [lia..|exact IH].
Qed.

Lemma round_tracks x n mrs :
  0 <= n -> tracks x n mrs ->
  round_nearest_even (shr_m mrs) (loc_of_shr_record mrs) = rne n x.
Proof.
  intros Hn [Hm Hloc]. destruct mrs as [m r s]. cbn [shr_m shr_r shr_s] in *.
  assert (Hpow : 0 < 2 ^ n) by (apply Z.pow_pos_nonneg; lia).
  unfold rne. subst m.
  destruct r, s; cbn [loc_of_shr_record round_nearest_even].
  - destruct (Z.ltb_spec (2 * (x mod 2 ^ n)) (2 ^ n)); [lia|].
    destruct (Z.ltb_spec (2 ^ n) (2 * (x mod 2 ^ n))); [reflexivity|lia].
  - destruct (Z.ltb_spec (2 * (x mod 2 ^ n)) (2 ^ n)); [lia|].
    destruct (Z.ltb_spec (2 ^ n) (2 * (x mod 2 ^ n))); [lia|reflexivity].
  - destruct (Z.ltb_spec (2 * (x mod 2 ^ n)) (2 ^ n)); [reflexivity|lia].
  - destruct (Z.ltb_spec (2 * (x mod 2 ^ n)) (2 ^ n)); [reflexivity|lia].
Qed.

(** [shr] by [n] places, for any [n]. *)
Lemma shr_tracks x e n :
  0 <= x ->
  tracks x (Z.max 0 n) (shr {| shr_m := x; shr_r := false; shr_s := false |} e n).1 /\
  (shr {| shr_m := x; shr_r := false; shr_s := false |} e n).2 = e + Z.max 0 n.
Proof.
  intros Hx. unfold shr. destruct n as [|p|p]; cbn [fst snd].
  - rewrite Z.max_l by lia. split; [apply tracks_start|lia].
  - rewrite Z.max_r by lia. rewrite iter_pos_iter. split; [|reflexivity].
    rewrite <- (positive_nat_Z p) at 1. now apply tracks_iter.
  - rewrite Z.max_l by lia. split; [apply tracks_start|lia].
Qed.

Lemma Zdigits2_unique x d :
  2 ^ (d - 1) <= x < 2 ^ d -> 1 <= d -> Zdigits2 x = d.
Proof.
  intros [Hlo Hhi] Hd.
  assert (0 < x) by (pose proof (Z.pow_pos_nonneg 2 (d - 1)); lia).
  destruct x as [|p|p]; try lia. cbn [Zdigits2].
  pose proof (digits2_bounds p) as [Hlo' Hhi'].
  destruct (Z.lt_trichotomy (Zpos (digits2_pos p)) d) as [Hlt|[Heq|Hgt]]; [|exact Heq|].
  - assert (2 ^ Zpos (digits2_pos p) <= 2 ^ (d - 1)) by (apply Z.pow_le_mono_r; lia). lia.
  - assert (2 ^ d <= 2 ^ (Zpos (digits2_pos p) - 1)) by (apply Z.pow_le_mono_r; lia). lia.
Qed.

Lemma rne_0 x : rne 0 x = x.
Proof.
  unfold rne. rewrite Z.pow_0_r, Z.mod_1_r, Z.div_1_r. reflexivity.
Qed.

(** The quotient and its neighbour are the two candidates. *)
Lemma rne_cases n x : rne n x = x / 2 ^ n \/ rne n x = x / 2 ^ n + 1.
Proof. unfold rne. repeat case_match; auto. Qed.

Lemma div_pow_bounds x d t :
  2 ^ (d - 1) <= x < 2 ^ d -> 0 <= t < d ->
  2 ^ (d - t - 1) <= x / 2 ^ t < 2 ^ (d - t).
Proof.
  intros [Hlo Hhi] Ht.
  assert (Hpow : 0 < 2 ^ t) by (apply Z.pow_pos_nonneg; lia).
  split.
  - apply Z.div_le_lower_bound; [exact Hpow|].
    rewrite <- Z.pow_add_r by lia. now replace (t + (d - t - 1)) with (d - 1) by lia.
  - apply Z.div_lt_upper_bound; [exact Hpow|].
    rewrite <- Z.pow_add_r by lia. now replace (t + (d - t)) with d by lia.
Qed.

(** Rounding an exact mantissa gives the mantissa rounded to 53 bits, or
    an infinity when the exponent is at the top of the range. *)
Lemma binary_round_aux_cases s m e :
  -1074 <= e ->
  (exists m' e',
      binary_round_aux prec emax s (Zpos m) e loc_Exact = S754_finite s m' e' /\
      Zpos m' * 2 ^ (e' + 1074) =
        rne (Z.max 0 (Zpos (digits2_pos m) - 53)) (Zpos m)
        * 2 ^ (e + Z.max 0 (Zpos (digits2_pos m) - 53) + 1074)) \/
  (binary_round_aux prec emax s (Zpos m) e loc_Exact = S754_infinity s /\
   971 <= e + Z.max 0 (Zpos (digits2_pos m) - 53)).
Proof.
  intros He. unfold binary_round_aux, shr_fexp.
  cbn [shr_record_of_loc Zdigits2].
  set (d := Zpos (digits2_pos m)).
  pose proof (digits2_bounds m) as Hd. fold d in Hd.
  assert (Hd1 : 1 <= d) by (unfold d; lia).
  assert (Hn : Z.max 0 (fexp prec emax (d + e) - e) = Z.max 0 (d - 53))
    by (unfold fexp, SpecFloat.emin, prec, emax; lia).
  pose proof (shr_tracks (Zpos m) e (fexp prec emax (d + e) - e) ltac:(lia))
    as [Htracks He'].
  destruct (shr _ e (fexp prec emax (d + e) - e)) as [mrs' e'].
  cbn [fst snd] in Htracks, He'. rewrite Hn in Htracks, He'.
  rewrite (round_tracks (Zpos m) (Z.max 0 (d - 53)) mrs' ltac:(lia) Htracks).
  set (t := Z.max 0 (d - 53)) in *.
  change (emax - prec) with 971.
  destruct (Z.le_gt_cases d 53) as [Hsmall|Hlarge].
  - assert (t = 0) as -> by (unfold t; lia). rewrite rne_0, Z.add_0_r in *. subst e'.
    assert (Hn2 : fexp prec emax (d + e) - e <= 0)
      by (unfold fexp, SpecFloat.emin, prec, emax; lia).
    cbn [Zdigits2]. fold d. unfold shr.
    destruct (fexp prec emax (d + e) - e) as [|p|p] eqn:Hshift; try lia;
      cbn [shr_m]; destruct (Z.leb_spec e 971);
      first [left; eexists _, _; split; reflexivity | right; split; [reflexivity|lia]].
  - assert (t = d - 53) as Ht by (unfold t; lia).
    pose proof (div_pow_bounds (Zpos m) d t Hd ltac:(lia)) as Hq.
    replace (d - t - 1) with 52 in Hq by lia. replace (d - t) with 53 in Hq by lia.
    destruct (rne_cases t (Zpos m)) as [Hr|Hr];
      [|destruct (Z.eq_dec (Zpos m / 2 ^ t + 1) (2 ^ 53)) as [Hcarry|Hcarry]].
    + rewrite Hr. rewrite (Zdigits2_unique _ 53) by lia.
      replace (fexp prec emax (53 + e') - e') with 0
        by (unfold fexp, SpecFloat.emin, prec, emax; lia).
      unfold shr. cbn [shr_m].
      destruct (Zpos m / 2 ^ t) as [|q|q] eqn:Hquot; try lia.
      destruct (Z.leb_spec e' 971);
        [left; eexists _, _; split; [reflexivity|now subst e']|right; split; [reflexivity|lia]].
    + rewrite Hr, Hcarry. rewrite (Zdigits2_unique _ 54) by lia.
      replace (fexp prec emax (54 + e') - e') with 1
        by (unfold fexp, SpecFloat.emin, prec, emax; lia).
      unfold shr. cbn [SpecFloat.iter_pos]. rewrite shr_1_nonneg by lia.
      cbn [shr_m]. change (2 ^ 53 / 2) with 4503599627370496.
      destruct (Z.leb_spec (e' + 1) 971); [left|right; split; [reflexivity|lia]].
      eexists _, _. split; [reflexivity|]. subst e'.
      replace (e + t + 1 + 1074) with (1 + (e + t + 1074)) by lia.
      rewrite (Z.pow_add_r 2 1 (e + t + 1074)) by lia.
      change (2 ^ 53) with 9007199254740992. change (2 ^ 1) with 2. lia.
    + rewrite Hr. rewrite (Zdigits2_unique _ 53) by lia.
      replace (fexp prec emax (53 + e') - e') with 0
        by (unfold fexp, SpecFloat.emin, prec, emax; lia).
      unfold shr. cbn [shr_m].
      destruct (Zpos m / 2 ^ t + 1) as [|q|q] eqn:Hquot; try lia.
      destruct (Z.leb_spec e' 971);
        [left; eexists _, _; split; [reflexivity|now subst e']|right; split; [reflexivity|lia]].
Qed.

Lemma binary_round_aux_exact s m e :
  -1074 <= e ->
  finite (binary_round_aux prec emax s (Zpos m) e loc_Exact) = true ->
  units (binary_round_aux prec emax s (Zpos m) e loc_Exact) =
    cond_Zopp s (rne (Z.max 0 (Zpos (digits2_pos m) - 53)) (Zpos m)
                 * 2 ^ (e + Z.max 0 (Zpos (digits2_pos m) - 53) + 1074)).
Proof.
  intros He.
  destruct (binary_round_aux_cases s m e He) as [(m' & e' & -> & Hvalue)|[-> _]];
    [|discriminate].
  intros _. cbn [units]. now rewrite Hvalue.
Qed.

Lemma binary_round_aux_finite s m e :
  -1074 <= e -> e + Z.max 0 (Zpos (digits2_pos m) - 53) < 971 ->
  finite (binary_round_aux prec emax s (Zpos m) e loc_Exact) = true.
Proof.
  intros He Htop.
  destruct (binary_round_aux_cases s m e He) as [(m' & e' & -> & _)|[_ ?]];
    [reflexivity|lia].
Qed.

(** *** Rounding to nearest *)

Lemma rne_nearest_multiple n x k :
  0 <= n -> Z.abs (rne n x * 2 ^ n - x) <= Z.abs (k * 2 ^ n - x).
Proof.
  intros Hn.
  assert (Hpow : 0 < 2 ^ n) by (apply Z.pow_pos_nonneg; lia).
  pose proof (Z.div_mod x (2 ^ n) ltac:(lia)) as Hx.
  pose proof (Z.mod_pos_bound x (2 ^ n) Hpow) as Hrem.
  unfold rne.
  set (q := x / 2 ^ n) in *. set (r := x mod 2 ^ n) in *. set (P := 2 ^ n) in *.
  destruct (Z.le_gt_cases k q) as [Hk|Hk].
  - assert (k * P <= q * P) by nia.
    repeat case_match; nia.
  - assert ((q + 1) * P <= k * P) by nia.
    repeat case_match;
      repeat match goal with
             | H : (_ <? _) = true |- _ => apply Z.ltb_lt in H
             | H : (_ <? _) = false |- _ => apply Z.ltb_ge in H
             end; nia.
Qed.

Lemma rne_scale t k m :
  0 <= t -> 0 <= k -> rne (t + k) (m * 2 ^ k) = rne t m.
Proof.
  intros Ht Hk.
  assert (Hpt : 0 < 2 ^ t) by (apply Z.pow_pos_nonneg; lia).
  assert (Hpk : 0 < 2 ^ k) by (apply Z.pow_pos_nonneg; lia).
  unfold rne. rewrite Z.pow_add_r by lia.
  rewrite Z.div_mul_cancel_r by lia.
  rewrite Z.mul_mod_distr_r by lia.
  replace (2 * (m mod 2 ^ t * 2 ^ k) <? 2 ^ t * 2 ^ k) with (2 * (m mod 2 ^ t) <? 2 ^ t).
  2:{ destruct (Z.ltb_spec (2 * (m mod 2 ^ t)) (2 ^ t));
      destruct (Z.ltb_spec (2 * (m mod 2 ^ t * 2 ^ k)) (2 ^ t * 2 ^ k)); try reflexivity; nia. }
  replace (2 ^ t * 2 ^ k <? 2 * (m mod 2 ^ t * 2 ^ k)) with (2 ^ t <? 2 * (m mod 2 ^ t)).
  2:{ destruct (Z.ltb_spec (2 ^ t) (2 * (m mod 2 ^ t)));
      destruct (Z.ltb_spec (2 ^ t * 2 ^ k) (2 * (m mod 2 ^ t * 2 ^ k))); try reflexivity; nia. }
  reflexivity.
Qed.

Lemma grid_multiple G d t :
  grid G -> 0 < t -> d = t + 53 -> 2 ^ (d - 1) <= Z.abs G ->
  exists j, G = j * 2 ^ t.
Proof.
  intros (g & k & Hk & Hg & ->) Ht -> Hbig.
  destruct (Z.le_gt_cases t k) as [Hle|Hlt].
  - exists (g * 2 ^ (k - t)). rewrite <- Z.mul_assoc, <- Z.pow_add_r by lia.
    now replace (k - t + t) with k by lia.
  - assert (Hpk : 0 < 2 ^ k) by (apply Z.pow_pos_nonneg; lia).
    assert (Hup : 2 ^ (53 + k) <= 2 ^ (t + 53 - 1)) by (apply Z.pow_le_mono_r; lia).
    rewrite Z.pow_add_r in Hup by lia.
    rewrite Z.abs_mul, (Z.abs_eq (2 ^ k)) in Hbig by lia.
    assert (Habs : Z.abs g * 2 ^ k = 2 ^ (t + 53 - 1)) by nia.
    replace (t + 53 - 1) with (52 + t) in Habs by lia.
    rewrite Z.pow_add_r in Habs by lia.
    destruct (Z.abs_eq_or_opp g) as [Hpos|Hneg].
    + exists (2 ^ 52). rewrite Hpos in Habs. exact Habs.
    + exists (- 2 ^ 52). rewrite Hneg in Habs. nia.
Qed.

(** Rounding a positive value to 53 bits gives a nearest value of the
    grid. *)
Lemma rne_nearest x d :
  2 ^ (d - 1) <= x < 2 ^ d -> 1 <= d ->
  nearest (rne (Z.max 0 (d - 53)) x * 2 ^ Z.max 0 (d - 53)) x.
Proof.
  intros Hd Hd1 G HG.
  destruct (Z.le_gt_cases d 53) as [Hsmall|Hlarge].
  - rewrite Z.max_l by lia. rewrite rne_0, Z.pow_0_r. lia.
  - rewrite Z.max_r by lia. set (t := d - 53).
    assert (Hlow : 0 < 2 ^ (d - 1)) by (apply Z.pow_pos_nonneg; lia).
    destruct (Z.le_gt_cases (2 ^ (d - 1)) (Z.abs G)) as [Hbig|Hless].
    + destruct (grid_multiple G d t HG ltac:(lia) ltac:(lia) Hbig) as [j ->].
      apply rne_nearest_multiple. lia.
    + pose proof (rne_nearest_multiple t x (2 ^ 52) ltac:(lia)) as Hnear.
      rewrite <- Z.pow_add_r in Hnear by lia.
      replace (52 + t) with (d - 1) in Hnear by lia. lia.
Qed.

Lemma nearest_opp R X : nearest R X -> nearest (- R) (- X).
Proof.
  intros Hnear G (g & k & Hk & Hg & ->).
  assert (HG : grid (- g * 2 ^ k)) by (exists (- g), k; rewrite Z.abs_opp; auto).
  specialize (Hnear _ HG). lia.
Qed.

Lemma nearest_exact X : nearest X X.
Proof. intros G _. lia. Qed.

(** *** The operations *)

Lemma valid_exponent s m e :
  valid_binary (S754_finite s m e) = true ->
  -1074 <= e <= 971 /\ Zpos (digits2_pos m) <= 53 /\
  (e = -1074 \/ Zpos (digits2_pos m) = 53).
Proof.
  cbn [SpecFloat.valid_binary]. unfold bounded, canonical_mantissa.
  rewrite andb_true_iff, Z.eqb_eq, Z.leb_le.
  unfold fexp, SpecFloat.emin, prec, emax. lia.
Qed.

Lemma iter_xO m d : Zpos (Pos.iter xO m d) = Zpos m * 2 ^ Zpos d.
Proof.
  induction d as [|d IH] using Pos.peano_ind.
  - cbn [Pos.iter]. lia.
  - rewrite Pos.iter_succ, Pos2Z.inj_succ, Z.pow_succ_r by lia.
    rewrite Pos2Z.inj_xO, IH. ring.
Qed.

Lemma shl_align_value m e e' :
  -1074 <= e -> -1074 <= e' ->
  -1074 <= (shl_align m e e').2 /\
  (shl_align m e e').2 <= e /\
  Zpos (shl_align m e e').1 * 2 ^ ((shl_align m e e').2 + 1074) = Zpos m * 2 ^ (e + 1074).
Proof.
  intros He He'. unfold shl_align.
  destruct (e' - e) as [|d|d] eqn:Hd; cbn [fst snd]; [lia|lia|].
  split; [lia|]. split; [lia|].
  rewrite iter_xO, <- Z.mul_assoc, <- Z.pow_add_r by lia.
  f_equal. f_equal. lia.
Qed.

Lemma binary_round_aux_nearest s m e :
  -1074 <= e ->
  finite (binary_round_aux prec emax s (Zpos m) e loc_Exact) = true ->
  exists R,
    units (binary_round_aux prec emax s (Zpos m) e loc_Exact) = cond_Zopp s R /\
    nearest R (Zpos m * 2 ^ (e + 1074)).
Proof.
  intros He Hfin. eexists. split; [now apply binary_round_aux_exact|].
  pose proof (digits2_bounds m) as Hd.
  set (d := Zpos (digits2_pos m)) in *.
  assert (Hd1 : 1 <= d) by (unfold d; lia).
  set (k := e + 1074).
  assert (Hpk : 0 < 2 ^ k) by (apply Z.pow_pos_nonneg; lia).
  destruct (Z.le_gt_cases d 53) as [Hsmall|Hlarge].
  - rewrite Z.max_l by lia. rewrite rne_0, Z.add_0_r. apply nearest_exact.
  - rewrite Z.max_r by lia.
    replace (e + (d - 53) + 1074) with (d + k - 53) by lia.
    rewrite <- (rne_scale (d - 53) k) by lia.
    replace (d - 53 + k) with (d + k - 53) by lia.
    rewrite <- (Z.max_r 0 (d + k - 53)) by lia.
    apply rne_nearest; [|lia].
    replace (d + k - 1) with (d - 1 + k) by lia.
    rewrite !Z.pow_add_r by lia. nia.
Qed.

Lemma binary_round_nearest s m e :
  -1074 <= e ->
  finite (binary_round prec emax s m e) = true ->
  exists R,
    units (binary_round prec emax s m e) = cond_Zopp s R /\
    nearest R (Zpos m * 2 ^ (e + 1074)).
Proof.
  intros He. unfold binary_round.
  pose proof (shl_align_value m e (fexp prec emax (Zpos (digits2_pos m) + e)) He
                ltac:(unfold fexp, SpecFloat.emin, prec, emax; lia))
    as (Hez & _ & Hvalue).
  destruct (shl_align m e _) as [mz ez]. cbn [fst snd] in *.
  rewrite <- Hvalue. now apply binary_round_aux_nearest.
Qed.

Lemma binary_normalize_nearest M e :
  -1074 <= e ->
  finite (binary_normalize prec emax M e false) = true ->
  nearest (units (binary_normalize prec emax M e false)) (M * 2 ^ (e + 1074)).
Proof.
  intros He. destruct M as [|p|p]; cbn [binary_normalize].
  - intros _. apply nearest_exact.
  - intros Hfin. destruct (binary_round_nearest false p e He Hfin) as (R & -> & Hnear).
    exact Hnear.
  - intros Hfin. destruct (binary_round_nearest true p e He Hfin) as (R & -> & Hnear).
    cbn [cond_Zopp]. change (Zneg p) with (- Zpos p).
    rewrite Z.mul_opp_l. now apply nearest_opp.
Qed.

Lemma shl_align_min m e e' :
  -1074 <= e' <= e ->
  Zpos (shl_align m e e').1 * 2 ^ (e' + 1074) = Zpos m * 2 ^ (e + 1074).
Proof.
  intros He. unfold shl_align.
  destruct (e' - e) as [|d|d] eqn:Hd; cbn [fst]; [|lia|].
  - now replace e' with e by lia.
  - rewrite iter_xO, <- Z.mul_assoc, <- Z.pow_add_r by lia.
    f_equal. f_equal. lia.
Qed.

Lemma cond_Zopp_mul s a b : cond_Zopp s a * b = cond_Zopp s (a * b).
Proof. destruct s; cbn [cond_Zopp]; lia. Qed.

(** Addition rounds the exact sum to a nearest value of the grid. *)
Lemma SFadd_nearest x y :
  valid_binary x = true -> valid_binary y = true ->
  finite (SFadd prec emax x y) = true ->
  finite x = true /\ finite y = true /\
  nearest (units (SFadd prec emax x y)) (units x + units y).
Proof.
  intros Hx Hy.
  destruct x as [sx|sx| |sx mx ex], y as [sy|sy| |sy my ey];
    try (cbn [SFadd]; try destruct sx; try destruct sy; cbn [finite units];
         first [ discriminate
               | intros _; split; [reflexivity|]; split; [reflexivity|];
                 rewrite ?Z.add_0_r, ?Z.add_0_l; apply nearest_exact ]).
  apply valid_exponent in Hx as (Hex & _), Hy as (Hey & _).
  cbn [SFadd units finite]. intros Hfin. split; [reflexivity|]. split; [reflexivity|].
  set (ez := Z.min ex ey) in *.
  pose proof (binary_normalize_nearest _ ez ltac:(lia) Hfin) as Hnear.
  rewrite Z.mul_add_distr_r, !cond_Zopp_mul in Hnear.
  rewrite !shl_align_min in Hnear by lia. exact Hnear.
Qed.

Lemma div_eucl_pair a b : Z.div_eucl a b = (a / b, a mod b).
Proof. unfold Z.div, Z.modulo. now destruct (Z.div_eucl a b). Qed.

(** The quotient that [SFdiv] rounds when the divisor is 2. *)
Lemma div_core_two_normal mx ex :
  Zpos (digits2_pos mx) = 53 -> -1072 <= ex ->
  SFdiv_core_binary prec emax (Zpos mx) ex 4503599627370496 (-51) =
    (Zpos mx~0, ex - 2, loc_Exact).
Proof.
  intros Hd Hex. unfold SFdiv_core_binary. cbn [Zdigits2]. rewrite Hd.
  change (Zpos (digits2_pos 4503599627370496)) with 53.
  replace (Z.min (fexp prec emax (53 + ex - (53 + -51))) (ex - -51)) with (ex - 2)
    by (unfold fexp, SpecFloat.emin, prec, emax; lia).
  replace (ex - -51 - (ex - 2)) with 53 by lia.
  rewrite Z.shiftl_mul_pow2 by lia. rewrite div_eucl_pair.
  change (2 ^ 53) with (2 * 4503599627370496). rewrite Z.mul_assoc.
  rewrite Z.div_mul, Z.mod_mul by lia.
  replace (Zpos mx * 2) with (Zpos mx~0) by lia. reflexivity.
Qed.

Lemma div_core_two_least_normal mx :
  Zpos (digits2_pos mx) <= 53 ->
  SFdiv_core_binary prec emax (Zpos mx) (-1073) 4503599627370496 (-51) =
    (Zpos mx, -1074, loc_Exact).
Proof.
  intros Hd. unfold SFdiv_core_binary. cbn [Zdigits2].
  replace (Z.min (fexp prec emax (Zpos (digits2_pos mx) + -1073
                                  - (Zpos (digits2_pos 4503599627370496) + -51)))
             (-1073 - -51)) with (-1074)
    by (change (Zpos (digits2_pos 4503599627370496)) with 53;
        unfold fexp, SpecFloat.emin, prec, emax; lia).
  change (-1073 - -51 - -1074) with 52.
  rewrite Z.shiftl_mul_pow2 by lia. rewrite div_eucl_pair.
  change (2 ^ 52) with 4503599627370496.
  rewrite Z.div_mul, Z.mod_mul by lia. reflexivity.
Qed.

Lemma div_core_two_subnormal mx :
  Zpos (digits2_pos mx) <= 53 ->
  SFdiv_core_binary prec emax (Zpos mx) (-1074) 4503599627370496 (-51) =
    (Zpos mx / 2, -1074,
     if Z.even (Zpos mx) then loc_Exact else loc_Inexact Eq).
Proof.
  intros Hd. unfold SFdiv_core_binary. cbn [Zdigits2].
  replace (Z.min (fexp prec emax (Zpos (digits2_pos mx) + -1074
                                  - (Zpos (digits2_pos 4503599627370496) + -51)))
             (-1074 - -51)) with (-1074)
    by (change (Zpos (digits2_pos 4503599627370496)) with 53;
        unfold fexp, SpecFloat.emin, prec, emax; lia).
  change (-1074 - -51 - -1074) with 51.
  rewrite Z.shiftl_mul_pow2 by lia. rewrite div_eucl_pair.
  change 4503599627370496 with (2 * 2 ^ 51).
  rewrite Z.div_mul_cancel_r, Z.mul_mod_distr_r by lia.
  f_equal. unfold new_location. change (Z.even (2 * 2 ^ 51)) with true.
  cbn match. unfold new_location_even.
  rewrite Zeven_mod. destruct (Z.eqb_spec (Zpos mx mod 2) 0) as [->|Hodd].
  - reflexivity.
  - assert (Zpos mx mod 2 = 1) as -> by (pose proof (Z.mod_pos_bound (Zpos mx) 2); lia).
    reflexivity.
Qed.

Lemma Zdigits2_small x : 0 <= x < 2 ^ 53 -> Zdigits2 x <= 53.
Proof.
  intros Hx. destruct x as [|p|p]; cbn [Zdigits2]; try lia.
  pose proof (digits2_bounds p) as [Hlo _].
  destruct (Z.le_gt_cases (Zpos (digits2_pos p)) 53) as [Hle|Hgt]; [exact Hle|].
  assert (2 ^ 53 <= 2 ^ (Zpos (digits2_pos p) - 1)) by (apply Z.pow_le_mono_r; lia). lia.
Qed.

(** Rounding at the least exponent: nothing is shifted out. *)
Lemma binary_round_aux_least s q l :
  0 <= q < 2 ^ 52 ->
  binary_round_aux prec emax s q (-1074) l =
    match round_nearest_even q l with
    | 0 => S754_zero s
    | Zpos m => S754_finite s m (-1074)
    | Zneg _ => S754_nan
    end.
Proof.
  intros Hq. unfold binary_round_aux, shr_fexp.
  pose proof (Zdigits2_small q ltac:(lia)) as Hd.
  assert (Hd0 : 0 <= Zdigits2 q) by (destruct q; cbn; lia).
  replace (fexp prec emax (Zdigits2 q + -1074) - -1074) with 0
    by (unfold fexp, SpecFloat.emin, prec, emax; lia).
  cbn [shr].
  assert (Hloc : loc_of_shr_record (shr_record_of_loc q l) = l)
    by (destruct l as [|[]]; reflexivity).
  assert (Hm : shr_m (shr_record_of_loc q l) = q)
    by (destruct l as [|[]]; reflexivity).
  rewrite Hloc, Hm.
  set (N := round_nearest_even q l).
  assert (HN : 0 <= N < 2 ^ 53).
  { unfold N, round_nearest_even. change (2 ^ 53) with (2 * 2 ^ 52).
    destruct l as [|[]]; try destruct (Z.even q); lia. }
  pose proof (Zdigits2_small N HN) as HdN.
  assert (HdN0 : 0 <= Zdigits2 N) by (destruct N; cbn; lia).
  cbn [shr_record_of_loc].
  replace (fexp prec emax (Zdigits2 N + -1074) - -1074) with 0
    by (unfold fexp, SpecFloat.emin, prec, emax; lia).
  cbn [shr shr_m]. destruct N; reflexivity.
Qed.

Lemma rne_1_double m : rne 1 (Zpos m~0) = Zpos m.
Proof.
  unfold rne. replace (Zpos m~0) with (Zpos m * 2) by lia. change (2 ^ 1) with 2.
  rewrite Z.mod_mul, Z.div_mul by lia. reflexivity.
Qed.

(** Halving is exact, except that a value made of an odd number of units
    goes to one of the two nearest numbers of units. *)
Lemma SFdiv_two x :
  valid_binary x = true -> finite x = true ->
  finite (SFdiv prec emax x two) = true /\
  (2 * units (SFdiv prec emax x two) = units x \/
   (Z.abs (units x) < 2 ^ 53 /\
    Z.even (units (SFdiv prec emax x two)) = true /\
    (2 * units (SFdiv prec emax x two) = units x - 1 \/
     2 * units (SFdiv prec emax x two) = units x + 1))).
Proof.
  intros Hvalid Hfin. destruct x as [sx|sx| |sx mx ex]; try discriminate.
  { cbn. split; [reflexivity|now left]. }
  apply valid_exponent in Hvalid as (Hrange & Hd & Hcanon).
  unfold two. cbn [SFdiv]. rewrite xorb_false_r.
  destruct (Z.le_gt_cases (-1072) ex) as [Hnormal|Hlow];
    [|destruct (Z.eq_dec ex (-1073)) as [->|Hleast]].
  - rewrite div_core_two_normal by lia.
    assert (Hd54 : Zpos (digits2_pos mx~0) = 54)
      by (cbn [digits2_pos]; rewrite Pos2Z.inj_succ; lia).
    destruct (binary_round_aux_cases sx (mx~0) (ex - 2) ltac:(lia))
      as [(m' & e' & -> & Hvalue)|[_ Htop]]; [|lia].
    split; [reflexivity|]. left. cbn [units].
    rewrite Hd54, Z.max_r, rne_1_double in Hvalue by lia.
    rewrite Hvalue. replace (ex + 1074) with (1 + (ex - 2 + (54 - 53) + 1074)) by lia.
    rewrite (Z.pow_add_r 2 1) by lia. change (2 ^ 1) with 2.
    destruct sx; cbn [cond_Zopp]; lia.
  - rewrite div_core_two_least_normal by lia.
    destruct (binary_round_aux_cases sx mx (-1074) ltac:(lia))
      as [(m' & e' & -> & Hvalue)|[_ Htop]]; [|lia].
    split; [reflexivity|]. left. cbn [units].
    rewrite Z.max_l, rne_0 in Hvalue by lia.
    rewrite Hvalue. change (2 ^ (-1074 + 0 + 1074)) with 1. change (2 ^ (-1073 + 1074)) with 2.
    destruct sx; cbn [cond_Zopp]; lia.
  - assert (ex = -1074) as -> by lia.
    rewrite div_core_two_subnormal by lia.
    pose proof (digits2_bounds mx) as [_ Hhi].
    assert (Hmx : Zpos mx < 2 ^ 53).
    { eapply Z.lt_le_trans; [exact Hhi|]. apply Z.pow_le_mono_r; lia. }
    change (2 ^ 53) with (2 * 2 ^ 52) in Hmx.
    pose proof (Z.div_mod (Zpos mx) 2 ltac:(lia)) as Hdiv.
    pose proof (Z.mod_pos_bound (Zpos mx) 2 ltac:(lia)) as Hrem.
    rewrite binary_round_aux_least by lia.
    cbn [units]. change (2 ^ (-1074 + 1074)) with 1. rewrite Z.mul_1_r.
    rewrite Zeven_mod. destruct (Z.eqb_spec (Zpos mx mod 2) 0) as [Heven|Hodd].
    + cbn [round_nearest_even].
      destruct (Zpos mx / 2) as [|q|q] eqn:Hq; try lia.
      split; [reflexivity|]. left. cbn [units].
      change (2 ^ (-1074 + 1074)) with 1. destruct sx; cbn [cond_Zopp]; lia.
    + cbn [round_nearest_even].
      assert (Hbound : Z.abs (cond_Zopp sx (Zpos mx)) < 2 * 2 ^ 52)
        by (destruct sx; cbn [cond_Zopp]; lia).
      assert (Heven : forall N, Z.even N = true ->
                Z.even (cond_Zopp sx (N * 1)) = true).
      { intros N HN. rewrite Z.mul_1_r. destruct sx; cbn [cond_Zopp];
          [now rewrite Z.even_opp|exact HN]. }
      destruct (Z.even (Zpos mx / 2)) eqn:Hq.
      * destruct (Zpos mx / 2) as [|n|n] eqn:HN; try lia;
          (split; [reflexivity|]; right; split; [exact Hbound|]; cbn [units];
           change (2 ^ (-1074 + 1074)) with 1; split;
           [first [reflexivity | now apply Heven]
           |destruct sx; cbn [cond_Zopp]; lia]).
      * assert (Hnext : Z.even (Zpos mx / 2 + 1) = true).
        { rewrite Z.even_add, Hq. reflexivity. }
        destruct (Zpos mx / 2 + 1) as [|n|n] eqn:HN; try lia;
          (split; [reflexivity|]; right; split; [exact Hbound|]; cbn [units];
           change (2 ^ (-1074 + 1074)) with 1; split;
           [first [reflexivity | now apply Heven]
           |destruct sx; cbn [cond_Zopp]; lia]).
Qed.

(** *** The order *)

Lemma magnitude_pos m e : -1074 <= e -> 0 < Zpos m * 2 ^ (e + 1074).
Proof. intros He. pose proof (Z.pow_pos_nonneg 2 (e + 1074)). lia. Qed.

(** Of two valid numbers the one with the smaller exponent is smaller in
    magnitude. *)
Lemma magnitude_lt s1 m1 e1 s2 m2 e2 :
  valid_binary (S754_finite s1 m1 e1) = true ->
  valid_binary (S754_finite s2 m2 e2) = true ->
  e1 < e2 ->
  Zpos m1 * 2 ^ (e1 + 1074) < Zpos m2 * 2 ^ (e2 + 1074).
Proof.
  intros (Hr1 & Hd1 & _)%valid_exponent (Hr2 & _ & Hc2)%valid_exponent Hlt.
  assert (Hd2 : Zpos (digits2_pos m2) = 53) by lia.
  pose proof (digits2_bounds m1) as [_ Hhi]. pose proof (digits2_bounds m2) as [Hlo _].
  rewrite Hd2 in Hlo. change (2 ^ (53 - 1)) with (2 ^ 52) in Hlo.
  assert (Hm1 : Zpos m1 < 2 ^ 53).
  { eapply Z.lt_le_trans; [exact Hhi|]. apply Z.pow_le_mono_r; lia. }
  assert (Hp1 : 0 < 2 ^ (e1 + 1074)) by (apply Z.pow_pos_nonneg; lia).
  assert (Hstep : 2 * 2 ^ (e1 + 1074) <= 2 ^ (e2 + 1074)).
  { rewrite <- Z.pow_succ_r by lia. apply Z.pow_le_mono_r; lia. }
  change (2 ^ 53) with (2 * 2 ^ 52) in Hm1. nia.
Qed.

Lemma SFltb_units x y :
  valid_binary x = true -> valid_binary y = true ->
  finite x = true -> finite y = true ->
  SFltb x y = true <-> units x < units y.
Proof.
  intros Hx Hy Hfx Hfy.
  destruct x as [sx|sx| |sx mx ex], y as [sy|sy| |sy my ey]; try discriminate;
    unfold SFltb; cbn [SFcompare units].
  - split; [discriminate|lia].
  - pose proof (magnitude_pos my ey ltac:(apply valid_exponent in Hy; lia)).
    destruct sy; cbn [cond_Zopp]; split; try discriminate; try reflexivity; lia.
  - pose proof (magnitude_pos mx ex ltac:(apply valid_exponent in Hx; lia)).
    destruct sx; cbn [cond_Zopp]; split; try discriminate; try reflexivity; lia.
  - pose proof (magnitude_pos mx ex ltac:(apply valid_exponent in Hx; lia)) as Hpx.
    pose proof (magnitude_pos my ey ltac:(apply valid_exponent in Hy; lia)) as Hpy.
    assert (Hsame : ex = ey ->
              (Zpos mx * 2 ^ (ex + 1074) < Zpos my * 2 ^ (ey + 1074)
               <-> (mx < my)%positive) /\
              (Zpos my * 2 ^ (ey + 1074) < Zpos mx * 2 ^ (ex + 1074)
               <-> (my < mx)%positive)).
    { intros ->. assert (0 < 2 ^ (ey + 1074)) by (apply Z.pow_pos_nonneg;
        apply valid_exponent in Hy; lia).
      rewrite <- !Z.mul_lt_mono_pos_r by assumption. split; reflexivity. }
    pose proof (magnitude_lt sx mx ex sy my ey Hx Hy) as Hlt.
    pose proof (magnitude_lt sy my ey sx mx ex Hy Hx) as Hgt.
    change (Pos.compare_cont Eq mx my) with (Pos.compare mx my).
    destruct sx, sy; cbn [cond_Zopp];
      destruct (Z.compare_spec ex ey) as [Heq|Hl|Hg];
      try (split; [discriminate|lia]); try (split; [reflexivity|lia]);
      try (destruct (Hsame Heq) as [Hup Hdown]);
      destruct (Pos.compare_spec mx my) as [Hm|Hm|Hm]; cbn [CompOpp];
      try (split; [discriminate|]); try (split; [reflexivity|]);
      try subst; try lia; try (intros _; lia).
Qed.

(** *** The mean of two numbers *)

Lemma grid_small x : Z.abs x <= 2 ^ 53 -> grid x.
Proof. intros Hx. exists x, 0. rewrite Z.pow_0_r. repeat split; [lia|exact Hx|lia]. Qed.

Lemma grid_double c :
  valid_binary c = true -> grid (2 * units c).
Proof.
  intros Hc. destruct c as [sc|sc| |sc mc ec]; try (apply grid_small; cbn; lia).
  apply valid_exponent in Hc as (Hrange & Hd & _).
  pose proof (digits2_bounds mc) as [_ Hhi].
  assert (Hm : Zpos mc < 2 ^ 53).
  { eapply Z.lt_le_trans; [exact Hhi|]. apply Z.pow_le_mono_r; lia. }
  exists (cond_Zopp sc (Zpos mc)), (ec + 1074 + 1).
  split; [lia|]. split; [destruct sc; cbn [cond_Zopp]; lia|].
  cbn [units]. rewrite (Z.pow_add_r 2 (ec + 1074) 1), Z.pow_1_r by lia.
  destruct sc; cbn [cond_Zopp]; lia.
Qed.

(** On whole numbers of units: when some value lies strictly between [A]
    and [B], a nearest value [r] of their sum lies strictly between their
    doubles, and its half, rounded when [r] is odd, lies strictly between
    [A] and [B]. *)
Lemma mean_between_units A B C r h :
  A < C < B ->
  grid (2 * C) ->
  nearest r (A + B) ->
  (2 * h = r \/
   (Z.abs r < 2 ^ 53 /\ Z.even h = true /\ (2 * h = r - 1 \/ 2 * h = r + 1))) ->
  A < h < B.
Proof.
  intros HC HG Hnear Hhalf.
  pose proof (Hnear _ HG) as Hmid.
  assert (Hr : 2 * A < r < 2 * B) by lia.
  destruct Hhalf as [Heven|(Hsmall & _ & Hodd)]; [lia|].
  pose proof (Hnear (r + 1) (grid_small (r + 1) ltac:(lia))) as Hup.
  pose proof (Hnear (r - 1) (grid_small (r - 1) ltac:(lia))) as Hdown.
  lia.
Qed.

Lemma SFcompare_refl x : x <> S754_nan -> SFcompare x x = Some Eq.
Proof.
  destruct x as [s|s| |s m e]; try congruence; intros _; cbn [SFcompare].
  - reflexivity.
  - now destruct s.
  - rewrite Z.compare_refl.
    change (Pos.compare_cont Eq m m) with (Pos.compare m m).
    rewrite Pos.compare_refl. now destruct s.
Qed.

Lemma is_finite_spec f : is_finite f = true <-> finite (Prim2SF f) = true.
Proof.
  unfold is_finite, is_nan, is_infinity.
  rewrite !FloatAxioms.eqb_spec, FloatAxioms.abs_spec.
  change (Prim2SF infinity) with (S754_infinity false).
  unfold SFeqb.
  destruct (Prim2SF f) as [s|s| |s m e] eqn:Hf.
  - cbn. split; reflexivity.
  - cbn. destruct s; split; discriminate.
  - cbn. split; discriminate.
  - rewrite SFcompare_refl by discriminate. cbn. split; reflexivity.
Qed.

(** A number strictly between two finite numbers is finite. *)
Lemma SFltb_between_finite x c y :
  finite x = true -> finite y = true ->
  SFltb x c = true -> SFltb c y = true -> finite c = true.
Proof.
  unfold SFltb.
  destruct x as [sx|sx| |sx mx ex], y as [sy|sy| |sy my ey], c as [sc|sc| |sc mc ec];
    try discriminate; try reflexivity; cbn [SFcompare];
    destruct sc; discriminate.
Qed.

(** The mean as binary64 computes it, (x + y) / 2 with a rounding after
    the sum and one after the quotient: when the sum does not overflow and
    a binary64 value lies strictly between [x] and [y], the mean lies
    strictly between them too. *)
Theorem mean_strictly_between (x y c : float) :
  (x <? c)%float = true -> (c <? y)%float = true ->
  is_finite (x + y) = true ->
  (x <? (x + y) / 2)%float = true /\ ((x + y) / 2 <? y)%float = true.
Proof.
  rewrite !FloatAxioms.ltb_spec, is_finite_spec, FloatAxioms.div_spec, FloatAxioms.add_spec.
  change (Prim2SF 2) with two. unfold SF64div, SF64add.
  intros Hxc Hcy Hsum.
  pose proof (Prim2SF_valid x) as Vx. pose proof (Prim2SF_valid y) as Vy.
  pose proof (Prim2SF_valid c) as Vc.
  pose proof (Prim2SF_valid (x + y)) as Vsum. rewrite FloatAxioms.add_spec in Vsum.
  pose proof (Prim2SF_valid ((x + y) / 2)) as Vmean.
  rewrite FloatAxioms.div_spec, FloatAxioms.add_spec in Vmean. change (Prim2SF 2) with two in Vmean.
  unfold SF64div, SF64add in Vsum, Vmean.
  destruct (SFadd_nearest _ _ Vx Vy Hsum) as (Fx & Fy & Hnear).
  pose proof (SFltb_between_finite _ _ _ Fx Fy Hxc Hcy) as Fc.
  apply SFltb_units in Hxc, Hcy; try assumption.
  destruct (SFdiv_two _ Vsum Hsum) as (Fmean & Hhalf).
  pose proof (mean_between_units _ _ _ _ _ (conj Hxc Hcy) (grid_double _ Vc) Hnear Hhalf)
    as [Hlo Hhi].
  split; apply SFltb_units; assumption.
Qed.

(** Half of a finite number, as binary64 computes it, is less than the
    number exactly when the number is positive. *)
Theorem half_below (a : float) :
  is_finite a = true -> (a / 2 <? a)%float = (0 <? a)%float.
Proof.
  rewrite is_finite_spec. intros Fa.
  pose proof (Prim2SF_valid a) as Va.
  pose proof (Prim2SF_valid (a / 2)) as Vh.
  rewrite !FloatAxioms.ltb_spec, FloatAxioms.div_spec in *.
  change (Prim2SF 2) with two in *. change (Prim2SF 0) with (S754_zero false).
  unfold SF64div in *.
  destruct (SFdiv_two _ Va Fa) as (Fh & Hhalf).
  apply eq_true_iff_eq.
  rewrite (SFltb_units _ _ Vh Va Fh Fa).
  rewrite (SFltb_units (S754_zero false) _ eq_refl Va eq_refl Fa).
  change (units (S754_zero false)) with 0.
  destruct Hhalf as [Hexact|(Hsmall & Heven & Hodd)]; [lia|].
  apply Z.even_spec in Heven as [k Hk]. lia.
Qed.

End Binary64Facts.

(** ** The position allocator *)

Section PositionFacts.
Import Position.

(** The unit tests of tests/unit/lib/position.test.ts, on binary64. *)
Example position_test_between :
  calculateNewPosition (Some 1%float) (Some 3%float) = 2%float.
Proof. reflexivity. Qed.

Example position_test_before_first :
  num_ltb (calculateNewPosition None (Some 5%float)) 5%float = true.
Proof. reflexivity. Qed.

Example position_test_after_last :
  num_ltb 10%float (calculateNewPosition (Some 10%float) None) = true.
Proof. reflexivity. Qed.

(** C3, as stated, has no instance: no pair of adjacent binary64 keys
    makes the allocation end with the signal PrecisionExhausted. *)
Lemma C3_no_precision_signal :
  ~ exists before after : float,
      adjacent before after = true /\
      allocate (Some before) (Some after) = PrecisionExhausted.
Proof.
  intros (before & after & _ & Hsignal). unfold allocate in Hsignal. discriminate.
Qed.

(** C3 (amended): the allocation never fails.  For every pair of optional
    neighbours it completes with a key; for the adjacent keys 1 and
    1 + 2^-52 the key it returns is 1, the [before] neighbour itself. *)
Theorem C3_allocate_always_returns_key :
  (forall before after : option float,
      exists key, allocate before after = Allocated key) /\
  adjacent 1%float one_next = true /\
  allocate (Some 1%float) (Some one_next) = Allocated 1%float.
Proof.
  split; [|split].
  - intros before after. exists (calculateNewPosition before after). reflexivity.
  - reflexivity.
  - reflexivity.
Qed.

(** C4, as stated, fails on binary64.  1 < 1 + 2^-52, yet the mean the
    allocator returns for these two neighbours is not strictly between
    them (it is 1): no binary64 value is.  And for the neighbours 2^1023
    and 1.5 * 2^1023, which have 1.25 * 2^1023 between them, the sum
    overflows and the result is infinity. *)
Lemma C4_mean_not_strictly_between :
  num_ltb 1%float one_next = true /\
  calculateNewPosition (Some 1%float) (Some one_next) = 1%float /\
  strictly_between 1%float (calculateNewPosition (Some 1%float) (Some one_next)) one_next
    = false /\
  num_ltb 0x1p+1023%float 0x1.4p+1023%float = true /\
  num_ltb 0x1.4p+1023%float 0x1.8p+1023%float = true /\
  calculateNewPosition (Some 0x1p+1023%float) (Some 0x1.8p+1023%float) = infinity /\
  strictly_between 0x1p+1023%float
    (calculateNewPosition (Some 0x1p+1023%float) (Some 0x1.8p+1023%float))
    0x1.8p+1023%float = false.
Proof. repeat split; reflexivity. Qed.

(** The allocation between two neighbours is the binary64 expression
    (before + after) / 2. *)
Lemma calculateNewPosition_between (before after : float) :
  calculateNewPosition (Some before) (Some after)
  = PrimFloat.div (PrimFloat.add before after) 2%float.
Proof. reflexivity. Qed.

(** C4 (amended): with both neighbours present the allocation returns
    (before + after) / 2 as binary64 computes it, the sum rounded and then
    the quotient.  Whenever the sum does not overflow, this result lies
    strictly between the neighbours exactly when some binary64 value does
    (the adjacent values 1 and 1 + 2^-52 have none).  For the keys 1.0 of A
    and 2.0 of B the result is 1.5: with it as the key of C, the keys of A,
    C and B ascend in this order. *)
Theorem C4_mean_between :
  (forall before after : float,
      calculateNewPosition (Some before) (Some after)
      = PrimFloat.div (PrimFloat.add before after) 2%float) /\
  (forall before after : float,
      PrimFloat.is_finite (PrimFloat.add before after) = true ->
      (strictly_between before (calculateNewPosition (Some before) (Some after)) after
       = true
       <-> exists between : float,
             PrimFloat.ltb before between = true /\
             PrimFloat.ltb between after = true)) /\
  calculateNewPosition (Some 1%float) (Some 2%float) = 1.5%float /\
  StronglySorted (fun a b : string * float => PrimFloat.ltb a.2 b.2 = true)
    [ ("A", 1%float);
      ("C", calculateNewPosition (Some 1%float) (Some 2%float));
      ("B", 2%float) ]%string.
Proof.
  split; [exact calculateNewPosition_between|]. split; [|split].
  - intros before after Hsum. rewrite calculateNewPosition_between.
    unfold strictly_between. cbn [num_ltb float_number].
    rewrite andb_true_iff. split.
    + intros [Hlo Hhi]. eexists. split; [exact Hlo|exact Hhi].
    + intros (between & Hlo & Hhi).
      exact (mean_strictly_between before after between Hlo Hhi Hsum).
  - reflexivity.
  - repeat constructor.
Qed.

(** C between A at 1.0 and B at 2.0: 1.5 lies between the two keys, so
    the mean does. *)
Lemma C4_mean_between_witness :
  strictly_between 1%float (calculateNewPosition (Some 1%float) (Some 2%float)) 2%float
  = true.
Proof.
  apply (proj2 (proj1 (proj2 C4_mean_between) 1%float 2%float eq_refl)).
  exists 1.5%float. split; reflexivity.
Defined.

(** C5: with both neighbours absent the allocation returns 1000.  With
    only [after] present it returns after / 2, and with only [before]
    present before + 1000, both as binary64 computes them.  The comment of
    the function says that after / 2 places the item before the first
    item.  It does not for the key 0, the position of the first card of a
    list: the result is 0 again.  On binary64, for every finite [after],
    the result is strictly less than [after] exactly when [after] is
    positive.  The tail insert before + 1000 is lost in rounding for a key
    as large as 1e19. *)
Theorem C5_head_insert_at_zero :
  calculateNewPosition (N := float) None None = 1000%float /\
  (forall after : float,
      calculateNewPosition None (Some after) = PrimFloat.div after 2%float) /\
  (forall before : float,
      calculateNewPosition (Some before) None = PrimFloat.add before 1000%float) /\
  calculateNewPosition None (Some 0%float) = 0%float /\
  num_ltb (calculateNewPosition None (Some 0%float)) 0%float = false /\
  (forall after : float,
      PrimFloat.is_finite after = true ->
      num_ltb (calculateNewPosition None (Some after)) after
      = PrimFloat.ltb 0%float after) /\
  calculateNewPosition (Some 1e19%float) None = 1e19%float /\
  num_ltb 1e19%float (calculateNewPosition (Some 1e19%float) None) = false.
Proof.
  split; [reflexivity|]. split; [reflexivity|]. split; [reflexivity|].
  split; [reflexivity|]. split; [reflexivity|].
  split; [|split; reflexivity].
  intros after Hfinite. exact (half_below after Hfinite).
Qed.

(** A negative key: the head insert for -4 returns -2, which is not before
    -4. *)
Lemma C5_head_insert_at_zero_witness :
  num_ltb (calculateNewPosition None (Some (-4)%float)) (-4)%float = false.
Proof.
  exact (proj1 (proj2 (proj2 (proj2 (proj2 (proj2 C5_head_insert_at_zero)))))
           (-4)%float eq_refl).
Defined.

End PositionFacts.

(** ** The card routes *)

Section StoreFacts.
Import Server.
Local Open Scope Z_scope.

Lemma shifted_listId now src p dest q c :
  listId (shifted now src p dest q c) = listId c.
Proof.
  unfold shifted.
  repeat (case_decide || case_match); reflexivity.
Qed.

(** The moved card is not among the rows its own move shifts. *)
Lemma shifted_self now dest q c :
  shifted now (listId c) (position c) dest q c = c.
Proof.
  unfold shifted.
  repeat (case_decide || case_match); try reflexivity;
    repeat match goal with
           | H : _ && _ = true |- _ => apply andb_true_iff in H; destruct H
           | H : bool_decide _ = true |- _ => apply bool_decide_eq_true in H
           end; simpl in *; try lia; congruence.
Qed.

Lemma shifted_position now src p dest q c :
  position (shifted now src p dest q c) =
    if decide (src = dest) then
      if decide (listId c = src) then
        if decide (p < position c <= q) then position c - 1
        else if decide (q <= position c < p) then position c + 1
        else position c
      else position c
    else if decide (listId c = src) then
      if decide (p < position c) then position c - 1 else position c
    else if decide (listId c = dest) then
      if decide (q <= position c) then position c + 1 else position c
    else position c.
Proof.
  unfold shifted.
  repeat first
    [ case_decide | case_bool_decide
    | match goal with
      | |- context [?a <? ?b] => destruct (Z.ltb_spec a b)
      | |- context [?a <=? ?b] => destruct (Z.leb_spec a b)
      end ];
    cbn in *; try reflexivity; try lia; congruence.
Qed.

Lemma committed_move_lookup uid id c dest q now db j :
  cards (committed_move uid id c dest q now db) !! j =
    if decide (id = j) then Some (moved now dest q c)
    else shifted now (listId c) (position c) dest q <$> cards db !! j.
Proof.
  unfold committed_move. cbn [cards with_activity with_cards].
  rewrite lookup_insert. case_decide; [reflexivity|].
  now rewrite lookup_fmap.
Qed.

(** A committed move keeps the positions of every list distinct, wherever
    the card is put. *)
Lemma committed_move_order uid id c dest q now db :
  cards db !! id = Some c ->
  order_invariant db ->
  order_invariant (committed_move uid id c dest q now db).
Proof.
  intros Hc Hinv i ci Hi' j cj. revert Hi'.
  rewrite !committed_move_lookup.
  destruct (decide (id = i)) as [<-|Hi]; destruct (decide (id = j)) as [<-|Hj];
    [reflexivity| | |].
  - intros [= <-]. destruct (cards db !! j) as [cj0|] eqn:Hj0; [|discriminate].
    intros [= <-]. rewrite shifted_listId, shifted_position.
    cbn [moved listId position set_updatedAt set_position set_listId].
    pose proof (Hinv _ _ Hc _ _ Hj0) as Hsame.
    intros Hl.
    repeat case_decide; intros Hp; try lia; try congruence;
      try (apply Hsame; [congruence|lia]).
  - destruct (cards db !! i) as [ci0|] eqn:Hi0; [|discriminate].
    intros [= <-] [= <-]. rewrite shifted_listId, shifted_position.
    cbn [moved listId position set_updatedAt set_position set_listId].
    pose proof (Hinv _ _ Hi0 _ _ Hc) as Hsame.
    intros Hl.
    repeat case_decide; intros Hp; try lia; try congruence;
      try (apply Hsame; [congruence|lia]).
  - destruct (cards db !! i) as [ci0|] eqn:Hi0; [|discriminate].
    destruct (cards db !! j) as [cj0|] eqn:Hj0; [|discriminate].
    intros [= <-] [= <-]. rewrite !shifted_listId, !shifted_position.
    pose proof (Hinv _ _ Hi0 _ _ Hj0) as Hij.
    pose proof (Hinv _ _ Hi0 _ _ Hc) as Hic.
    pose proof (Hinv _ _ Hj0 _ _ Hc) as Hjc.
    intros Hl.
    repeat case_decide; intros Hp; try congruence;
      first [ apply Hij; [congruence|lia]
            | exfalso; apply Hi; symmetry; apply Hic; [congruence|lia]
            | exfalso; apply Hj; symmetry; apply Hjc; [congruence|lia] ].
Qed.

Lemma siblings_count_eq l db :
  siblings_count l db = Z.of_nat (size (filter (in_list l) (cards db))).
Proof. reflexivity. Qed.

Lemma count_fmap (f : Card -> Card) (m : gmap string Card) l :
  (forall c, listId (f c) = listId c) ->
  size (filter (in_list l) (f <$> m)) = size (filter (in_list l) m).
Proof.
  intros Hf. rewrite map_filter_fmap, map_size_fmap. f_equal.
  apply map_filter_ext. intros i c _. unfold in_list. cbn. now rewrite Hf.
Qed.

Lemma count_insert_None (m : gmap string Card) id c l :
  m !! id = None ->
  Z.of_nat (size (filter (in_list l) (<[id := c]> m))) =
    Z.of_nat (size (filter (in_list l) m)) + one_if (listId c = l).
Proof.
  intros Hid. unfold one_if.
  destruct (decide (listId c = l)) as [Hl|Hl].
  - rewrite map_filter_insert_True by (unfold in_list; cbn; now apply bool_decide_pack).
    rewrite map_size_insert_None; [lia|].
    rewrite map_lookup_filter, Hid. reflexivity.
  - rewrite map_filter_insert_not'.
    + lia.
    + unfold in_list; cbn. intros H%bool_decide_unpack. contradiction.
    + intros y. rewrite Hid. discriminate.
Qed.

Lemma count_insert_Some (m : gmap string Card) id c0 c l :
  m !! id = Some c0 ->
  Z.of_nat (size (filter (in_list l) (<[id := c]> m))) =
    Z.of_nat (size (filter (in_list l) m)) - one_if (listId c0 = l) + one_if (listId c = l).
Proof.
  intros Hid.
  rewrite <- (insert_delete_eq m id c).
  rewrite count_insert_None by apply lookup_delete_eq.
  rewrite <- (insert_delete_id m id c0 Hid) at 2.
  rewrite count_insert_None by apply lookup_delete_eq.
  lia.
Qed.

Lemma committed_move_count uid id c dest q now db l :
  cards db !! id = Some c ->
  siblings_count l (committed_move uid id c dest q now db) =
    siblings_count l db - one_if (listId c = l) + one_if (dest = l).
Proof.
  intros Hc. rewrite !siblings_count_eq.
  unfold committed_move. cbn [cards with_activity with_cards].
  erewrite count_insert_Some by (rewrite lookup_fmap, Hc; reflexivity).
  rewrite count_fmap by (intros; apply shifted_listId).
  rewrite !shifted_listId. reflexivity.
Qed.

Lemma committed_move_dense uid id c dest q now db :
  cards db !! id = Some c ->
  move_in_range c dest q db ->
  dense db ->
  dense (committed_move uid id c dest q now db).
Proof.
  intros Hc Hrange [Hinv Hb]. split; [now apply committed_move_order|].
  intros j cj. rewrite committed_move_lookup.
  pose proof (Hb _ _ Hc) as Hbc.
  unfold move_in_range in Hrange.
  destruct (decide (id = j)) as [<-|Hj].
  - intros [= <-]. cbn [moved listId position set_updatedAt set_position set_listId].
    rewrite committed_move_count by exact Hc. unfold one_if.
    repeat case_decide; try congruence; lia.
  - destruct (cards db !! j) as [cj0|] eqn:Hj0; [|discriminate].
    intros [= <-]. rewrite shifted_listId, shifted_position.
    rewrite committed_move_count by exact Hc. unfold one_if.
    pose proof (Hb _ _ Hj0) as Hbj.
    pose proof (Hinv _ _ Hc _ _ Hj0) as Hsame.
    repeat case_decide; subst; try congruence; try lia;
      try (destruct (decide (position cj0 = position c));
           [exfalso; apply Hj, Hsame; congruence | rewrite ?H0 in *; lia]).
Qed.

(** The invariants read the card table only. *)
Lemma dense_cards db1 db2 : cards db1 = cards db2 -> dense db1 -> dense db2.
Proof.
  unfold dense, order_invariant, siblings_count, card_count. now intros ->.
Qed.

(** A card created at the tail ([position] omitted) of a dense store. *)
Lemma created_dense body newId now db db' :
  new_position body = None ->
  cards db !! newId = None ->
  cards db' = <[newId := created body (created_position body db) now]> (cards db) ->
  dense db ->
  dense db'.
Proof.
  intros Hpos Hfresh Hcards [Hinv Hb].
  assert (Hcount : forall l, siblings_count l db' =
                      siblings_count l db + one_if (new_listId body = l)).
  { intros l. rewrite !siblings_count_eq, Hcards.
    now rewrite count_insert_None by exact Hfresh. }
  assert (Hnew : created_position body db = siblings_count (new_listId body) db).
  { unfold created_position. now rewrite Hpos. }
  split.
  - intros i ci Hi j cj Hj. revert Hi Hj. rewrite Hcards, !lookup_insert.
    destruct (decide (newId = i)) as [<-|Hi]; destruct (decide (newId = j)) as [<-|Hj];
      [reflexivity| | |].
    + intros [= <-] Hj0. cbn [created listId position]. rewrite Hnew.
      intros Hl Hp. pose proof (Hb _ _ Hj0) as Hbj. rewrite <- Hl in Hbj. lia.
    + intros Hi0 [= <-]. cbn [created listId position]. rewrite Hnew.
      intros Hl Hp. pose proof (Hb _ _ Hi0) as Hbi. rewrite Hl in Hbi. lia.
    + intros Hi0 Hj0. exact (Hinv _ _ Hi0 _ _ Hj0).
  - intros i c. rewrite Hcards, lookup_insert, Hcount. unfold one_if.
    destruct (decide (newId = i)) as [<-|Hi].
    + intros [= <-]. cbn [created listId position]. rewrite Hnew.
      rewrite decide_True by reflexivity.
      unfold siblings_count, card_count. lia.
    + intros Hi0. pose proof (Hb _ _ Hi0). case_decide; lia.
Qed.

#[export] Instance position_asc_total : Total position_asc.
Proof. intros a b. unfold position_asc. lia. Qed.

#[export] Instance position_asc_trans : Transitive position_asc.
Proof. intros a b c. unfold position_asc. lia. Qed.

Lemma findMany_elem l db kv :
  kv ∈ card_findMany_byList l db <-> cards db !! kv.1 = Some kv.2 /\ listId kv.2 = l.
Proof.
  unfold card_findMany_byList. rewrite merge_sort_Permutation.
  rewrite list_elem_of_filter, elem_of_map_to_list'. tauto.
Qed.

Lemma findMany_NoDup l db : NoDup (card_findMany_byList l db).
Proof.
  unfold card_findMany_byList. rewrite merge_sort_Permutation.
  apply NoDup_filter, NoDup_map_to_list.
Qed.

Lemma strictly_sorted_of_distinct (rows : list (string * Card)) :
  NoDup rows ->
  (forall a b, a ∈ rows -> b ∈ rows -> position a.2 = position b.2 -> a = b) ->
  StronglySorted position_asc rows ->
  StronglySorted position_lt rows.
Proof.
  intros Hnodup Hdistinct Hsorted.
  induction Hsorted as [|a rows Hrows IH Hall]; [constructor|].
  apply NoDup_cons in Hnodup as [Hnotin Hnodup].
  constructor.
  - apply IH; [exact Hnodup|].
    intros x y Hx Hy. apply Hdistinct; now right.
  - rewrite Forall_forall in Hall |- *. intros b Hb.
    pose proof (Hall b Hb) as Hle. unfold position_asc in Hle. unfold position_lt.
    destruct (decide (position a.2 = position b.2)) as [Heq|Hne]; [|lia].
    exfalso. apply Hnotin.
    rewrite (Hdistinct a b); [exact Hb|now left|now right|exact Heq].
Qed.

(** Under the order invariant, the cards of every list, read in ascending
    position as [GET /api/cards?listId] returns them, are strictly
    increasing in position. *)
Lemma order_invariant_sorted db l :
  order_invariant db -> StronglySorted position_lt (card_findMany_byList l db).
Proof.
  intros Hinv. apply strictly_sorted_of_distinct.
  - apply findMany_NoDup.
  - intros [i ci] [j cj] [Hi Hli]%findMany_elem [Hj Hlj]%findMany_elem Hp.
    cbn in *. assert (i = j) as -> by (eapply Hinv; eauto; congruence).
    congruence.
  - apply StronglySorted_merge_sort; apply _.
Qed.

(** Conversely, a shared position shows up as a pair that is not strictly
    ordered. *)
Lemma sorted_order_invariant db :
  (forall l, StronglySorted position_lt (card_findMany_byList l db)) ->
  order_invariant db.
Proof.
  intros Hsorted i ci Hi j cj Hj Hl Hp.
  destruct (decide (i = j)) as [|Hne]; [assumption|exfalso].
  specialize (Hsorted (listId ci)).
  assert (Hin_i : (i, ci) ∈ card_findMany_byList (listId ci) db)
    by now apply findMany_elem.
  assert (Hin_j : (j, cj) ∈ card_findMany_byList (listId ci) db)
    by (apply findMany_elem; split; [assumption|now symmetry]).
  induction Hsorted as [|a rows Hrows IH Hall]; [now apply elem_of_nil in Hin_i|].
  rewrite Forall_forall in Hall.
  apply elem_of_cons in Hin_i as [Hai|Hin_i]; apply elem_of_cons in Hin_j as [Haj|Hin_j].
  - congruence.
  - specialize (Hall _ Hin_j). subst a. unfold position_lt in Hall. cbn in Hall. lia.
  - specialize (Hall _ Hin_i). subst a. unfold position_lt in Hall. cbn in Hall. lia.
  - now apply IH.
Qed.

(** Across lists, a row that keeps its position is not written at all. *)
Lemma shifted_cross_unchanged now src p dest q c :
  src <> dest ->
  position (shifted now src p dest q c) = position c ->
  shifted now src p dest q c = c.
Proof.
  intros Hcross. unfold shifted. rewrite decide_False by exact Hcross.
  destruct (bool_decide (listId c = src) && (p <? position c)) eqn:H1.
  - apply andb_true_iff in H1 as [Hsrc%bool_decide_eq_true _].
    cbn [listId position set_updatedAt decrement set_position].
    rewrite (bool_decide_eq_false_2 (listId c = dest)) by congruence.
    cbn. lia.
  - destruct (bool_decide (listId c = dest) && (q <=? position c)); [|reflexivity].
    cbn. lia.
Qed.

End StoreFacts.

Section ServerFacts.
Import Server.
Local Open Scope Z_scope.

Context (faults : nat -> bool).
Context (cuid datetime url : string -> bool).

Local Abbreviation commit := (Server.commit faults cuid datetime url).

(** *** The combinators *)

Lemma tx_bind_outcome {A B} (m : Tx A) (k : A -> Tx B) db :
  (tx_bind m k db).2 =
    match (m db).2 with
    | inl e => inl e
    | inr (a, db') => (k a db').2
    end.
Proof.
  unfold tx_bind. destruct (m db) as [w [e|[a db']]]; [reflexivity|].
  cbn [snd]. now destruct (k a db').
Qed.

Lemma tx_bind_written {A B} (m : Tx A) (k : A -> Tx B) db :
  (tx_bind m k db).1 =
    (m db).1 ++ match (m db).2 with
                | inl e => []
                | inr (a, db') => (k a db').1
                end.
Proof.
  unfold tx_bind. destruct (m db) as [w [e|[a db']]]; cbn [fst snd].
  - now rewrite app_nil_r.
  - now destruct (k a db').
Qed.

Lemma stmt_outcome {A} k (op : Query A) db :
  (stmt faults k op db).2 = call faults k op db.
Proof using Type. unfold stmt. now destruct (call faults k op db) as [e|[a db']]. Qed.

Lemma stmt_written {A} k (op : Query A) db :
  (stmt faults k op db).1 =
    match call faults k op db with inl _ => [] | inr (_, db') => [db'] end.
Proof using Type. unfold stmt. now destruct (call faults k op db) as [e|[a db']]. Qed.

Lemma h_bind_answer {A B} (m : Handler A) (k : A -> Handler B) db :
  answer (h_bind m k db) =
    match answer (m db) with
    | (inl r, db') => (inl r, db')
    | (inr a, db') => answer (k a db')
    end.
Proof. unfold h_bind. cbv zeta. now destruct (answer (m db)) as [[r|a] db']. Qed.

Lemma h_bind_seen {A B} (m : Handler A) (k : A -> Handler B) db :
  seen (h_bind m k db) =
    seen (m db) ++ match answer (m db) with
                   | (inl _, _) => []
                   | (inr a, db') => seen (k a db')
                   end.
Proof.
  unfold h_bind. cbv zeta. destruct (answer (m db)) as [[r|a] db']; cbn [seen];
    [now rewrite app_nil_r|reflexivity].
Qed.

Lemma await_answer {A} k (op : Query A) db :
  answer (await faults k op db) =
    match call faults k op db with
    | inl _ => (inl internal_error, db)
    | inr (a, db') => (inr a, db')
    end.
Proof using Type.
  unfold await, caught, autocommit. now destruct (call faults k op db) as [e|[a db']].
Qed.

Lemma await_seen {A} k (op : Query A) db :
  seen (await faults k op db) = [(answer (await faults k op db)).2].
Proof using Type.
  unfold await, caught, autocommit. now destruct (call faults k op db) as [e|[a db']].
Qed.

Lemma await_transaction_answer {A} (body : Tx A) db :
  answer (await_transaction body db) =
    match (body db).2 with
    | inl _ => (inl internal_error, db)
    | inr (a, db') => (inr a, db')
    end.
Proof.
  unfold await_transaction, caught, transaction.
  now destruct (body db) as [w [e|[a db']]].
Qed.

Lemma await_transaction_seen {A} (body : Tx A) db :
  seen (await_transaction body db) =
    ((fun _ => db) <$> (body db).1) ++ [(answer (await_transaction body db)).2].
Proof.
  unfold await_transaction, caught, transaction.
  now destruct (body db) as [w [e|[a db']]].
Qed.

(** *** What a committed move writes *)

(** The filters of the four [updateMany] calls, as conditions on the row. *)
Lemma card_where_eq l fs c :
  card_where {| where_listId := l; where_position := fs |} c =
    bool_decide (listId c = l) && forallb (fun f => int_filter f (position c)) fs.
Proof. reflexivity. Qed.

(** An [updateMany] that resolves rewrote the rows its filter selects. *)
Lemma card_updateMany_resolves now w data db db1 :
  card_updateMany now w data db = inr (tt, db1) ->
  db1 = with_cards ((fun c => if card_where w c then set_updatedAt now (data c) else c)
                      <$> cards db) db.
Proof. unfold card_updateMany. case_match; [now intros [= <-]|discriminate]. Qed.

(** It resolves when the values of the filter and the positions it writes
    fit the column. *)
Lemma card_updateMany_fits now w data db :
  Forall (fun f => int4 (filter_value f) = true) (where_position w) ->
  (forall i c, cards db !! i = Some c -> card_where w c = true ->
               int4 (position (data c)) = true) ->
  card_updateMany now w data db =
    inr (tt, with_cards ((fun c => if card_where w c then set_updatedAt now (data c) else c)
                           <$> cards db) db).
Proof.
  intros Hbounds Hrows. unfold card_updateMany.
  assert (Hvalues : forallb int4 (filter_value <$> where_position w) = true).
  { apply forallb_forall. intros z Hin%list_elem_of_In.
    apply list_elem_of_fmap in Hin as (f & -> & Hf).
    rewrite Forall_forall in Hbounds. now apply Hbounds. }
  rewrite Hvalues, bool_decide_eq_true_2; [reflexivity|exact Hrows].
Qed.

Lemma int4_spec z : int4 z = true <-> - 2 ^ 31 <= z < 2 ^ 31.
Proof. unfold int4. rewrite andb_true_iff, Z.leb_le, Z.ltb_lt. reflexivity. Qed.

(** The last two statements of the transaction, after a first phase that
    rewrote the rows by [f]. *)
Lemma commit_tail (first : Tx unit) (f : Card -> Card) uid id c dest q now db db' :
  cards db !! id = Some c ->
  f c = c ->
  (forall db1, (first db).2 = inr (tt, db1) -> db1 = with_cards (f <$> cards db) db) ->
  (tx_seq first
     (tx_seq (stmt faults 3 (card_update now id
                               (fun c0 => set_position q (set_listId dest c0))))
             (stmt faults 4 (activity_create (moved_activity uid id c dest q)))) db).2
    = inr (tt, db') ->
  is_Some (lists db !! dest) /\ int4 q = true /\
  faults 3 = false /\ faults 4 = false /\
  db' = with_activity (moved_activity uid id c dest q)
          (with_cards (<[id := moved now dest q c]> (f <$> cards db)) db).
Proof using Type.
  intros Hc Hf Hfirst. unfold tx_seq. rewrite tx_bind_outcome.
  destruct (first db).2 as [e|[[] db1]] eqn:Hrun; [discriminate|].
  rewrite (Hfirst db1 eq_refl).
  rewrite tx_bind_outcome, stmt_outcome. unfold call, card_update.
  destruct (faults 3); [discriminate|].
  cbn [cards with_cards lists]. rewrite lookup_fmap, Hc. cbn [fmap option_fmap option_map].
  rewrite Hf. cbn [listId position set_updatedAt set_position set_listId].
  destruct (int4 q) eqn:Hq; [|discriminate].
  destruct (lists db !! dest) as [l|] eqn:Hl; [|discriminate].
  rewrite stmt_outcome. unfold call, activity_create.
  destruct (faults 4); [discriminate|].
  cbn [cardId moved_activity cards with_cards]. rewrite lookup_insert_eq.
  intros [= <-]. split; [eauto|]. repeat split; reflexivity.
Qed.

(** The conditions of the four filters, as [shifted] writes them. *)
Ltac filter_conditions :=
  unfold card_where; cbn [where_listId where_position forallb int_filter];
  rewrite ?andb_true_r, ?andb_assoc.

Lemma stmt_resolves {A} k (op : Query A) db x :
  (stmt faults k op db).2 = inr x -> faults k = false /\ op db = inr x.
Proof using Type.
  rewrite stmt_outcome. unfold call. destruct (faults k); [discriminate|]. now split.
Qed.

(** The transaction body resolves only if none of its statements is
    rejected, the destination list exists and the new position fits the
    column, and it then yields [committed_move]. *)
Lemma moveTransaction_resolves uid id c dest q now db db' :
  cards db !! id = Some c ->
  (moveTransaction faults uid id (listId c) (position c) dest q now db).2
    = inr (tt, db') ->
  is_Some (lists db !! dest) /\ int4 q = true /\
  (forall k, move_step c dest q k -> faults k = false) /\
  db' = committed_move uid id c dest q now db.
Proof using Type.
  intros Hc Hrun.
  assert (Hself := shifted_self now dest q c).
  unfold committed_move.
  unfold moveTransaction in Hrun.
  assert (Hfirst : forall k, (k = 1%nat /\ (listId c <> dest \/ position c <> q)) \/
                             (k = 2%nat /\ listId c <> dest) -> faults k = false).
  { revert Hrun. unfold tx_seq at 1. rewrite tx_bind_outcome.
    destruct (decide (listId c = dest)) as [Heq|Hne].
    - destruct (position c <? q) eqn:Hdown; [|destruct (q <? position c) eqn:Hup].
      + destruct (stmt faults 1 _ db).2 as [e|x] eqn:Hone; [discriminate|].
        apply stmt_resolves in Hone as [Hone _].
        intros _ k [[-> _]|[_ Hne]]; [exact Hone|contradiction].
      + destruct (stmt faults 1 _ db).2 as [e|x] eqn:Hone; [discriminate|].
        apply stmt_resolves in Hone as [Hone _].
        intros _ k [[-> _]|[_ Hne]]; [exact Hone|contradiction].
      + apply Z.ltb_ge in Hdown, Hup.
        intros _ k [[_ [Hne|Hne]]|[_ Hne]]; [contradiction|lia|contradiction].
    - unfold tx_seq at 1. rewrite tx_bind_outcome.
      destruct (stmt faults 1 _ db).2 as [e|[[] db1]] eqn:Hone; [discriminate|].
      apply stmt_resolves in Hone as [Hone _].
      destruct (stmt faults 2 _ db1).2 as [e|x] eqn:Htwo; [discriminate|].
      apply stmt_resolves in Htwo as [Htwo _].
      intros _ k [[-> _]|[-> _]]; assumption. }
  eapply commit_tail in Hrun; [|exact Hc|exact Hself|].
  - destruct Hrun as (Hdest & Hq & Hf3 & Hf4 & ->).
    split; [exact Hdest|]. split; [exact Hq|]. split; [|reflexivity].
    intros k [Hk|[Hk|[->| ->]]]; [apply Hfirst; now left|apply Hfirst; now right| |];
      assumption.
  - intros db1. unfold shifted.
    destruct (decide (listId c = dest)) as [Heq|Hne].
    + destruct (position c <? q); [|destruct (q <? position c)].
      * intros [_ ->%card_updateMany_resolves]%stmt_resolves. f_equal.
        apply map_fmap_ext. intros i ci _. filter_conditions. reflexivity.
      * intros [_ ->%card_updateMany_resolves]%stmt_resolves. f_equal.
        apply map_fmap_ext. intros i ci _. filter_conditions. reflexivity.
      * unfold tx_ret. cbn [snd]. intros [= <-]. rewrite map_fmap_id. now destruct db.
    + unfold tx_seq. rewrite tx_bind_outcome.
      destruct (stmt faults 1 _ db).2 as [e|[[] db2]] eqn:Hsource; [discriminate|].
      apply stmt_resolves in Hsource as [_ ->%card_updateMany_resolves].
      intros [_ ->%card_updateMany_resolves]%stmt_resolves.
      unfold with_cards. cbn [cards lists boardMembers activities].
      rewrite <- map_fmap_compose. f_equal. apply map_fmap_ext.
      intros i ci _. cbn [compose]. filter_conditions. reflexivity.
Qed.

(** Conversely, when no statement is rejected, the destination list
    exists, the new position fits the column and the stored positions
    leave room for a shift, the body resolves. *)
Lemma moveTransaction_commits uid id c dest q now db :
  (forall k, faults k = false) ->
  cards db !! id = Some c ->
  is_Some (lists db !! dest) ->
  int4 q = true ->
  headroom db ->
  (moveTransaction faults uid id (listId c) (position c) dest q now db).2
    = inr (tt, committed_move uid id c dest q now db).
Proof using Type.
  intros Hfaults Hc [l Hl] Hq Hroom.
  assert (Hp : - 2 ^ 31 <= position c < 2 ^ 31 - 1) by exact (Hroom _ _ Hc).
  apply int4_spec in Hq as Hq'.
  assert (Hfirst : forall (first : Tx unit),
            (first db).2 = inr (tt, with_cards
                              (shifted now (listId c) (position c) dest q <$> cards db) db) ->
            (tx_seq first
               (tx_seq (stmt faults 3 (card_update now id
                                         (fun c0 => set_position q (set_listId dest c0))))
                       (stmt faults 4 (activity_create (moved_activity uid id c dest q)))) db).2
            = inr (tt, committed_move uid id c dest q now db)).
  { intros first Hrun. unfold tx_seq. rewrite tx_bind_outcome, Hrun.
    rewrite tx_bind_outcome, stmt_outcome. unfold call, card_update. rewrite Hfaults.
    cbn [cards with_cards lists]. rewrite lookup_fmap, Hc.
    cbn [fmap option_fmap option_map]. rewrite shifted_self.
    cbn [listId position set_updatedAt set_position set_listId]. rewrite Hq, Hl.
    rewrite stmt_outcome. unfold call, activity_create. rewrite Hfaults.
    cbn [cardId moved_activity cards with_cards]. now rewrite lookup_insert_eq. }
  unfold moveTransaction. apply Hfirst.
  unfold shifted.
  destruct (decide (listId c = dest)) as [Heq|Hne].
  - destruct (position c <? q) eqn:Hdown; [|destruct (q <? position c) eqn:Hup].
    + rewrite stmt_outcome. unfold call. rewrite Hfaults.
      rewrite card_updateMany_fits.
      * f_equal. f_equal. f_equal. apply map_fmap_ext.
        intros i ci _. filter_conditions. reflexivity.
      * cbn [where_position]. repeat constructor; cbn [filter_value];
          apply int4_spec; lia.
      * intros i ci Hi. filter_conditions.
        rewrite !andb_true_iff, Z.ltb_lt, Z.leb_le. intros [[_ ?] ?].
        apply int4_spec. cbn [position decrement set_position]. lia.
    + rewrite stmt_outcome. unfold call. rewrite Hfaults.
      rewrite card_updateMany_fits.
      * f_equal. f_equal. f_equal. apply map_fmap_ext.
        intros i ci _. filter_conditions. reflexivity.
      * cbn [where_position]. repeat constructor; cbn [filter_value];
          apply int4_spec; lia.
      * intros i ci Hi. filter_conditions.
        rewrite !andb_true_iff, Z.ltb_lt, Z.leb_le. intros [[_ ?] ?].
        apply int4_spec. cbn [position increment set_position]. lia.
    + unfold tx_ret. cbn [snd]. rewrite map_fmap_id. now destruct db.
  - unfold tx_seq. rewrite tx_bind_outcome, stmt_outcome. unfold call. rewrite Hfaults.
    rewrite card_updateMany_fits.
    + rewrite stmt_outcome. unfold call. rewrite Hfaults.
      rewrite card_updateMany_fits.
      * unfold with_cards. cbn [cards lists boardMembers activities].
        rewrite <- map_fmap_compose. f_equal. f_equal. f_equal. apply map_fmap_ext.
        intros i ci _. cbn [compose]. filter_conditions. reflexivity.
      * cbn [where_position]. repeat constructor; cbn [filter_value];
          apply int4_spec; lia.
      * intros i ci. cbn [cards with_cards]. rewrite lookup_fmap.
        destruct (cards db !! i) as [ci0|] eqn:Hi0; [|discriminate].
        cbn [fmap option_fmap option_map]. intros [= <-].
        pose proof (Hroom _ _ Hi0) as Hfit.
        filter_conditions.
        destruct (bool_decide (listId ci0 = listId c) && (position c <? position ci0))
          eqn:Hsrc.
        -- apply andb_true_iff in Hsrc as [Hl0 Hlt%Z.ltb_lt].
           intros _. apply int4_spec.
           cbn [position increment decrement set_position set_updatedAt]. lia.
        -- intros _. apply int4_spec.
           cbn [position increment set_position]. lia.
    + cbn [where_position]. repeat constructor; cbn [filter_value];
        apply int4_spec; lia.
    + intros i ci Hi. filter_conditions.
      rewrite !andb_true_iff, Z.ltb_lt. intros [_ ?].
      pose proof (Hroom _ _ Hi) as Hfit.
      apply int4_spec. cbn [position decrement set_position]. lia.
Qed.

(** *** The outcomes of the two handlers *)

(** A handler that answers before it wrote anything. *)
Ltac early_exit :=
  unfold respond; cbn [answer]; intros [= <- <-]; left; split; [reflexivity|discriminate].

(** A handler that leaves the store as it found it. *)
Ltac no_change :=
  unfold respond; cbn [answer snd]; intros Hne; exfalso; now apply Hne.

(** PATCH leaves the store as it was, or leaves exactly the committed
    move; in the second case the answer is the moved card with status 200,
    unless the read that follows the transaction is rejected. *)
Lemma PATCH_outcome session id body now db r db' :
  run_handler (PATCH faults cuid session id body now) db = (r, db') ->
  (db' = db /\ status_of r <> 200) \/
  (exists uid c,
      session = Some uid /\
      cards db !! id = Some c /\
      0 <= newPosition body /\
      is_Some (lists db !! destinationListId body) /\
      db' = committed_move uid id c (destinationListId body) (newPosition body) now db /\
      (r = CardJson 200
             (Some (id, moved now (destinationListId body) (newPosition body) c)) \/
       (faults 5 = true /\ r = internal_error))).
Proof using Type.
  unfold PATCH, run_handler.
  destruct session as [uid|]; [|early_exit].
  unfold moveCardSchema_parse.
  destruct (cuid (destinationListId body) && (0 <=? newPosition body)) eqn:Hparse;
    [|early_exit].
  apply andb_true_iff in Hparse as [_ Hq%Z.leb_le].
  rewrite h_bind_answer, await_answer. unfold call at 1, card_findUnique at 1.
  destruct (faults 0); [early_exit|].
  destruct (cards db !! id) as [c|] eqn:Hc; [|early_exit].
  rewrite h_bind_answer. unfold branch at 1. cbn [answer].
  destruct (lists db !! listId c) as [l|]; [|early_exit].
  destruct (decide (length (board_members_of l uid db) = 0%nat)); [early_exit|].
  rewrite h_bind_answer, await_transaction_answer.
  destruct (moveTransaction faults uid id (listId c) (position c)
              (destinationListId body) (newPosition body) now db).2
    as [e|[[] db1]] eqn:Htx; [early_exit|].
  apply moveTransaction_resolves in Htx as (Hdest & _ & _ & ->); [|exact Hc].
  rewrite h_bind_answer, await_answer. unfold call, card_findUnique, respond.
  destruct (faults 5) eqn:Hf5.
  - intros [= <- <-]. right. exists uid, c. repeat split; auto.
  - unfold committed_move at 1 2.
    cbn [cards with_activity with_cards answer]. rewrite lookup_insert_eq.
    intros [= <- <-]. right. exists uid, c. repeat split; auto.
Qed.

(** A move that is committed went through every statement of the
    transaction, with a new position that fits the column and a
    destination list that exists. *)
Lemma PATCH_changes session id body now db :
  (run_handler (PATCH faults cuid session id body now) db).2 <> db ->
  int4 (newPosition body) = true /\
  is_Some (lists db !! destinationListId body) /\
  exists c, cards db !! id = Some c /\
    forall k, move_step c (destinationListId body) (newPosition body) k ->
              faults k = false.
Proof using Type.
  unfold PATCH, run_handler.
  destruct session as [uid|]; [|no_change].
  unfold moveCardSchema_parse.
  destruct (cuid (destinationListId body) && (0 <=? newPosition body)); [|no_change].
  rewrite h_bind_answer, await_answer. unfold call at 1, card_findUnique at 1.
  destruct (faults 0); [no_change|].
  destruct (cards db !! id) as [c|] eqn:Hc; [|no_change].
  rewrite h_bind_answer. unfold branch at 1. cbn [answer].
  destruct (lists db !! listId c) as [l|]; [|no_change].
  destruct (decide (length (board_members_of l uid db) = 0%nat)); [no_change|].
  rewrite h_bind_answer, await_transaction_answer.
  destruct (moveTransaction faults uid id (listId c) (position c)
              (destinationListId body) (newPosition body) now db).2
    as [e|[[] db1]] eqn:Htx; [no_change|].
  apply moveTransaction_resolves in Htx as (Hdest & Hq & Hsteps & _); [|exact Hc].
  intros _. split; [exact Hq|]. split; [exact Hdest|]. now exists c.
Qed.

(** What the other connections can read while PATCH runs: the store as it
    was before the request or the store the handler leaves, never a store
    in which only a part of the move is written. *)
Lemma PATCH_observed session id body now db :
  Forall (fun store => store = db \/
                       store = (run_handler (PATCH faults cuid session id body now) db).2)
    (observed (PATCH faults cuid session id body now) db).
Proof using Type.
  unfold observed. apply Forall_cons. split; [now left|].
  unfold PATCH, run_handler.
  destruct session as [uid|]; [|unfold respond; cbn [seen]; constructor].
  unfold moveCardSchema_parse.
  destruct (cuid (destinationListId body) && (0 <=? newPosition body));
    [|unfold respond; cbn [seen]; constructor].
  rewrite h_bind_seen, h_bind_answer, await_seen, await_answer.
  unfold call, card_findUnique.
  destruct (faults 0); cbn [answer snd];
    [rewrite app_nil_r; repeat constructor; now left|].
  apply Forall_app. split; [repeat constructor; now left|].
  destruct (cards db !! id) as [c|] eqn:Hc; [|unfold respond; cbn [seen]; constructor].
  rewrite h_bind_seen, h_bind_answer. unfold branch at 1 2 3. cbn [answer seen app].
  destruct (lists db !! listId c) as [l|]; [|constructor].
  destruct (decide (length (board_members_of l uid db) = 0%nat)); [constructor|].
  rewrite h_bind_seen, h_bind_answer, await_transaction_seen, await_transaction_answer.
  destruct (moveTransaction faults uid id (listId c) (position c)
              (destinationListId body) (newPosition body) now db)
    as [written [e|[[] db1]]]; cbn [fst snd].
  - rewrite app_nil_r. apply Forall_app. split; [|repeat constructor; now left].
    apply Forall_fmap, Forall_forall. intros store _. now left.
  - rewrite <- !app_assoc. apply Forall_app. split.
    { apply Forall_fmap, Forall_forall. intros store _. now left. }
    rewrite h_bind_seen, h_bind_answer, await_seen, await_answer.
    unfold call, respond.
    destruct (faults 5); cbn [answer seen snd app]; repeat constructor; now right.
Qed.

(** A valid request of a board member commits when no Prisma call is
    rejected, the new position fits the column and the stored positions
    leave room for a shift: the answer is the moved card with status 200. *)
Lemma PATCH_commits uid id body now db c l :
  (forall k, faults k = false) ->
  cuid (destinationListId body) = true ->
  0 <= newPosition body < 2 ^ 31 ->
  headroom db ->
  cards db !! id = Some c ->
  lists db !! listId c = Some l ->
  (boardId l, uid) ∈ boardMembers db ->
  is_Some (lists db !! destinationListId body) ->
  run_handler (PATCH faults cuid (Some uid) id body now) db =
    (CardJson 200 (Some (id, moved now (destinationListId body) (newPosition body) c)),
     committed_move uid id c (destinationListId body) (newPosition body) now db).
Proof using Type.
  intros Hfaults Hcuid Hq Hroom Hc Hl Hmember Hdest.
  assert (Hq4 : int4 (newPosition body) = true) by (apply int4_spec; lia).
  unfold PATCH, run_handler, moveCardSchema_parse.
  rewrite Hcuid. rewrite (proj2 (Z.leb_le _ _) (proj1 Hq)). cbn [andb].
  rewrite h_bind_answer, await_answer. unfold call at 1, card_findUnique at 1.
  rewrite Hfaults, Hc.
  rewrite h_bind_answer. unfold branch at 1. cbn [answer]. rewrite Hl.
  unfold board_members_of.
  destruct (decide ((boardId l, uid) ∈ boardMembers db)) as [_|Hn]; [|contradiction].
  rewrite decide_False by discriminate.
  rewrite h_bind_answer, await_transaction_answer.
  rewrite (moveTransaction_commits uid id c _ _ now db Hfaults Hc Hdest Hq4 Hroom).
  rewrite h_bind_answer, await_answer. unfold call, card_findUnique, respond.
  rewrite Hfaults. unfold committed_move at 1 2.
  cbn [cards with_activity with_cards answer]. now rewrite lookup_insert_eq.
Qed.

(** POST leaves the store as it was, or inserts one row under the fresh id
    (and then, unless that statement is rejected, one activity). *)
Lemma POST_outcome session body newId now db r db' :
  run_handler (POST faults cuid datetime url session body newId now) db = (r, db') ->
  (db' = db /\ status_of r <> 201) \/
  (cards db !! newId = None /\
   is_Some (lists db !! new_listId body) /\
   cards db' = <[newId := created body (created_position body db) now]> (cards db) /\
   lists db' = lists db).
Proof using Type.
  unfold POST, run_handler.
  destruct session as [uid|]; [|early_exit].
  destruct (createCardSchema_parse cuid datetime url body) as [validatedData|] eqn:Hparse;
    [|early_exit].
  assert (validatedData = body) as ->.
  { unfold createCardSchema_parse in Hparse.
    destruct (_ && _) in Hparse; congruence. }
  rewrite h_bind_answer, await_answer. unfold call at 1.
  destruct (faults 0); [early_exit|].
  destruct (lists db !! new_listId body) as [l|] eqn:Hl; [|early_exit].
  rewrite h_bind_answer. unfold branch at 1. cbn [answer].
  destruct (decide (length (board_members_of l uid db) = 0%nat)); [early_exit|].
  rewrite h_bind_answer.
  unfold created_position.
  destruct (new_position body) as [p|];
    [unfold branch at 1; cbn [answer]
    |rewrite await_answer; unfold call at 1; destruct (faults 1); [early_exit|]].
  all: rewrite h_bind_answer, await_answer; unfold call at 1, card_create.
  all: destruct (faults 2); [early_exit|].
  all: cbn [listId position].
  all: match goal with |- context [int4 ?p] => destruct (int4 p) end; [|early_exit].
  all: destruct (cards db !! newId) eqn:Hfresh; [early_exit|].
  all: rewrite Hl.
  all: rewrite h_bind_answer, await_answer; unfold call, activity_create, respond.
  all: destruct (faults 3); [intros [= <- <-]; right; repeat split; eauto|].
  all: cbn [cardId fst cards with_cards answer]; rewrite lookup_insert_eq.
  all: intros [= <- <-]; right; repeat split; eauto.
Qed.

(** *** The order invariant *)

(** *** Counting siblings *)

(** *** Siblings in display order *)

(** *** Committed operations *)

Lemma commit_move_order session id body now db :
  order_invariant db -> order_invariant (commit (MoveCard session id body now) db).
Proof using faults cuid datetime url.
  intros Hinv. unfold commit.
  destruct (run_handler _ db) as [r db'] eqn:Hrun.
  apply PATCH_outcome in Hrun as [[-> _]|(uid & c & _ & Hc & _ & _ & -> & _)];
    [exact Hinv|].
  now apply committed_move_order.
Qed.

Lemma commit_dense op db :
  dense db -> in_range op db -> at_tail op -> dense (commit op db).
Proof using faults cuid datetime url.
  intros Hdense Hrange Htail. destruct op as [session body newId now|session id body now];
    unfold commit; destruct (run_handler _ db) as [r db'] eqn:Hrun; cbn [snd].
  - apply POST_outcome in Hrun as [[-> _]|(Hfresh & _ & Hcards & _)]; [exact Hdense|].
    eapply created_dense; eauto.
  - apply PATCH_outcome in Hrun as [[-> _]|(uid & c & _ & Hc & _ & _ & -> & _)];
      [exact Hdense|].
    cbn [in_range] in Hrange. rewrite Hc in Hrange.
    now apply committed_move_dense.
Qed.

(** C1 (amended): a move, within a list or across lists, keeps the
    siblings of every list strictly ordered by position with no position
    shared, whatever new position is requested.  Creating a card keeps
    them so when the position is omitted and the positions of every list
    are dense (0 .. n-1).  Dense positions are kept by such a creation and
    by every move whose new position is an index of the destination. *)
Theorem C1_order_invariant_preserved op db :
  at_tail op ->
  precondition op db ->
  order_invariant (commit op db) /\
  (forall l, StronglySorted position_lt (card_findMany_byList l (commit op db))) /\
  (dense db -> in_range op db -> dense (commit op db)).
Proof using faults cuid datetime url.
  intros Htail Hpre.
  assert (Hinv : order_invariant (commit op db)).
  { destruct op as [session body newId now|session id body now].
    - apply (commit_dense _ db); [exact Hpre| |exact Htail].
      cbn [in_range]. cbn [at_tail] in Htail. now rewrite Htail.
    - now apply commit_move_order. }
  split; [exact Hinv|]. split.
  - intros l. now apply order_invariant_sorted.
  - intros Hdense Hrange. now apply commit_dense.
Qed.

(** C2 (amended): a committed move across lists also rewrites siblings.
    Every other card keeps its list; its position drops by one when it
    was in the source list behind the moved card, rises by one when it
    was in the destination list at or behind the new position, and is
    unchanged otherwise.  A card whose position is unchanged is unchanged
    altogether, which covers all cards of unrelated lists, and no row
    appears or disappears. *)
Theorem C2_cross_list_move_frame session id body now db r db' c :
  run_handler (PATCH faults cuid session id body now) db = (r, db') ->
  status_of r = 200 ->
  cards db !! id = Some c ->
  listId c <> destinationListId body ->
  forall j, j <> id ->
    match cards db !! j with
    | None => cards db' !! j = None
    | Some cj =>
        exists cj', cards db' !! j = Some cj' /\
          listId cj' = listId cj /\
          position cj' =
            (if decide (listId cj = listId c /\ position c < position cj)
             then position cj - 1
             else if decide (listId cj = destinationListId body /\
                             newPosition body <= position cj)
                  then position cj + 1
                  else position cj) /\
          (position cj' = position cj -> cj' = cj) /\
          (listId cj <> listId c -> listId cj <> destinationListId body -> cj' = cj)
    end.
Proof using faults cuid.
  clear datetime url.
  intros Hrun Hok Hc Hcross j Hj.
  apply PATCH_outcome in Hrun as [[_ Hne]|(uid & c' & _ & Hc' & _ & _ & -> & _)];
    [contradiction|].
  assert (c' = c) as -> by congruence.
  rewrite committed_move_lookup, decide_False by congruence.
  destruct (cards db !! j) as [cj|]; [|reflexivity].
  eexists; split; [reflexivity|].
  split; [apply shifted_listId|].
  assert (Hpos := shifted_position now (listId c) (position c)
                    (destinationListId body) (newPosition body) cj).
  assert (Hsame := shifted_cross_unchanged now (listId c) (position c)
                     (destinationListId body) (newPosition body) cj Hcross).
  split; [|split; [exact Hsame|]].
  - rewrite Hpos. rewrite decide_False by exact Hcross.
    repeat case_decide; try reflexivity; try lia; try tauto;
      destruct_and?; congruence.
  - intros Hsrc Hdest. apply Hsame. rewrite Hpos.
    rewrite decide_False by exact Hcross.
    now rewrite !decide_False by assumption.
Qed.

Lemma committed_move_changes uid id c dest q now db :
  committed_move uid id c dest q now db <> db.
Proof.
  intros Heq. apply (f_equal (fun d => length (activities d))) in Heq.
  unfold committed_move in Heq. cbn [activities with_activity with_cards] in Heq.
  rewrite length_app in Heq. cbn [length] in Heq. lia.
Qed.

(** C6: the move is atomic.  The shifts of the siblings, the new list and
    position of the moved card and the activity record are written by one
    transaction: whatever call of the handler is rejected, PATCH leaves
    either the store as it was or the store with the whole move in it.
    When a statement of the transaction fails (it is rejected, the new
    position does not fit the column, or the destination list does not
    exist), the store is as it was.  Every store another connection can
    read while the handler runs, between any two of its Prisma calls, is
    the store before the request or the store with the whole move: a store
    with only a part of the shifts is never visible.  A store that changed
    goes with the answer 200, or with 500 when only the read that follows
    the commit was rejected.  And the move does go through: for a valid
    request by a member, with no call rejected, a new position that fits
    the column and stored positions that leave room for a shift, the
    answer is 200 with the moved card and the store holds the whole move. *)
Theorem C6_move_atomic session id body now db :
  ((run_handler (PATCH faults cuid session id body now) db).2 = db \/
   exists uid c,
     session = Some uid /\
     cards db !! id = Some c /\
     (run_handler (PATCH faults cuid session id body now) db).2 =
       committed_move uid id c (destinationListId body) (newPosition body) now db /\
     (forall j, cards (run_handler (PATCH faults cuid session id body now) db).2 !! j =
        if decide (id = j)
        then Some (moved now (destinationListId body) (newPosition body) c)
        else shifted now (listId c) (position c) (destinationListId body)
               (newPosition body) <$> cards db !! j) /\
     activities (run_handler (PATCH faults cuid session id body now) db).2 =
       activities db ++ [moved_activity uid id c (destinationListId body) (newPosition body)]) /\
  (forall c k,
      cards db !! id = Some c ->
      move_step c (destinationListId body) (newPosition body) k ->
      faults k = true ->
      (run_handler (PATCH faults cuid session id body now) db).2 = db) /\
  (int4 (newPosition body) = false \/ lists db !! destinationListId body = None ->
   (run_handler (PATCH faults cuid session id body now) db).2 = db) /\
  Forall (fun store =>
            store = db \/
            store = (run_handler (PATCH faults cuid session id body now) db).2)
    (observed (PATCH faults cuid session id body now) db) /\
  (status_of (run_handler (PATCH faults cuid session id body now) db).1 = 200 ->
   (run_handler (PATCH faults cuid session id body now) db).2 <> db) /\
  ((run_handler (PATCH faults cuid session id body now) db).2 <> db ->
   status_of (run_handler (PATCH faults cuid session id body now) db).1 = 200 \/
   (faults 5 = true /\
    (run_handler (PATCH faults cuid session id body now) db).1 = internal_error)) /\
  (forall uid c l,
      session = Some uid ->
      (forall k, faults k = false) ->
      cuid (destinationListId body) = true ->
      0 <= newPosition body < 2 ^ 31 ->
      headroom db ->
      cards db !! id = Some c ->
      lists db !! listId c = Some l ->
      (boardId l, uid) ∈ boardMembers db ->
      is_Some (lists db !! destinationListId body) ->
      run_handler (PATCH faults cuid session id body now) db =
        (CardJson 200 (Some (id, moved now (destinationListId body) (newPosition body) c)),
         committed_move uid id c (destinationListId body) (newPosition body) now db)).
Proof using Type.
  assert (Hchanged :
    (run_handler (PATCH faults cuid session id body now) db).2 = db \/
    (run_handler (PATCH faults cuid session id body now) db).2 <> db).
  { destruct (run_handler _ db) as [r db'] eqn:Hrun.
    apply PATCH_outcome in Hrun as [[-> _]|(uid & c & _ & _ & _ & _ & -> & _)];
      [now left|right; apply committed_move_changes]. }
  split; [|split; [|split; [|split; [|split; [|split]]]]].
  - destruct (run_handler _ db) as [r db'] eqn:Hrun.
    apply PATCH_outcome in Hrun as [[-> _]|(uid & c & -> & Hc & _ & _ & -> & _)];
      [now left|].
    right. exists uid, c. split; [reflexivity|]. split; [exact Hc|].
    split; [reflexivity|]. split; [|reflexivity].
    intros j. apply committed_move_lookup.
  - intros c k Hc Hstep Hfault.
    destruct Hchanged as [Hsame|Hdiff]; [exact Hsame|].
    apply PATCH_changes in Hdiff as (_ & _ & c' & Hc' & Hsteps).
    assert (c' = c) as -> by congruence.
    rewrite (Hsteps k Hstep) in Hfault. discriminate.
  - intros Hbad.
    destruct Hchanged as [Hsame|Hdiff]; [exact Hsame|].
    apply PATCH_changes in Hdiff as (Hq & [l Hl] & _).
    destruct Hbad; congruence.
  - apply PATCH_observed.
  - destruct (run_handler _ db) as [r db'] eqn:Hrun.
    apply PATCH_outcome in Hrun as [[-> Hne]|(uid & c & _ & _ & _ & _ & -> & _)];
      [contradiction|].
    intros _. apply committed_move_changes.
  - destruct (run_handler _ db) as [r db'] eqn:Hrun.
    apply PATCH_outcome in Hrun as [[-> _]|(uid & c & _ & _ & _ & _ & -> & Hr)];
      [intros Hne; now contradiction Hne|].
    intros _. destruct Hr as [->|[Hf ->]]; [now left|right; now split].
  - intros uid c l -> Hfaults Hcuid Hq Hroom Hc Hl Hmember Hdest.
    now apply (PATCH_commits uid id body now db c l).
Qed.

(** The transaction itself: a rejected body leaves every row as it was. *)
Lemma moveTransaction_rejected uid id src p dest q now db e :
  (answer (transaction (moveTransaction faults uid id src p dest q now) db)).1 = inl e ->
  (answer (transaction (moveTransaction faults uid id src p dest q now) db)).2 = db.
Proof using Type.
  unfold transaction.
  destruct (moveTransaction _ _ _ _ _ _ _ _ db) as [written [e'|[[] db1]]];
    [reflexivity|discriminate].
Qed.

(** C7 (amended): a committed move writes the destination list and the new
    position on the moved card (Prisma stamps [updatedAt]); the other
    columns keep their values, and the answer carries the stored row.
    [model Card] has no version column: neither the row before the move
    nor the row after it has a [version] field. *)
Theorem C7_move_writes_list_and_position session id body now db r db' :
  run_handler (PATCH faults cuid session id body now) db = (r, db') ->
  status_of r = 200 ->
  exists c c',
    cards db !! id = Some c /\
    cards db' !! id = Some c' /\
    r = CardJson 200 (Some (id, c')) /\
    listId c' = destinationListId body /\
    position c' = newPosition body /\
    updatedAt c' = now /\
    (title c', description c', dueDate c', cover c', archived c', createdAt c') =
    (title c, description c, dueDate c, cover c, archived c, createdAt c) /\
    json_field "version" (card_json id c) = None /\
    json_field "version" (card_json id c') = None.
Proof using faults cuid.
  intros Hrun Hok.
  apply PATCH_outcome in Hrun as [[_ Hne]|(uid & c & _ & Hc & _ & _ & -> & Hr)];
    [contradiction|].
  destruct Hr as [->|[_ ->]]; [|discriminate].
  exists c, (moved now (destinationListId body) (newPosition body) c).
  rewrite committed_move_lookup, decide_True by reflexivity.
  repeat split; assumption.
Qed.

End ServerFacts.

(** *** The sample board *)

Section ServerExamples.
Import Server.
Local Open Scope Z_scope.

Ltac by_compute := refine (bool_decide_unpack _ _); vm_compute; exact I.

Example sample_db_dense : dense sample_db.
Proof. by_compute. Qed.

(** The ids of the sample board are cuids.  A hyphen, a no-break space
    (U+00A0, the bytes 194 and 160) or a tail of fewer than eight
    characters is refused; the tail is counted in characters, not in
    bytes. *)
Example zod_cuid_samples :
  zod_cuid "clist00001" = true /\
  zod_cuid "clist-0001" = false /\
  zod_cuid (String.append "clist"
              (String (Ascii.ascii_of_nat 194) (String (Ascii.ascii_of_nat 160) "0001")))
    = false /\
  zod_cuid "clist001" = false /\
  zod_cuid "céééééééé" = true /\
  zod_cuid "céééé" = false.
Proof. repeat split; vm_compute; reflexivity. Qed.

(** C moved between A and B in its own list. *)
Example sample_move_within :
  positions (sample_commit (move_to "ccard0000C" "clist00001" 1) sample_db) ≡ₚ
  [ ("ccard0000A", ("clist00001", 0)); ("ccard0000C", ("clist00001", 1));
    ("ccard0000B", ("clist00001", 2)); ("ccard0000D", ("clist00002", 0)) ].
Proof. vm_compute. by_compute. Qed.

Example sparse_db_positions :
  dense one_card_db /\
  positions sparse_db = [ ("ccard0000B", ("clist00001", 1)) ].
Proof. split; [by_compute|reflexivity]. Qed.

(** The claim of C1 holds here: a committed creation at the tail of the
    dense sample board. *)
Lemma C1_order_invariant_preserved_witness :
  at_tail (create_E None) /\
  precondition (create_E None) sample_db /\
  order_invariant (sample_commit (create_E None) sample_db) /\
  (forall l, StronglySorted position_lt
               (card_findMany_byList l (sample_commit (create_E None) sample_db))).
Proof.
  assert (Htail : at_tail (create_E None)) by reflexivity.
  assert (Hpre : precondition (create_E None) sample_db) by by_compute.
  split; [exact Htail|]. split; [exact Hpre|].
  destruct (C1_order_invariant_preserved no_faults zod_cuid no_format no_format
              (create_E None) sample_db Htail Hpre) as (Horder & Hsorted & _).
  split; [exact Horder|exact Hsorted].
Defined.

(** C1, as stated, fails for creation.  On [sparse_db], a list whose only
    card sits at position 1, the invariant holds, a card created without a
    position gets [count] = 1, and two siblings then share position 1.  On the dense
    sample board a card created with the explicit position 0, an index of
    the list, lands on the position of A: the handler shifts nothing. *)
Lemma C1_create_breaks_order :
  (order_invariant sparse_db /\
   in_range (create_E None) sparse_db /\
   positions (sample_commit (create_E None) sparse_db) ≡ₚ
     [ ("ccard0000B", ("clist00001", 1)); ("ccard0000E", ("clist00001", 1)) ] /\
   ~ order_invariant (sample_commit (create_E None) sparse_db)) /\
  (order_invariant sample_db /\
   in_range (create_E (Some 0)) sample_db /\
   ~ order_invariant (sample_commit (create_E (Some 0)) sample_db)).
Proof.
  split; [split; [|split; [|split]]|split; [|split]].
  - by_compute.
  - exact I.
  - vm_compute. by_compute.
  - by_compute.
  - by_compute.
  - cbn. by_compute.
  - by_compute.
Qed.

(** C2, as stated, fails: moving A from the first list to the head of the
    second changes B and C in the source list (1, 2 become 0, 1) and D in
    the destination (0 becomes 1). *)
Lemma C2_cross_list_move_shifts_siblings :
  status_of (sample_PATCH no_faults "ccard0000A" "clist00002" 0 sample_db).1 = 200 /\
  positions sample_db ≡ₚ
    [ ("ccard0000A", ("clist00001", 0)); ("ccard0000B", ("clist00001", 1));
      ("ccard0000C", ("clist00001", 2)); ("ccard0000D", ("clist00002", 0)) ] /\
  positions (sample_PATCH no_faults "ccard0000A" "clist00002" 0 sample_db).2 ≡ₚ
    [ ("ccard0000A", ("clist00002", 0)); ("ccard0000B", ("clist00001", 0));
      ("ccard0000C", ("clist00001", 1)); ("ccard0000D", ("clist00002", 1)) ] /\
  position <$> cards sample_db !! "ccard0000B" <>
  position <$> cards (sample_PATCH no_faults "ccard0000A" "clist00002" 0 sample_db).2
                 !! "ccard0000B".
Proof.
  split; [reflexivity|]. split; [vm_compute; by_compute|].
  split; [vm_compute; by_compute|]. vm_compute. discriminate.
Qed.

(** The amended C2 at that move: B, behind A in the source list, drops by
    one. *)
Lemma C2_cross_list_move_frame_witness :
  exists cB,
    cards (sample_PATCH no_faults "ccard0000A" "clist00002" 0 sample_db).2 !! "ccard0000B"
      = Some cB /\
    listId cB = "clist00001" /\ position cB = 0.
Proof.
  pose proof (C2_cross_list_move_frame no_faults zod_cuid (Some "cuser00001")
                "ccard0000A" {| destinationListId := "clist00002"; newPosition := 0 |} 7
                sample_db
                (sample_PATCH no_faults "ccard0000A" "clist00002" 0 sample_db).1
                (sample_PATCH no_faults "ccard0000A" "clist00002" 0 sample_db).2
                (sample_card "A" "clist00001" 0)) as Hframe.
  specialize (Hframe ltac:(vm_compute; reflexivity) ltac:(reflexivity)
                ltac:(reflexivity) ltac:(discriminate)
                "ccard0000B" ltac:(discriminate)).
  change (cards sample_db !! "ccard0000B")
    with (Some (sample_card "B" "clist00001" 1)) in Hframe.
  destruct Hframe as (cB & Hlookup & Hlist & Hpos & _).
  exists cB. split; [exact Hlookup|]. split; [exact Hlist|].
  rewrite Hpos. reflexivity.
Defined.

(** Atomicity on the sample board: when the last statement of the
    transaction (the activity record) is rejected, the shifts and the update
    of the card that ran before it are not kept. *)
Example sample_rollback_activity :
  sample_PATCH (fun k => bool_decide (k = 4%nat)) "ccard0000A" "clist00002" 0 sample_db
  = (internal_error, sample_db).
Proof. vm_compute. reflexivity. Qed.

(** A destination list that does not exist passes validation; the update of
    the card is rejected by the foreign key after the source list was
    shifted, and nothing is kept. *)
Example sample_rollback_foreign_key :
  sample_PATCH no_faults "ccard0000A" "clist00009" 0 sample_db
  = (internal_error, sample_db).
Proof. vm_compute. reflexivity. Qed.

(** A rejected read after the commit answers 500 over a committed move. *)
Example sample_committed_then_500 :
  (sample_PATCH (fun k => bool_decide (k = 5%nat)) "ccard0000A" "clist00002" 0 sample_db).1
    = internal_error /\
  cards (sample_PATCH (fun k => bool_decide (k = 5%nat)) "ccard0000A" "clist00002" 0
           sample_db).2
    = cards (sample_PATCH no_faults "ccard0000A" "clist00002" 0 sample_db).2.
Proof. split; vm_compute; reflexivity. Qed.

(** The move of A to the head of the second list goes through, and no
    other connection reads anything but the board before it or the board
    after it. *)
Lemma C6_move_atomic_witness :
  sample_PATCH no_faults "ccard0000A" "clist00002" 0 sample_db =
    (CardJson 200
       (Some ("ccard0000A", moved 7 "clist00002" 0 (sample_card "A" "clist00001" 0))),
     committed_move "cuser00001" "ccard0000A" (sample_card "A" "clist00001" 0)
       "clist00002" 0 7 sample_db) /\
  Forall (fun store =>
            store = sample_db \/
            store = (sample_PATCH no_faults "ccard0000A" "clist00002" 0 sample_db).2)
    (observed (PATCH no_faults zod_cuid (Some "cuser00001") "ccard0000A"
                 {| destinationListId := "clist00002"; newPosition := 0 |} 7)
       sample_db).
Proof.
  destruct (C6_move_atomic no_faults zod_cuid (Some "cuser00001") "ccard0000A"
              {| destinationListId := "clist00002"; newPosition := 0 |} 7 sample_db)
    as (_ & _ & _ & Hseen & _ & _ & Hgoes).
  split; [|exact Hseen].
  apply (Hgoes "cuser00001" (sample_card "A" "clist00001" 0)
               {| list_title := "To Do"; boardId := "cboard0001" |});
    first [reflexivity | by_compute | cbn; lia | eexists; reflexivity].
Defined.

(** The working copy of that transaction does pass through a board with a
    part of the move in it: after the first statement, B has taken position
    0 of the first list while A still holds it.  That board is not among
    the boards another connection can read. *)
Example sample_partial_move_private :
  exists partial,
    (moveTransaction no_faults "cuser00001" "ccard0000A" "clist00001" 0 "clist00002" 0 7
       sample_db).1 !! 0%nat = Some partial /\
    ~ order_invariant partial /\
    partial ∉ observed (PATCH no_faults zod_cuid (Some "cuser00001") "ccard0000A"
                          {| destinationListId := "clist00002"; newPosition := 0 |} 7)
                sample_db.
Proof.
  eexists. split; [vm_compute; reflexivity|].
  assert (Hbroken : forall partial,
            ~ order_invariant partial ->
            partial ∉ observed (PATCH no_faults zod_cuid (Some "cuser00001") "ccard0000A"
                                  {| destinationListId := "clist00002"; newPosition := 0 |} 7)
                        sample_db).
  { intros partial Hpartial Hin.
    pose proof (PATCH_observed no_faults zod_cuid (Some "cuser00001") "ccard0000A"
                  {| destinationListId := "clist00002"; newPosition := 0 |} 7 sample_db)
      as Hseen.
    rewrite Forall_forall in Hseen. destruct (Hseen _ Hin) as [-> | ->].
    - apply Hpartial. by_compute.
    - apply Hpartial. by_compute. }
  split; [by_compute|]. apply Hbroken. by_compute.
Qed.

(** C7, as stated, fails: the move of C succeeds, and no version counter
    went from [v] to [v + 1], because the rows have no version field. *)
Lemma C7_no_version_counter :
  status_of (sample_PATCH no_faults "ccard0000C" "clist00001" 0 sample_db).1 = 200 /\
  ~ exists (v : Z) (c c' : Card),
      cards sample_db !! "ccard0000C" = Some c /\
      cards (sample_PATCH no_faults "ccard0000C" "clist00001" 0 sample_db).2
        !! "ccard0000C" = Some c' /\
      json_field "version" (card_json "ccard0000C" c) = Some (JNumber v) /\
      json_field "version" (card_json "ccard0000C" c') = Some (JNumber (v + 1)).
Proof.
  split; [reflexivity|].
  intros (v & c & c' & _ & _ & Hversion & _). cbn in Hversion. discriminate.
Qed.

(** The amended C7 at that move. *)
Lemma C7_move_writes_list_and_position_witness :
  exists c',
    cards (sample_PATCH no_faults "ccard0000C" "clist00001" 0 sample_db).2
      !! "ccard0000C" = Some c' /\
    listId c' = "clist00001" /\ position c' = 0 /\ updatedAt c' = 7 /\
    json_field "version" (card_json "ccard0000C" c') = None.
Proof.
  destruct (C7_move_writes_list_and_position no_faults zod_cuid (Some "cuser00001")
              "ccard0000C" {| destinationListId := "clist00001"; newPosition := 0 |} 7
              sample_db
              (sample_PATCH no_faults "ccard0000C" "clist00001" 0 sample_db).1
              (sample_PATCH no_faults "ccard0000C" "clist00001" 0 sample_db).2
              ltac:(vm_compute; reflexivity) ltac:(reflexivity))
    as (c & c' & _ & Hstored & _ & Hlist & Hpos & Hstamp & _ & _ & Hversion).
  exists c'. repeat split; assumption.
Defined.

End ServerExamples.

(** ** The kanban board *)

Section KanbanFacts.
Import Kanban.

Lemma drop_column_id task src tgt col :
  col_id (drop_column task src tgt col) = col_id col.
Proof. unfold drop_column. repeat case_decide; reflexivity. Qed.

Lemma handleDrop_columns tgt st task src :
  draggedTask st = Some (task, src) ->
  src <> tgt ->
  columns (handleDrop tgt st) = drop_column task src tgt <$> columns st.
Proof.
  intros Hdrag Hne. unfold handleDrop. rewrite Hdrag.
  rewrite decide_False by exact Hne. reflexivity.
Qed.

Lemma column_fmap (f : Column -> Column) cid cols :
  (forall col, col_id (f col) = col_id col) ->
  column cid (f <$> cols) = f <$> column cid cols.
Proof.
  intros Hf. unfold column. induction cols as [|col cols IH]; [reflexivity|].
  cbn. rewrite Hf. case_decide; [reflexivity|].
  destruct (list_find _ (f <$> cols)) as [[i c]|] eqn:H1;
    destruct (list_find _ cols) as [[i' c']|] eqn:H2; cbn in *; congruence.
Qed.

Lemma column_Some cid cols col :
  column cid cols = Some col -> col ∈ cols /\ col_id col = cid.
Proof.
  unfold column. destruct (list_find _ cols) as [[i c]|] eqn:Hfind; [|discriminate].
  intros [= <-]. apply list_find_Some in Hfind as (Hi & Hid & _).
  split; [|exact Hid]. eapply list_elem_of_lookup_2, Hi.
Qed.

Lemma filter_split_perm (P : Task -> Prop) `{forall t, Decision (P t)} (l : list Task) :
  filter (fun t => ~ P t) l ++ filter P l ≡ₚ l.
Proof.
  induction l as [|t l IH]; [reflexivity|].
  rewrite !filter_cons. destruct (decide (P t)) as [HP|HP].
  - rewrite decide_False by tauto. rewrite <- Permutation_middle. now f_equiv.
  - rewrite decide_True by exact HP. cbn. now f_equiv.
Qed.

Lemma drop_balance task src tgt cols :
  all_tasks (drop_column task src tgt <$> cols) ++ taken_out task src cols
  ≡ₚ all_tasks cols ++ put_in task src tgt cols.
Proof.
  unfold all_tasks, taken_out, put_in.
  induction cols as [|col cols IH]; [reflexivity|].
  cbn [fmap list_fmap concat].
  assert (Hcol : tasks (drop_column task src tgt col)
                 ++ (if decide (col_id col = src)
                     then filter (fun t => id t = id task) (tasks col) else [])
                 ≡ₚ tasks col
                 ++ (if decide (col_id col = src) then []
                     else if decide (col_id col = tgt) then [task] else [])).
  { unfold drop_column. destruct (decide (col_id col = src)).
    - cbn [tasks with_tasks]. rewrite app_nil_r.
      apply (filter_split_perm (fun t => id t = id task)).
    - destruct (decide (col_id col = tgt)); cbn [tasks with_tasks];
        now rewrite !app_nil_r. }
  rewrite <- !app_assoc.
  rewrite (Permutation_app_comm (concat (tasks <$> (drop_column task src tgt <$> cols)))).
  rewrite <- !app_assoc, (app_assoc (tasks _)), Hcol.
  rewrite (Permutation_app_comm (concat _) (concat (tasks <$> (drop_column task src tgt <$> cols)))).
  rewrite IH. rewrite <- !app_assoc. f_equiv.
  rewrite !app_assoc. f_equiv. apply Permutation_app_comm.
Qed.

Lemma column_cons cid col cols :
  column cid (col :: cols) =
    if decide (col_id col = cid) then Some col else column cid cols.
Proof.
  unfold column. cbn. case_decide; [reflexivity|].
  destruct (list_find _ cols) as [[i c]|]; reflexivity.
Qed.

Lemma column_None cid cols : cid ∉ col_id <$> cols -> column cid cols = None.
Proof.
  induction cols as [|col cols IH]; [reflexivity|].
  rewrite fmap_cons, not_elem_of_cons. intros [Hne Hnotin].
  rewrite column_cons, decide_False by congruence. now apply IH.
Qed.

Lemma taken_out_absent task src cols :
  src ∉ col_id <$> cols -> taken_out task src cols = [].
Proof.
  unfold taken_out. induction cols as [|col cols IH]; [reflexivity|].
  rewrite fmap_cons, not_elem_of_cons. intros [Hne Hnotin].
  cbn. rewrite decide_False by congruence. now apply IH.
Qed.

Lemma taken_out_unique task src cols csrc :
  NoDup (col_id <$> cols) ->
  column src cols = Some csrc ->
  taken_out task src cols = filter (fun t => id t = id task) (tasks csrc).
Proof.
  induction cols as [|col cols IH]; [discriminate|].
  rewrite fmap_cons, NoDup_cons, column_cons. intros [Hnotin Hnodup].
  unfold taken_out. cbn [fmap list_fmap concat].
  destruct (decide (col_id col = src)) as [<-|Hne].
  - intros [= <-]. fold (taken_out task (col_id col) cols).
    rewrite taken_out_absent by exact Hnotin. apply app_nil_r.
  - intros Hcol. cbn. now apply IH.
Qed.

Lemma put_in_absent task src tgt cols :
  tgt ∉ col_id <$> cols -> put_in task src tgt cols = [].
Proof.
  unfold put_in. induction cols as [|col cols IH]; [reflexivity|].
  rewrite fmap_cons, not_elem_of_cons. intros [Hne Hnotin].
  cbn. rewrite (decide_False (P := col_id col = tgt)) by congruence.
  case_decide; now apply IH.
Qed.

Lemma put_in_unique task src tgt cols :
  NoDup (col_id <$> cols) ->
  src <> tgt ->
  is_Some (column tgt cols) ->
  put_in task src tgt cols = [task].
Proof.
  intros Hnodup Hne. induction cols as [|col cols IH]; [now intros [? ?]|].
  revert Hnodup. rewrite fmap_cons, NoDup_cons, column_cons. intros [Hnotin Hnodup].
  unfold put_in. cbn [fmap list_fmap concat].
  destruct (decide (col_id col = tgt)) as [Htgt|Hntgt].
  - intros _. rewrite decide_False by congruence. rewrite <- Htgt in *.
    fold (put_in task src (col_id col) cols).
    now rewrite put_in_absent by exact Hnotin.
  - intros Hsome. fold (put_in task src tgt cols). rewrite (IH Hnodup Hsome).
    case_decide; reflexivity.
Qed.

(** Among tasks with distinct ids, the filter on the id of [task] finds
    [task] alone, and its complement is the list with [task] cut out. *)
Lemma filter_by_id task (l : list Task) :
  NoDup (id <$> l) ->
  task ∈ l ->
  exists l1 l2,
    l = l1 ++ task :: l2 /\
    filter (fun t => id t = id task) l = [task] /\
    filter (fun t => id t ≠ id task) l = l1 ++ l2.
Proof.
  intros Hnodup Hin. apply list_elem_of_split in Hin as (l1 & l2 & ->).
  exists l1, l2. split; [reflexivity|].
  rewrite fmap_app, fmap_cons in Hnodup.
  apply NoDup_app in Hnodup as (_ & Hdisj & [Hnot2 _]%NoDup_cons).
  assert (H1 : forall t, t ∈ l1 -> id t ≠ id task).
  { intros t Ht Heq. apply (Hdisj (id t)); [now apply list_elem_of_fmap_2|].
    rewrite Heq. now left. }
  assert (H2 : forall t, t ∈ l2 -> id t ≠ id task).
  { intros t Ht Heq. apply Hnot2. rewrite <- Heq. now apply list_elem_of_fmap_2. }
  assert (Hnone : forall l', (forall t, t ∈ l' -> id t ≠ id task) ->
            filter (fun t => id t = id task) l' = [] /\
            filter (fun t => id t ≠ id task) l' = l').
  { induction l' as [|t l' IH]; [now split|]. intros Hall.
    rewrite !filter_cons.
    rewrite decide_False by (apply Hall; now left).
    rewrite decide_True by (apply Hall; now left).
    destruct IH as [-> ->]; [|now split]. intros t' Ht'. apply Hall. now right. }
  destruct (Hnone l1 H1) as [E1 E1']. destruct (Hnone l2 H2) as [E2 E2'].
  rewrite !filter_app, !filter_cons, E1, E1', E2, E2'.
  rewrite decide_True by reflexivity. rewrite decide_False by tauto.
  split; reflexivity.
Qed.

Lemma well_formed_column cols col :
  well_formed cols -> col ∈ cols -> NoDup (id <$> tasks col).
Proof.
  intros [_ Hnodup] Hin. apply list_elem_of_split in Hin as (pre & post & ->).
  unfold all_tasks in Hnodup.
  rewrite fmap_app, fmap_cons, concat_app, concat_cons, !fmap_app in Hnodup.
  apply NoDup_app in Hnodup as (_ & _ & Hnodup).
  now apply NoDup_app in Hnodup as (Hnodup & _ & _).
Qed.

Lemma handleDrop_same_column st task src :
  draggedTask st = Some (task, src) ->
  columns (handleDrop src st) = columns st.
Proof.
  intros Hdrag. unfold handleDrop. rewrite Hdrag.
  now rewrite decide_True by reflexivity.
Qed.

(** The multiset of tasks is kept by a drop. *)
Lemma handleDrop_all_tasks st task src tgt :
  well_formed (columns st) ->
  dragging st task src ->
  is_Some (column tgt (columns st)) ->
  all_tasks (columns (handleDrop tgt st)) ≡ₚ all_tasks (columns st).
Proof.
  intros Hwf (Hdrag & csrc & Hsrc & Hin) Htgt.
  destruct (decide (src = tgt)) as [<-|Hne];
    [now rewrite (handleDrop_same_column st task src Hdrag)|].
  destruct (column_Some _ _ _ Hsrc) as [Hcsrc_in _].
  pose proof (well_formed_column _ _ Hwf Hcsrc_in) as Hids.
  destruct (filter_by_id task (tasks csrc) Hids Hin) as (_ & _ & _ & Hone & _).
  rewrite (handleDrop_columns tgt st task src Hdrag Hne).
  pose proof (drop_balance task src tgt (columns st)) as Hbal.
  destruct Hwf as [Hcols _].
  rewrite (taken_out_unique task src _ csrc Hcols Hsrc), Hone in Hbal.
  rewrite (put_in_unique task src tgt _ Hcols Hne Htgt) in Hbal.
  now apply Permutation_app_inv_r in Hbal.
Qed.

(** The shape the theorem asks of the board is kept by every drop. *)
Lemma handleDrop_well_formed st task src tgt :
  well_formed (columns st) ->
  dragging st task src ->
  is_Some (column tgt (columns st)) ->
  well_formed (columns (handleDrop tgt st)).
Proof.
  intros Hwf Hdrag Htgt.
  pose proof (handleDrop_all_tasks st task src tgt Hwf Hdrag Htgt) as Hperm.
  destruct Hwf as [Hcols Htasks]. destruct Hdrag as [Hdragged _]. split.
  - destruct (decide (src = tgt)) as [<-|Hne];
      [now rewrite (handleDrop_same_column st task src Hdragged)|].
    rewrite (handleDrop_columns tgt st task src Hdragged Hne).
    rewrite <- list_fmap_compose.
    rewrite (list_fmap_ext (col_id ∘ drop_column task src tgt) col_id (columns st)
               (fun _ col _ => drop_column_id task src tgt col)).
    exact Hcols.
  - now rewrite Hperm.
Qed.

(** C10: a drop onto the column the task was dragged from leaves the
    columns as they are.  A drop onto another column cuts the task out of
    its source column, appends it at the end of the target column and
    leaves every other column alone.  Either way the tasks of the board are
    the same multiset as before.  (The board has distinct column ids and
    distinct task ids, the task was picked up from the source column, and
    the target is a column of the board.) *)
Theorem C10_handleDrop_moves_task st task src tgt :
  well_formed (columns st) ->
  dragging st task src ->
  is_Some (column tgt (columns st)) ->
  (src = tgt -> columns (handleDrop tgt st) = columns st) /\
  (src <> tgt ->
   exists csrc ctgt before after,
     column src (columns st) = Some csrc /\
     column tgt (columns st) = Some ctgt /\
     tasks csrc = before ++ task :: after /\
     column src (columns (handleDrop tgt st)) = Some (with_tasks (before ++ after) csrc) /\
     (task ∉ before ++ after) /\
     column tgt (columns (handleDrop tgt st)) = Some (with_tasks (tasks ctgt ++ [task]) ctgt) /\
     (forall cid, cid <> src -> cid <> tgt ->
        column cid (columns (handleDrop tgt st)) = column cid (columns st))) /\
  all_tasks (columns (handleDrop tgt st)) ≡ₚ all_tasks (columns st).
Proof.
  intros Hwf (Hdrag & csrc & Hsrc & Hin) [ctgt Htgt].
  assert (Hsame : src = tgt -> columns (handleDrop tgt st) = columns st).
  { intros <-. now apply (handleDrop_same_column st task). }
  destruct (column_Some _ _ _ Hsrc) as [Hcsrc_in Hcsrc_id].
  destruct (column_Some _ _ _ Htgt) as [Hctgt_in Hctgt_id].
  pose proof (well_formed_column _ _ Hwf Hcsrc_in) as Hids.
  destruct (filter_by_id task (tasks csrc) Hids Hin)
    as (before & after & Hsplit & Hone & Hrest).
  split; [exact Hsame|]. split.
  - intros Hne. exists csrc, ctgt, before, after.
    rewrite (handleDrop_columns tgt st task src Hdrag Hne).
    rewrite !column_fmap by apply drop_column_id.
    rewrite Hsrc, Htgt. cbn [fmap option_fmap option_map].
    unfold drop_column at 1 2.
    rewrite Hcsrc_id, Hctgt_id, decide_True by reflexivity.
    rewrite (decide_False (P := tgt = src)) by congruence.
    rewrite decide_True by reflexivity. rewrite Hrest.
    repeat split; try reflexivity; try assumption.
    + rewrite <- Hrest. rewrite list_elem_of_filter. tauto.
    + intros cid Hcs Hct. rewrite column_fmap by apply drop_column_id.
      destruct (column cid (columns st)) as [col|] eqn:Hcol; [|reflexivity].
      apply column_Some in Hcol as [_ Hid]. cbn. unfold drop_column.
      now rewrite !decide_False by congruence.
  - apply (handleDrop_all_tasks st task src tgt); [exact Hwf| |eauto].
    split; [exact Hdrag|]. now exists csrc.
Qed.

(** A drag that starts on a card of a column gives [handleDrop] the state
    the theorem asks for. *)
Lemma handleDragStart_dragging st task src col :
  column src (columns st) = Some col ->
  task ∈ tasks col ->
  dragging (handleDragStart task src st) task src.
Proof.
  intros Hcol Hin. split; [reflexivity|]. exists col. now split.
Qed.

(** [initialColumns] with task 1 dragged from the backlog and dropped on
    "todo". *)
Lemma C10_handleDrop_moves_task_witness :
  well_formed initialColumns /\
  dragging dragging_task_1 task_1 "backlog" /\
  (fun col => id <$> tasks col) <$> columns (handleDrop "todo" dragging_task_1) =
    [ ["2"; "3"]; ["4"; "5"; "11"; "1"]; ["6"; "7"]; ["8"; "12"]; ["9"; "10"; "13"] ] /\
  all_tasks (columns (handleDrop "todo" dragging_task_1)) ≡ₚ all_tasks initialColumns.
Proof.
  assert (Hwf : well_formed initialColumns).
  { split; refine (bool_decide_unpack _ _); vm_compute; exact I. }
  assert (Hdrag : dragging dragging_task_1 task_1 "backlog").
  { eapply handleDragStart_dragging; [reflexivity|]. now left. }
  split; [exact Hwf|]. split; [exact Hdrag|]. split; [reflexivity|].
  exact (proj2 (proj2 (C10_handleDrop_moves_task dragging_task_1 task_1 "backlog" "todo"
                         Hwf Hdrag (mk_is_Some _ _ eq_refl)))).
Defined.

End KanbanFacts.

(** ** The client store *)

Section BoardStoreFacts.
Import BoardStore.
Local Open Scope Z_scope.

Lemma set_position_twice p q c : set_position p (set_position q c) = set_position p c.
Proof. reflexivity. Qed.

Lemma id_set_position p c : id (set_position p c) = id c.
Proof. reflexivity. Qed.

Lemma renumber_erase (arr : list Card) : renumber (erase <$> arr) = renumber arr.
Proof. unfold renumber. rewrite imap_fmap. apply imap_ext. reflexivity. Qed.

Lemma erase_renumber (arr : list Card) : erase <$> renumber arr = erase <$> arr.
Proof.
  unfold renumber. rewrite fmap_imap. rewrite <- imap_const.
  apply imap_ext. reflexivity.
Qed.

Lemma renumber_up_to_positions (a b : list Card) :
  erase <$> a = erase <$> b -> renumber a = renumber b.
Proof. intros H. now rewrite <- (renumber_erase a), H, renumber_erase. Qed.

Lemma splice_insert_up_to_positions start c (a b : list Card) :
  erase <$> a = erase <$> b ->
  erase <$> splice_insert start c a = erase <$> splice_insert start c b.
Proof.
  intros Hab. assert (Hlen : length a = length b).
  { now rewrite <- (length_fmap erase a), Hab, length_fmap. }
  unfold splice_insert. rewrite Hlen.
  now rewrite !fmap_app, !fmap_cons, !fmap_take, !fmap_drop, Hab.
Qed.

Lemma splice_start_le start len : (splice_start start len <= len)%nat.
Proof. unfold splice_start. case_match; lia. Qed.

Lemma length_renumber arr : length (renumber arr) = length arr.
Proof. apply length_imap. Qed.

Lemma renumber_middle (l1 l2 : list Card) c :
  renumber (l1 ++ c :: l2) =
    renumber l1 ++ set_position (Z.of_nat (length l1)) c
      :: imap (fun index c' => set_position (Z.of_nat (length l1 + S index)) c') l2.
Proof.
  unfold renumber. rewrite imap_app, imap_cons. cbn.
  rewrite Nat.add_0_r. do 2 f_equal.
Qed.

(** Where the moved card sits after the insertion, and what is left when it
    is taken out again. *)
Lemma find_inserted cardId (card : Card) start (arr : list Card) :
  id card = cardId ->
  (forall c, c ∈ arr -> id c ≠ cardId) ->
  let k := splice_start start (length arr) in
  list_find (fun c => id c = cardId) (renumber (splice_insert start card arr))
    = Some (k, set_position (Z.of_nat k) card) /\
  erase <$> delete k (renumber (splice_insert start card arr)) = erase <$> arr /\
  length (delete k (renumber (splice_insert start card arr))) = length arr.
Proof.
  intros Hid Hothers k. unfold splice_insert. fold k.
  pose proof (splice_start_le start (length arr)) as Hk. fold k in Hk.
  assert (Hlen : length (take k arr) = k) by now apply length_take_le.
  rewrite renumber_middle, Hlen.
  assert (Hlen' : length (renumber (take k arr)) = k) by now rewrite length_renumber.
  split; [|split].
  - apply list_find_Some. split; [|split].
    + rewrite lookup_app_r by lia. now rewrite Hlen', Nat.sub_diag.
    + exact Hid.
    + intros j y Hj Hlt. rewrite lookup_app_l in Hj by lia.
      unfold renumber in Hj. apply list_lookup_imap_Some in Hj as (c & Hc & ->).
      rewrite id_set_position. apply Hothers.
      eapply list_elem_of_lookup_2, lookup_take_Some, Hc.
  - rewrite <- Hlen' at 1. rewrite delete_middle.
    rewrite fmap_app, erase_renumber, fmap_imap.
    rewrite (imap_ext _ (const erase)) by reflexivity.
    rewrite imap_const, <- fmap_app. now rewrite take_drop.
  - rewrite <- Hlen' at 1. rewrite delete_middle.
    rewrite length_app, length_renumber, length_imap, <- length_app.
    now rewrite take_drop.
Qed.

Lemma cards_get_set l v m : cards_get l (cards_set l v m) = Some v.
Proof.
  induction m as [|[k v0] m IH]; cbn.
  - now rewrite decide_True.
  - destruct (decide (k = l)); cbn; [now rewrite decide_True|].
    now rewrite decide_False.
Qed.

Lemma cards_set_set l v w m : cards_set l v (cards_set l w m) = cards_set l v m.
Proof.
  induction m as [|[k v0] m IH]; cbn.
  - now rewrite decide_True.
  - destruct (decide (k = l)); cbn; [now rewrite decide_True|].
    rewrite decide_False by assumption. now rewrite IH.
Qed.

Lemma cards_get_Some l m arr : cards_get l m = Some arr -> (l, arr) ∈ m.
Proof.
  induction m as [|[k v0] m IH]; cbn; [discriminate|].
  destruct (decide (k = l)) as [->|].
  - intros [= ->]. now left.
  - intros H. right. now apply IH.
Qed.

Lemma all_cards_elem (m : CardsByList) l arr c :
  (l, arr) ∈ m -> c ∈ arr -> c ∈ all_cards m.
Proof.
  intros Hin Hc. unfold all_cards. induction m as [|kv m IH]; [now apply elem_of_nil in Hin|].
  cbn. apply elem_of_app. apply elem_of_cons in Hin as [<-|Hin]; [now left|].
  right. now apply IH.
Qed.

(** Giving a missing key an empty array adds no card. *)
Lemma all_cards_set_empty l m : cards_get l m = None -> all_cards (cards_set l [] m) = all_cards m.
Proof.
  unfold all_cards. induction m as [|[k v0] m IH]; cbn; [reflexivity|].
  destruct (decide (k = l)); [discriminate|]. intros H. cbn. now rewrite IH.
Qed.

(** What [take_out] finds: a card with the id asked for, cut out of the
    cards of the store; the keys stay. *)
Lemma take_out_Some cardId m card m1 :
  take_out cardId m = (Some card, m1) ->
  id card = cardId /\
  exists pre post, all_cards m = pre ++ card :: post /\ all_cards m1 = pre ++ post.
Proof.
  revert m1. induction m as [|[k arr] m IH]; intros m1; cbn; [discriminate|].
  destruct (list_find (fun c => id c = cardId) arr) as [[index c]|] eqn:Hfind.
  - intros [= -> <-]. apply list_find_Some in Hfind as (Hlookup & Hid & _).
    split; [exact Hid|].
    exists (take index arr), (drop (S index) arr ++ all_cards m).
    unfold all_cards. cbn. rewrite delete_take_drop, <- !app_assoc.
    split; [|reflexivity].
    now rewrite <- (take_drop_middle arr index card Hlookup) at 1; rewrite <- app_assoc.
  - destruct (take_out cardId m) as [found m'] eqn:Hrec.
    intros [= -> <-]. destruct (IH m' eq_refl) as (Hid & pre & post & Hm & Hm').
    split; [exact Hid|]. exists (arr ++ pre), post.
    unfold all_cards in *. cbn. rewrite Hm, Hm'. now rewrite <- !app_assoc.
Qed.

Lemma take_out_None cardId m m1 :
  take_out cardId m = (None, m1) -> m1 = m.
Proof.
  revert m1. induction m as [|[k arr] m IH]; intros m1; cbn; [now intros [= <-]|].
  destruct (list_find (fun c => id c = cardId) arr) as [[index c]|]; [discriminate|].
  destruct (take_out cardId m) as [found m'] eqn:Hrec.
  intros [= -> <-]. now rewrite (IH m' eq_refl).
Qed.

(** Taking the card out of a store whose only card with that id sits in the
    array of [l]. *)
Lemma take_out_cards_set cardId l arr m index card :
  (forall c, c ∈ all_cards m -> id c ≠ cardId) ->
  list_find (fun c => id c = cardId) arr = Some (index, card) ->
  take_out cardId (cards_set l arr m) = (Some card, cards_set l (delete index arr) m).
Proof.
  intros Hothers Hfind. induction m as [|[k v0] m IH]; cbn.
  - now rewrite Hfind.
  - destruct (decide (k = l)) as [->|Hne]; cbn; [now rewrite Hfind|].
    destruct (list_find (fun c => id c = cardId) v0) as [[j c]|] eqn:Hv0.
    + apply list_find_Some in Hv0 as (Hj & Hid & _). exfalso.
      apply (Hothers c); [|exact Hid]. unfold all_cards. cbn.
      apply elem_of_app. left. eapply list_elem_of_lookup_2, Hj.
    + rewrite IH; [reflexivity|].
      intros c Hc. apply Hothers. unfold all_cards. cbn.
      apply elem_of_app. now right.
Qed.

(** With distinct card ids, a second [moveCard] with the same arguments
    finds the card where the first one put it, takes it out and puts it
    back: the store does not change. *)
Lemma moveCard_twice cardId newListId newPosition state :
  NoDup (id <$> all_cards (cards state)) ->
  moveCard cardId newListId newPosition (moveCard cardId newListId newPosition state)
  = moveCard cardId newListId newPosition state.
Proof.
  intros Hnodup. unfold moveCard at 2 3.
  destruct (take_out cardId (cards state)) as [[card|] cards1] eqn:Htake.
  2:{ unfold moveCard. now rewrite Htake. }
  apply take_out_Some in Htake as (Hid & pre & post & Hall & Hall1).
  assert (Hothers1 : forall c, c ∈ all_cards cards1 -> id c ≠ cardId).
  { intros c Hc Heq. rewrite Hall, fmap_app, fmap_cons in Hnodup.
    apply NoDup_app in Hnodup as (_ & Hdisj & [Hpost _]%NoDup_cons).
    rewrite Hall1 in Hc. apply elem_of_app in Hc as [Hc|Hc].
    - apply (Hdisj (id c)); [now apply list_elem_of_fmap_2|].
      rewrite Heq, Hid. now left.
    - apply Hpost. rewrite Hid, <- Heq. now apply list_elem_of_fmap_2. }
  set (card' := set_position newPosition (set_listId newListId card)).
  set (cards2 := match cards_get newListId cards1 with
                 | Some _ => cards1
                 | None => cards_set newListId [] cards1
                 end).
  set (arr := default [] (cards_get newListId cards2)).
  assert (Hothers2 : forall c, c ∈ all_cards cards2 -> id c ≠ cardId).
  { subst cards2. destruct (cards_get newListId cards1) eqn:Hget; [exact Hothers1|].
    now rewrite all_cards_set_empty. }
  assert (Harr : forall c, c ∈ arr -> id c ≠ cardId).
  { subst arr. destruct (cards_get newListId cards2) as [a|] eqn:Hget;
      [|intros c Hc; now apply elem_of_nil in Hc].
    intros c Hc. apply Hothers2.
    exact (all_cards_elem _ _ _ _ (cards_get_Some _ _ _ Hget) Hc). }
  assert (Hid' : id card' = cardId) by exact Hid.
  destruct (find_inserted cardId card' newPosition arr Hid' Harr)
    as (Hfind & Herase & Hlen).
  unfold moveCard. cbn [cards lists].
  rewrite (take_out_cards_set cardId newListId _ cards2 _ _ Hothers2 Hfind).
  rewrite !cards_get_set. cbn [default].
  rewrite cards_set_set. do 2 f_equal.
  apply renumber_up_to_positions.
  change (set_position newPosition (set_listId newListId (set_position _ card')))
    with card'.
  now apply splice_insert_up_to_positions.
Qed.

(** The card a [card:moved] event names, once found, is always put where
    the event says: nothing about the event can make the client skip it. *)
Lemma moveCard_applies cardId newListId newPosition state card rest :
  unique_ids state ->
  take_out cardId (cards state) = (Some card, rest) ->
  exists arr index,
    cards_get newListId (cards (moveCard cardId newListId newPosition state)) = Some arr /\
    arr !! index =
      Some (set_position (Z.of_nat index) (set_listId newListId card)).
Proof.
  intros Hnodup Htake. unfold moveCard. rewrite Htake. cbn [cards].
  rewrite cards_get_set.
  set (arr := default [] _).
  exists (renumber (splice_insert newPosition
                      (set_position newPosition (set_listId newListId card)) arr)),
         (splice_start newPosition (length arr)).
  split; [reflexivity|].
  unfold splice_insert.
  pose proof (splice_start_le newPosition (length arr)) as Hk.
  assert (Hlen : length (take (splice_start newPosition (length arr)) arr)
                 = splice_start newPosition (length arr)) by now apply length_take_le.
  rewrite renumber_middle, Hlen, lookup_app_r by (rewrite length_renumber; lia).
  now rewrite length_renumber, Hlen, Nat.sub_diag.
Qed.

(** C9 (amended): when every card id occurs at most once in the store,
    applying the same [card:moved] event twice leaves the store that
    applying it once leaves.  The client holds no version: a repeated event
    is applied again (the card is taken out and inserted at the same
    index), and an event whose card is in the store is never skipped. *)
Theorem C9_card_moved_twice data state :
  unique_ids state ->
  on_card_moved data (on_card_moved data state) = on_card_moved data state /\
  (forall card rest,
      take_out (Realtime.cardId data) (cards state) = (Some card, rest) ->
      exists arr index,
        cards_get (Realtime.destListId data) (cards (on_card_moved data state)) = Some arr /\
        arr !! index =
          Some (set_position (Z.of_nat index)
                  (set_listId (Realtime.destListId data) card))).
Proof.
  intros Hunique. split.
  - now apply moveCard_twice.
  - intros card rest. now apply moveCard_applies.
Qed.

(** The amended C9 on the sample store. *)
Lemma C9_card_moved_twice_witness :
  unique_ids sample_store /\
  on_card_moved moved_A (on_card_moved moved_A sample_store)
    = on_card_moved moved_A sample_store /\
  layout (on_card_moved moved_A sample_store) =
    [ ("clist00001", [ ("ccard0000B", 1); ("ccard0000C", 2) ]);
      ("clist00002", [ ("ccard0000A", 0); ("ccard0000D", 1) ]) ].
Proof.
  assert (Hunique : unique_ids sample_store).
  { refine (bool_decide_unpack _ _). vm_compute. exact I. }
  split; [exact Hunique|].
  split; [exact (proj1 (C9_card_moved_twice moved_A sample_store Hunique))|].
  reflexivity.
Defined.

(** C9, as stated, fails on a store that holds card A twice: the second
    application of the same event finds the other copy and moves it too, so
    the store after two applications differs from the store after one. *)
Lemma C9_card_moved_twice_differs :
  layout (on_card_moved moved_A store_with_duplicate) =
    [ ("clist00001", [ ("ccard0000B", 1); ("ccard0000C", 2); ("ccard0000A", 0) ]);
      ("clist00002", [ ("ccard0000A", 0); ("ccard0000D", 1) ]) ] /\
  layout (on_card_moved moved_A (on_card_moved moved_A store_with_duplicate)) =
    [ ("clist00001", [ ("ccard0000B", 1); ("ccard0000C", 2) ]);
      ("clist00002", [ ("ccard0000A", 0); ("ccard0000A", 1); ("ccard0000D", 2) ]) ] /\
  on_card_moved moved_A (on_card_moved moved_A store_with_duplicate)
    <> on_card_moved moved_A store_with_duplicate.
Proof.
  split; [reflexivity|]. split; [reflexivity|].
  intros Heq. apply (f_equal layout) in Heq. vm_compute in Heq. discriminate.
Qed.

End BoardStoreFacts.

(** ** The realtime server *)

Section RealtimeFacts.
Import Realtime.
#[local] Set Warnings "-clear-no-such-hyp".

Lemma room_members_join s r r' io :
  room_members r' (socket_join s r io) =
    if decide (r = r') then {[s]} ∪ room_members r io else room_members r' io.
Proof.
  unfold room_members at 1, socket_join. cbn [rooms].
  rewrite lookup_insert. case_decide; reflexivity.
Qed.

Lemma room_members_leave s r r' io :
  room_members r' (socket_leave s r io) =
    if decide (r = r') then room_members r io ∖ {[s]} else room_members r' io.
Proof.
  unfold room_members at 1, socket_leave. cbn [rooms].
  destruct (decide (room_members r io ∖ {[s]} = ∅)) as [Hempty|Hne].
  - rewrite lookup_delete. case_decide; [now rewrite Hempty|reflexivity].
  - rewrite lookup_insert. case_decide; reflexivity.
Qed.

Lemma room_members_leave_all s r rs io :
  room_members r (foldr (socket_leave s) io rs) =
    if decide (r ∈ rs) then room_members r io ∖ {[s]} else room_members r io.
Proof.
  induction rs as [|r0 rs IH]; cbn [foldr].
  - rewrite decide_False by apply not_elem_of_nil. reflexivity.
  - rewrite room_members_leave. destruct (decide (r0 = r)) as [->|Hne].
    + rewrite IH, (decide_True (P := r ∈ r :: rs)) by now left.
      case_decide; set_solver.
    + rewrite IH. repeat case_decide; try reflexivity; set_solver.
Qed.

Lemma elem_of_socket_rooms s r io :
  r ∈ socket_rooms s io <-> s ∈ room_members r io.
Proof.
  unfold socket_rooms, room_members.
  rewrite list_elem_of_fmap. split.
  - intros ([r' members] & -> & Hin). apply elem_of_map_to_list in Hin.
    apply map_lookup_filter_Some in Hin as [Hlookup Hs]. cbn in *.
    now rewrite Hlookup.
  - intros Hs. destruct (rooms io !! r) as [members|] eqn:Hlookup; [|set_solver].
    exists (r, members). split; [reflexivity|].
    apply elem_of_map_to_list, map_lookup_filter_Some. now split.
Qed.

(** After a disconnect the socket is in no room and the others stay. *)
Lemma room_members_disconnect s r io :
  room_members r (on_disconnect s io).1 = room_members r io ∖ {[s]}.
Proof.
  unfold on_disconnect. cbn [fst]. unfold room_members at 1. cbn [rooms].
  fold (room_members r (foldr (socket_leave s) io (socket_rooms s io))).
  rewrite room_members_leave_all. case_decide as Hr; [reflexivity|].
  rewrite elem_of_socket_rooms in Hr. set_solver.
Qed.

Lemma board_room_inj b b' : board_room b = board_room b' -> b = b'.
Proof. unfold board_room. intros Heq. simpl in Heq. now injection Heq. Qed.

Lemma board_room_prefix b : String.prefix "board:" (board_room b) = true.
Proof. unfold board_room. simpl. now destruct b. Qed.

(** One step of the server against one step of the reading of the
    history. *)
Lemma step_verdict st io t b :
  socket_id_ok st = true ->
  t ∈ room_members (board_room b) (step st io).1 <->
  match verdict st t b with
  | Some v => v = true
  | None => t ∈ room_members (board_room b) io
  end.
Proof.
  intros Hok. destruct st as [s u|s [b'|b'|b' data]|s]; cbn [step verdict].
  - unfold on_connection. cbn [fst]. rewrite room_members_join.
    destruct (decide (s = board_room b)) as [->|Hne]; [|reflexivity].
    cbn in Hok. now rewrite board_room_prefix in Hok.
  - cbn [on_event fst]. rewrite room_members_join.
    destruct (decide (board_room b' = board_room b)) as [Heq|Hne].
    + apply board_room_inj in Heq as ->.
      destruct (decide (s = t /\ b = b)) as [[-> _]|Hn]; [set_solver|].
      assert (s <> t) by tauto. set_solver.
    + rewrite decide_False; [reflexivity|]. intros [_ ->]. contradiction.
  - cbn [on_event fst]. rewrite room_members_leave.
    destruct (decide (board_room b' = board_room b)) as [Heq|Hne].
    + apply board_room_inj in Heq as ->.
      destruct (decide (s = t /\ b = b)) as [[-> _]|Hn]; [set_solver|].
      assert (s <> t) by tauto. set_solver.
    + rewrite decide_False; [reflexivity|]. intros [_ ->]. contradiction.
  - reflexivity.
  - rewrite room_members_disconnect.
    destruct (decide (s = t)) as [->|Hne]; set_solver.
Qed.

Lemma run_snoc history st io : run (history ++ [st]) io = (step st (run history io)).1.
Proof. unfold run. now rewrite foldl_app. Qed.

(** The rooms of the server are what the history says. *)
Lemma room_members_history history t b :
  socket_ids_ok history = true ->
  t ∈ room_members (board_room b) (run history io_empty) <->
  currently_joined history t b = true.
Proof.
  unfold currently_joined, socket_ids_ok.
  induction history as [|st history IH] using rev_ind.
  - intros _. cbn. unfold room_members. cbn. rewrite lookup_empty. cbn. set_solver.
  - rewrite forallb_app, andb_true_iff. cbn [forallb]. rewrite andb_true_r.
    intros [Hhist Hst]. rewrite run_snoc, reverse_snoc. cbn [latest_verdict].
    rewrite step_verdict by exact Hst.
    destruct (verdict st t b) as [v|]; [reflexivity|]. now apply IH.
Qed.

(** The recipients of a [card:moved] relay, from the rooms of the server. *)
Lemma card_moved_emissions io s boardId data :
  (on_event s (CardMoved boardId data) io).1 = io /\
  NoDup (on_event s (CardMoved boardId data) io).2 /\
  forall t ev,
    (t, ev) ∈ (on_event s (CardMoved boardId data) io).2 <->
    ev = CardMovedTo data /\ t ∈ room_members (board_room boardId) io /\ t <> s.
Proof.
  cbn [on_event fst snd]. unfold socket_to_emit. split; [reflexivity|]. split.
  - apply NoDup_fmap_2; [|apply NoDup_elements].
    intros t t' [= ->]. reflexivity.
  - intros t ev. rewrite list_elem_of_fmap. split.
    + intros (t' & [= -> ->] & Hin). apply elem_of_elements in Hin. set_solver.
    + intros (-> & Hin & Hne). exists t. split; [reflexivity|].
      apply elem_of_elements. set_solver.
Qed.

(** C8: relaying a [card:moved] event for a board changes nothing at the
    server and delivers the event once to every socket that is joined to
    the room of that board, the sender excepted, and to no other socket.
    Joined means: the latest of the socket's joins and leaves of that board
    is a join, and it has not disconnected since. *)
Theorem C8_publish_reaches_room history s boardId data :
  socket_ids_ok history = true ->
  (on_event s (CardMoved boardId data) (run history io_empty)).1 = run history io_empty /\
  NoDup (on_event s (CardMoved boardId data) (run history io_empty)).2 /\
  forall t ev,
    (t, ev) ∈ (on_event s (CardMoved boardId data) (run history io_empty)).2 <->
    ev = CardMovedTo data /\ currently_joined history t boardId = true /\ t <> s.
Proof.
  intros Hok.
  destruct (card_moved_emissions (run history io_empty) s boardId data)
    as (Hstate & Hnodup & Hto).
  split; [exact Hstate|]. split; [exact Hnodup|].
  intros t ev. rewrite Hto, (room_members_history history t boardId Hok). reflexivity.
Qed.

(** On the sample history, [s1] relays a move on board [b1]: [s4] receives
    it; [s2] has left, [s3] is in another room, [s1] is the sender. *)
Lemma C8_publish_reaches_room_witness :
  socket_ids_ok sample_history = true /\
  (on_event "s1" (CardMoved "b1" sample_moved) (run sample_history io_empty)).2
    = [ ("s4", CardMovedTo sample_moved) ] /\
  (forall t ev,
    (t, ev) ∈ (on_event "s1" (CardMoved "b1" sample_moved) (run sample_history io_empty)).2 <->
    ev = CardMovedTo sample_moved /\ currently_joined sample_history t "b1" = true /\ t <> "s1").
Proof.
  split; [reflexivity|]. split; [vm_compute; reflexivity|].
  exact (proj2 (proj2 (C8_publish_reaches_room sample_history "s1" "b1" sample_moved
                         eq_refl))).
Defined.

End RealtimeFacts.

(** * Further properties of the code *)

Ltac compute_decision := refine (bool_decide_unpack _ _); vm_compute; exact I.

(** ** The card routes: who may write, what a write touches *)

Section RouteFacts.
Import Server.
Local Open Scope Z_scope.

(** A row whose position a shift leaves alone is not written at all. *)
Lemma shifted_unchanged now src p dest q c :
  position (shifted now src p dest q c) = position c ->
  shifted now src p dest q c = c.
Proof.
  destruct (decide (src = dest)) as [<-|Hcross]; [|now apply shifted_cross_unchanged].
  unfold shifted. rewrite decide_True by reflexivity.
  repeat case_match; try reflexivity; cbn; lia.
Qed.

(** A handler that leaves the store as it found it. *)
Ltac no_change :=
  unfold respond; cbn [answer snd]; intros Hne; exfalso; now apply Hne.

Lemma PATCH_changes_authorized faults cuid session id body now db :
  (run_handler (PATCH faults cuid session id body now) db).2 <> db ->
  authorized (MoveCard session id body now) db.
Proof.
  unfold PATCH, run_handler. destruct session as [uid|]; [|no_change].
  unfold moveCardSchema_parse.
  destruct (cuid (destinationListId body) && (0 <=? newPosition body)); [|no_change].
  rewrite h_bind_answer, await_answer. unfold call at 1, card_findUnique at 1.
  destruct (faults 0%nat); [no_change|].
  destruct (cards db !! id) as [c|] eqn:Hc; [|no_change].
  rewrite h_bind_answer. unfold branch at 1. cbn [answer].
  destruct (lists db !! listId c) as [l|] eqn:Hl; [|no_change].
  unfold board_members_of.
  destruct (decide ((boardId l, uid) ∈ boardMembers db)) as [Hm|Hm].
  - intros _. exists uid, c, l. auto.
  - rewrite decide_True by reflexivity. no_change.
Qed.

Lemma POST_changes_authorized faults cuid datetime url session body newId now db :
  (run_handler (POST faults cuid datetime url session body newId now) db).2 <> db ->
  authorized (CreateCard session body newId now) db.
Proof.
  unfold POST, run_handler. destruct session as [uid|]; [|no_change].
  destruct (createCardSchema_parse cuid datetime url body) as [validatedData|] eqn:Hparse;
    [|no_change].
  assert (validatedData = body) as ->.
  { unfold createCardSchema_parse in Hparse.
    destruct (_ && _) in Hparse; congruence. }
  rewrite h_bind_answer, await_answer. unfold call at 1.
  destruct (faults 0%nat); [no_change|].
  destruct (lists db !! new_listId body) as [l|] eqn:Hl; [|no_change].
  rewrite h_bind_answer. unfold branch at 1. cbn [answer].
  unfold board_members_of.
  destruct (decide ((boardId l, uid) ∈ boardMembers db)) as [Hm|Hm].
  - intros _. exists uid, l. auto.
  - rewrite decide_True by reflexivity. no_change.
Qed.

(** X1: the two card routes write to the store only for a signed-in
    member of the board that owns the list the handler reads: the list
    named in the body of a creation, the list that holds the card for a
    move.  Every other request (no session, an unknown card or list, a
    user who is not a member) leaves the store exactly as it was, whatever
    Prisma call is rejected. *)
Theorem X1_writes_need_membership faults cuid datetime url op db :
  commit faults cuid datetime url op db <> db ->
  authorized op db.
Proof.
  destruct op as [session body newId now|session id body now]; unfold commit.
  - apply POST_changes_authorized.
  - apply PATCH_changes_authorized.
Qed.

Lemma X1_writes_need_membership_witness :
  sample_commit (move_to "ccard0000A" "clist00002" 0) sample_db <> sample_db /\
  authorized (move_to "ccard0000A" "clist00002" 0) sample_db.
Proof.
  assert (Hchanged : sample_commit (move_to "ccard0000A" "clist00002" 0) sample_db
                     <> sample_db).
  { intros Heq. apply (f_equal positions) in Heq. vm_compute in Heq. discriminate. }
  split; [exact Hchanged|].
  exact (X1_writes_need_membership no_faults zod_cuid no_format no_format
           (move_to "ccard0000A" "clist00002" 0) sample_db Hchanged).
Defined.

(** X2: the move route checks membership of the board of the source list
    only.  A member of the board that holds the card can move it into any
    existing list, also a list of a board of which the user is not a
    member: when no call is rejected, the new position fits the [Int]
    column (it is below 2^31) and the stored positions leave room for a
    shift by one, the request commits with status 200 and the card is
    stored in that list. *)
Theorem X2_move_ignores_destination_board faults cuid uid id body now db c l l' :
  (forall k, faults k = false) ->
  cuid (destinationListId body) = true ->
  0 <= newPosition body ->
  newPosition body < 2 ^ 31 ->
  headroom db ->
  cards db !! id = Some c ->
  lists db !! listId c = Some l ->
  (boardId l, uid) ∈ boardMembers db ->
  lists db !! destinationListId body = Some l' ->
  (boardId l', uid) ∉ boardMembers db ->
  exists c',
    run_handler (PATCH faults cuid (Some uid) id body now) db
      = (CardJson 200 (Some (id, c')),
         committed_move uid id c (destinationListId body) (newPosition body) now db) /\
    cards (committed_move uid id c (destinationListId body) (newPosition body) now db) !! id
      = Some c' /\
    lists db !! listId c' = Some l' /\
    (boardId l', uid) ∉ boardMembers db.
Proof.
  intros Hfaults Hcuid Hq Hq' Hroom Hc Hl Hmember Hdest Hforeign.
  exists (moved now (destinationListId body) (newPosition body) c).
  split; [|split; [|split]].
  - apply (PATCH_commits faults cuid uid id body now db c l); eauto.
  - rewrite committed_move_lookup. now rewrite decide_True.
  - exact Hdest.
  - exact Hforeign.
Qed.

Lemma X2_move_ignores_destination_board_witness :
  exists c',
    cards (sample_PATCH no_faults "ccard0000A" "clist00003" 0 two_board_db).2 !! "ccard0000A"
      = Some c' /\
    status_of (sample_PATCH no_faults "ccard0000A" "clist00003" 0 two_board_db).1 = 200 /\
    boardId <$> lists two_board_db !! listId c' = Some "cboard0002" /\
    ("cboard0002", "cuser00001") ∉ boardMembers two_board_db.
Proof.
  assert (Hforeign : ("cboard0002", "cuser00001") ∉ boardMembers two_board_db)
    by compute_decision.
  destruct (X2_move_ignores_destination_board no_faults zod_cuid "cuser00001" "ccard0000A"
              {| destinationListId := "clist00003"; newPosition := 0 |} 7 two_board_db
              (sample_card "A" "clist00001" 0)
              {| list_title := "To Do"; boardId := "cboard0001" |}
              {| list_title := "Elsewhere"; boardId := "cboard0002" |}
              ltac:(reflexivity) ltac:(reflexivity) ltac:(reflexivity)
              ltac:(reflexivity) ltac:(compute_decision)
              ltac:(reflexivity) ltac:(reflexivity) ltac:(compute_decision)
              ltac:(reflexivity) Hforeign)
    as (c' & Hrun & Hstored & Hlist & _).
  exists c'. unfold sample_PATCH. rewrite Hrun. cbn [fst snd status_of].
  split; [exact Hstored|]. split; [reflexivity|]. split; [|exact Hforeign].
  now rewrite Hlist.
Defined.

(** The position a parsed body asks for, or the count that stands in for
    it, is not negative. *)
Lemma created_position_nonneg cuid datetime url body db :
  createCardSchema_parse cuid datetime url body = Some body ->
  0 <= created_position body db.
Proof.
  unfold createCardSchema_parse, created_position, card_count.
  destruct (new_position body) as [p|]; [|lia].
  destruct (0 <=? p) eqn:Hp; [intros _; now apply Z.leb_le|].
  now rewrite !andb_false_r.
Qed.

(** X3: a card creation is not atomic.  When the card row is inserted and
    the activity record that follows is rejected, the handler answers 500
    while the card stays in the store, and no activity is recorded.  The
    row is inserted when its position, the one of the body or else the
    count of the cards of the list, fits the [Int] column (it is below
    2^31). *)
Theorem X3_create_survives_failed_activity faults cuid datetime url uid body newId now db l :
  faults 0%nat = false -> faults 1%nat = false -> faults 2%nat = false ->
  faults 3%nat = true ->
  createCardSchema_parse cuid datetime url body = Some body ->
  created_position body db < 2 ^ 31 ->
  lists db !! new_listId body = Some l ->
  (boardId l, uid) ∈ boardMembers db ->
  cards db !! newId = None ->
  run_handler (POST faults cuid datetime url (Some uid) body newId now) db =
    (internal_error,
     with_cards (<[newId := created body (created_position body db) now]> (cards db)) db) /\
  activities (run_handler (POST faults cuid datetime url (Some uid) body newId now) db).2
    = activities db.
Proof.
  intros Hf0 Hf1 Hf2 Hf3 Hparse Hfits Hl Hmember Hfresh.
  assert (Hpos : int4 (created_position body db) = true).
  { pose proof (created_position_nonneg cuid datetime url body db Hparse).
    unfold int4. apply andb_true_iff. rewrite Z.leb_le, Z.ltb_lt. lia. }
  assert (Hrun :
    run_handler (POST faults cuid datetime url (Some uid) body newId now) db =
      (internal_error,
       with_cards (<[newId := created body (created_position body db) now]> (cards db)) db)).
  { revert Hpos. unfold POST, run_handler. rewrite Hparse.
    rewrite h_bind_answer, await_answer. unfold call at 1.
    rewrite Hf0, Hl.
    rewrite h_bind_answer. unfold branch at 1. cbn [answer]. unfold board_members_of.
    destruct (decide ((boardId l, uid) ∈ boardMembers db)) as [_|Hn]; [|contradiction].
    rewrite decide_False by discriminate.
    rewrite h_bind_answer. unfold created_position.
    destruct (new_position body) as [p|];
      [unfold branch at 1; cbn [answer]|rewrite await_answer; unfold call at 1; rewrite Hf1].
    all: intros Hpos.
    all: rewrite h_bind_answer, await_answer; unfold call at 1, card_create.
    all: rewrite Hf2; cbn [listId position]; rewrite Hpos, Hfresh, Hl.
    all: rewrite h_bind_answer, await_answer; unfold call; rewrite Hf3.
    all: reflexivity. }
  split; [exact Hrun|]. now rewrite Hrun.
Qed.

Lemma X3_create_survives_failed_activity_witness :
  run_handler (POST activity_fault zod_cuid no_format no_format (Some "cuser00001")
                 (new_card_body None) "ccard0000E" 7) sample_db =
    (internal_error,
     with_cards (<["ccard0000E" := created (new_card_body None) 3 7]> (cards sample_db))
       sample_db).
Proof.
  exact (proj1 (X3_create_survives_failed_activity activity_fault zod_cuid no_format
                  no_format "cuser00001" (new_card_body None) "ccard0000E" 7 sample_db
                  {| list_title := "To Do"; boardId := "cboard0001" |}
                  eq_refl eq_refl eq_refl eq_refl eq_refl ltac:(vm_compute; reflexivity)
                  eq_refl ltac:(compute_decision) eq_refl)).
Defined.

(** X4: a committed move within one list rewrites exactly the cards
    between the old and the new position.  Every other card keeps its list;
    a card of that list strictly behind the old position and up to the new
    one drops by one, a card from the new position up to just before the old
    one rises by one, and every other card is left unchanged altogether. *)
Theorem X4_same_list_move_frame faults cuid session id body now db r db' c :
  run_handler (PATCH faults cuid session id body now) db = (r, db') ->
  status_of r = 200 ->
  cards db !! id = Some c ->
  listId c = destinationListId body ->
  forall j, j <> id ->
    match cards db !! j with
    | None => cards db' !! j = None
    | Some cj =>
        exists cj', cards db' !! j = Some cj' /\
          listId cj' = listId cj /\
          position cj' =
            (if decide (listId cj = listId c /\
                        position c < position cj <= newPosition body)
             then position cj - 1
             else if decide (listId cj = listId c /\
                             newPosition body <= position cj < position c)
                  then position cj + 1
                  else position cj) /\
          (position cj' = position cj -> cj' = cj)
    end.
Proof.
  intros Hrun Hok Hc Hsame j Hj.
  apply PATCH_outcome in Hrun as [[_ Hne]|(uid & c' & _ & Hc' & _ & _ & -> & _)];
    [contradiction|].
  assert (c' = c) as -> by congruence.
  rewrite committed_move_lookup, decide_False by congruence.
  destruct (cards db !! j) as [cj|]; [|reflexivity].
  eexists; split; [reflexivity|].
  split; [apply shifted_listId|].
  split; [|apply shifted_unchanged].
  rewrite shifted_position. rewrite decide_True by exact Hsame.
  repeat case_decide; try reflexivity; try lia; try tauto;
    destruct_and?; congruence.
Qed.

Lemma X4_same_list_move_frame_witness :
  exists cA cB,
    cards (sample_PATCH no_faults "ccard0000C" "clist00001" 0 sample_db).2 !! "ccard0000A"
      = Some cA /\
    cards (sample_PATCH no_faults "ccard0000C" "clist00001" 0 sample_db).2 !! "ccard0000B"
      = Some cB /\
    position cA = 1 /\ position cB = 2.
Proof.
  pose proof (X4_same_list_move_frame no_faults zod_cuid (Some "cuser00001")
                "ccard0000C" {| destinationListId := "clist00001"; newPosition := 0 |} 7
                sample_db
                (sample_PATCH no_faults "ccard0000C" "clist00001" 0 sample_db).1
                (sample_PATCH no_faults "ccard0000C" "clist00001" 0 sample_db).2
                (sample_card "C" "clist00001" 2)
                ltac:(vm_compute; reflexivity) ltac:(reflexivity)
                ltac:(reflexivity) ltac:(reflexivity)) as Hframe.
  pose proof (Hframe "ccard0000A" ltac:(discriminate)) as HA.
  pose proof (Hframe "ccard0000B" ltac:(discriminate)) as HB.
  change (cards sample_db !! "ccard0000A")
    with (Some (sample_card "A" "clist00001" 0)) in HA.
  change (cards sample_db !! "ccard0000B")
    with (Some (sample_card "B" "clist00001" 1)) in HB.
  destruct HA as (cA & HlookA & _ & HposA & _).
  destruct HB as (cB & HlookB & _ & HposB & _).
  exists cA, cB. split; [exact HlookA|]. split; [exact HlookB|].
  rewrite HposA, HposB. split; reflexivity.
Defined.

(** Moving the card back over the siblings its move shifted. *)
Lemma committed_move_back uid uid' id c dest q now now' db :
  order_invariant db ->
  cards db !! id = Some c ->
  placement (committed_move uid' id (moved now dest q c) (listId c) (position c) now'
               (committed_move uid id c dest q now db))
  = placement db.
Proof.
  intros Hinv Hc. apply map_eq. intros j. unfold placement.
  rewrite !lookup_fmap, committed_move_lookup.
  destruct (decide (id = j)) as [<-|Hj].
  - rewrite Hc. reflexivity.
  - rewrite committed_move_lookup, decide_False by exact Hj.
    destruct (cards db !! j) as [cj|] eqn:Hcj; [|reflexivity].
    cbn [fmap option_fmap option_map]. f_equal.
    rewrite !shifted_listId, !shifted_position, !shifted_listId.
    cbn [moved listId position set_updatedAt set_position set_listId].
    pose proof (Hinv _ _ Hc _ _ Hcj) as Hdistinct.
    f_equal.
    repeat case_decide; try reflexivity; try lia; try congruence;
      exfalso; apply Hj, Hdistinct; solve [congruence | lia].
Qed.

(** X5: a move is undone by the move back.  In a store where no two
    cards of a list share a position, a committed move of a card followed
    by a committed move of the same card to its old list and position puts
    every card of the store back in its list at its position. *)
Theorem X5_move_back_restores faults faults' cuid session session' id body now now'
    db r1 db1 r2 db2 c :
  order_invariant db ->
  cards db !! id = Some c ->
  run_handler (PATCH faults cuid session id body now) db = (r1, db1) ->
  status_of r1 = 200 ->
  run_handler (PATCH faults' cuid session' id
                 {| destinationListId := listId c; newPosition := position c |} now') db1
    = (r2, db2) ->
  status_of r2 = 200 ->
  placement db2 = placement db.
Proof.
  intros Hinv Hc Hrun1 Hok1 Hrun2 Hok2.
  apply PATCH_outcome in Hrun1 as [[_ Hne]|(uid & c0 & _ & Hc0 & _ & _ & -> & _)];
    [contradiction|].
  assert (c0 = c) as -> by congruence.
  apply PATCH_outcome in Hrun2 as [[_ Hne]|(uid' & c1 & _ & Hc1 & _ & _ & -> & _)];
    [contradiction|].
  rewrite committed_move_lookup, decide_True in Hc1 by reflexivity.
  injection Hc1 as <-. cbn [destinationListId newPosition].
  now apply committed_move_back.
Qed.

Lemma X5_move_back_restores_witness :
  placement (sample_PATCH no_faults "ccard0000A" "clist00001" 0
               (sample_PATCH no_faults "ccard0000A" "clist00002" 0 sample_db).2).2
  = placement sample_db.
Proof.
  exact (X5_move_back_restores no_faults no_faults zod_cuid
           (Some "cuser00001") (Some "cuser00001") "ccard0000A"
           {| destinationListId := "clist00002"; newPosition := 0 |} 7 7
           sample_db
           (sample_PATCH no_faults "ccard0000A" "clist00002" 0 sample_db).1
           (sample_PATCH no_faults "ccard0000A" "clist00002" 0 sample_db).2
           (sample_PATCH no_faults "ccard0000A" "clist00001" 0
              (sample_PATCH no_faults "ccard0000A" "clist00002" 0 sample_db).2).1
           (sample_PATCH no_faults "ccard0000A" "clist00001" 0
              (sample_PATCH no_faults "ccard0000A" "clist00002" 0 sample_db).2).2
           (sample_card "A" "clist00001" 0)
           ltac:(compute_decision) ltac:(reflexivity)
           ltac:(vm_compute; reflexivity) ltac:(reflexivity)
           ltac:(vm_compute; reflexivity) ltac:(reflexivity)).
Defined.

End RouteFacts.

(** ** Reading the cards of a list *)

Section ReadFacts.
Import Server.
Local Open Scope Z_scope.

Lemma card_findMany_elem where_ db kv :
  kv ∈ card_findMany where_ db <-> cards db !! kv.1 = Some kv.2 /\ where_ kv.2 = true.
Proof.
  unfold card_findMany. rewrite merge_sort_Permutation.
  rewrite list_elem_of_filter, elem_of_map_to_list', Is_true_true. tauto.
Qed.

Lemma card_findMany_NoDup where_ db : NoDup (card_findMany where_ db).
Proof.
  unfold card_findMany. rewrite merge_sort_Permutation.
  apply NoDup_filter, NoDup_map_to_list.
Qed.

(** X6: GET /api/cards answers every signed-in user, member of the board
    or not: unless the query is rejected, the answer holds each card of the
    store that matches the filter exactly once, in ascending order of
    position; when the filter names a list and no two cards of a list share
    a position, the order is strict. *)
Theorem X6_GET_rows_in_order faults contains_insensitive uid q db :
  faults 0%nat = false ->
  exists rows,
    GET faults contains_insensitive (Some uid) q db = CardsJson rows /\
    NoDup rows /\
    StronglySorted position_asc rows /\
    (forall i c, (i, c) ∈ rows <->
       cards db !! i = Some c /\ cards_where contains_insensitive q db c = true) /\
    (order_invariant db -> is_Some (truthy (listId_param q)) ->
     StronglySorted position_lt rows).
Proof.
  intros Hf. exists (card_findMany (cards_where contains_insensitive q db) db).
  split; [unfold GET; now rewrite Hf|].
  split; [apply card_findMany_NoDup|].
  split; [apply StronglySorted_merge_sort; apply _|].
  split; [intros i c; apply (card_findMany_elem _ db (i, c))|].
  intros Hinv [l Hl]. apply strictly_sorted_of_distinct.
  - apply card_findMany_NoDup.
  - intros [i ci] [j cj] [Hi Hwi]%card_findMany_elem [Hj Hwj]%card_findMany_elem Hp.
    cbn in *. unfold cards_where in Hwi, Hwj. rewrite Hl in Hwi, Hwj.
    apply andb_true_iff in Hwi as [Hli%bool_decide_eq_true _].
    apply andb_true_iff in Hwj as [Hlj%bool_decide_eq_true _].
    assert (i = j) as -> by (eapply Hinv; eauto; congruence).
    congruence.
  - apply StronglySorted_merge_sort; apply _.
Qed.

Lemma X6_GET_rows_in_order_witness :
  exists rows,
    GET no_faults (fun _ _ => false) (Some "cuser00009")
      {| boardId_param := None; listId_param := Some "clist00001"; search_param := None |}
      sample_db = CardsJson rows /\
    rows.*1 = [ "ccard0000A"; "ccard0000B"; "ccard0000C" ] /\
    StronglySorted position_lt rows.
Proof.
  destruct (X6_GET_rows_in_order no_faults (fun _ _ => false) "cuser00009"
              {| boardId_param := None; listId_param := Some "clist00001";
                 search_param := None |}
              sample_db eq_refl) as (rows & Hrun & _ & _ & _ & Hstrict).
  exists rows. split; [exact Hrun|]. split.
  - assert (Hrows : CardsJson rows =
                    CardsJson [ ("ccard0000A", sample_card "A" "clist00001" 0);
                                ("ccard0000B", sample_card "B" "clist00001" 1);
                                ("ccard0000C", sample_card "C" "clist00001" 2) ]).
    { rewrite <- Hrun. vm_compute. reflexivity. }
    injection Hrows as ->. reflexivity.
  - apply Hstrict; [compute_decision|]. now eexists.
Defined.

End ReadFacts.

(** ** The list reorder route *)

Section ListRouteFacts.
Import ListRoute.
Local Open Scope Z_scope.

Lemma shift_boardId now board p q l : boardId (shift now board p q l) = boardId l.
Proof. unfold shift. repeat case_match; reflexivity. Qed.

Lemma shift_position now board p q l :
  position (shift now board p q l) =
    if decide (boardId l = board) then
      if decide (p < position l <= q) then position l - 1
      else if decide (q <= position l < p) then position l + 1
      else position l
    else position l.
Proof.
  unfold shift.
  repeat first
    [ case_decide | case_bool_decide
    | match goal with
      | |- context [?a <? ?b] => destruct (Z.ltb_spec a b)
      | |- context [?a <=? ?b] => destruct (Z.leb_spec a b)
      end ];
    cbn in *; try reflexivity; try lia; congruence.
Qed.

(** The list that is reordered is not among the rows its own reorder
    shifts. *)
Lemma shift_self now q l : shift now (boardId l) (position l) q l = l.
Proof.
  unfold shift.
  repeat first
    [ case_bool_decide
    | match goal with
      | |- context [?a <? ?b] => destruct (Z.ltb_spec a b)
      | |- context [?a <=? ?b] => destruct (Z.leb_spec a b)
      end ];
    cbn in *; try reflexivity; lia.
Qed.

(** The conditions of the two filters, as [shift] writes them. *)
Ltac list_filter_conditions :=
  unfold list_where;
  cbn [where_boardId where_position forallb Server.int_filter];
  rewrite ?andb_true_r, ?andb_assoc.

(** An [updateMany] that resolves rewrote the rows its filter selects. *)
Lemma list_updateMany_resolves now w data db db1 :
  list_updateMany now w data db = Some db1 ->
  db1 = with_lists ((fun l => if list_where w l then set_updatedAt now (data l) else l)
                      <$> lists db) db.
Proof. unfold list_updateMany. case_match; [now intros [= <-]|discriminate]. Qed.

(** It resolves when the values of the filter and the positions it writes
    fit the column. *)
Lemma list_updateMany_fits now w data db :
  Forall (fun f => Server.int4 (Server.filter_value f) = true) (where_position w) ->
  (forall i l, lists db !! i = Some l -> list_where w l = true ->
               Server.int4 (position (data l)) = true) ->
  list_updateMany now w data db =
    Some (with_lists ((fun l => if list_where w l then set_updatedAt now (data l) else l)
                        <$> lists db) db).
Proof.
  intros Hbounds Hrows. unfold list_updateMany.
  assert (Hvalues :
    forallb Server.int4 (Server.filter_value <$> where_position w) = true).
  { apply forallb_forall. intros z Hin%list_elem_of_In.
    apply list_elem_of_fmap in Hin as (f & -> & Hf).
    rewrite Forall_forall in Hbounds. now apply Hbounds. }
  rewrite Hvalues, bool_decide_eq_true_2; [reflexivity|exact Hrows].
Qed.

Lemma PATCH_ok faults session id newPosition now db r db' :
  PATCH faults session id newPosition now db = (r, db') ->
  status_of r = 200 ->
  exists list, lists db !! id = Some list /\ db' = reordered id list newPosition now db.
Proof.
  unfold PATCH. destruct session as [uid|]; [|intros [= <- <-]; discriminate].
  destruct (negb (0 <=? newPosition)); [intros [= <- <-]; discriminate|].
  destruct (faults 0%nat); [intros [= <- <-]; discriminate|].
  destruct (lists db !! id) as [list|] eqn:Hlist; [|intros [= <- <-]; discriminate].
  destruct (decide ((boardId list, uid) ∈ boardMembers db));
    [|intros [= <- <-]; discriminate].
  intros Hrun Hok. exists list. split; [reflexivity|]. revert Hrun Hok.
  cbn zeta. unfold reordered, shift.
  destruct (position list <? newPosition) eqn:Hdown;
    [|destruct (newPosition <? position list) eqn:Hup].
  1,2: destruct (faults 1%nat); [intros [= <- <-]; discriminate|].
  1,2: match goal with
       | |- context [list_updateMany ?n ?w ?d ?b] =>
           destruct (list_updateMany n w d b) as [db1|] eqn:Hmany;
             [apply list_updateMany_resolves in Hmany as ->
             |intros [= <- <-]; discriminate]
       end.
  all: destruct (faults 2%nat); [intros [= <- <-]; discriminate|].
  all: cbn [lists with_lists boardMembers].
  1,2: rewrite lookup_fmap, Hlist; cbn [fmap option_fmap option_map].
  1,2: list_filter_conditions.
  1,2: rewrite Z.ltb_irrefl, ?andb_false_r; cbn [andb].
  3: rewrite Hlist.
  all: destruct (Server.int4 newPosition); [|intros [= <- <-]; discriminate].
  1,2: intros [= <- <-] _; unfold with_lists; cbn [lists boardMembers];
       f_equal; f_equal; apply map_fmap_ext; intros i li _; list_filter_conditions;
       reflexivity.
  intros [= <- <-] _. now rewrite map_fmap_id.
Qed.

Lemma reordered_lookup id list newPosition now db j :
  lists (reordered id list newPosition now db) !! j =
    if decide (id = j) then Some (set_updatedAt now (set_position newPosition list))
    else shift now (boardId list) (position list) newPosition <$> lists db !! j.
Proof.
  unfold reordered. cbn [lists with_lists].
  rewrite lookup_insert. case_decide; [reflexivity|].
  now rewrite lookup_fmap.
Qed.

Lemma reordered_order id list newPosition now db :
  lists db !! id = Some list ->
  order_invariant db ->
  order_invariant (reordered id list newPosition now db).
Proof.
  intros Hc Hinv i ci Hi' j cj. revert Hi'.
  rewrite !reordered_lookup.
  destruct (decide (id = i)) as [<-|Hi]; destruct (decide (id = j)) as [<-|Hj];
    [reflexivity| | |].
  - intros [= <-]. destruct (lists db !! j) as [cj0|] eqn:Hj0; [|discriminate].
    intros [= <-]. rewrite shift_boardId, shift_position.
    cbn [boardId position set_updatedAt set_position].
    pose proof (Hinv _ _ Hc _ _ Hj0) as Hsame.
    intros Hl.
    repeat case_decide; intros Hp; try lia; try congruence;
      try (apply Hsame; [congruence|lia]).
  - destruct (lists db !! i) as [ci0|] eqn:Hi0; [|discriminate].
    intros [= <-] [= <-]. rewrite shift_boardId, shift_position.
    cbn [boardId position set_updatedAt set_position].
    pose proof (Hinv _ _ Hi0 _ _ Hc) as Hsame.
    intros Hl.
    repeat case_decide; intros Hp; try lia; try congruence;
      try (apply Hsame; [congruence|lia]).
  - destruct (lists db !! i) as [ci0|] eqn:Hi0; [|discriminate].
    destruct (lists db !! j) as [cj0|] eqn:Hj0; [|discriminate].
    intros [= <-] [= <-]. rewrite !shift_boardId, !shift_position.
    pose proof (Hinv _ _ Hi0 _ _ Hj0) as Hij.
    pose proof (Hinv _ _ Hi0 _ _ Hc) as Hic.
    pose proof (Hinv _ _ Hj0 _ _ Hc) as Hjc.
    intros Hl.
    repeat case_decide; intros Hp; try congruence;
      first [ apply Hij; [congruence|lia]
            | exfalso; apply Hi; symmetry; apply Hic; [congruence|lia]
            | exfalso; apply Hj; symmetry; apply Hjc; [congruence|lia] ].
Qed.

(** X7: a list reorder that answers 200 keeps the positions of the lists
    of every board distinct, wherever the list is put: the lists between
    the old and the new position move by one and the list takes the new
    position. *)
Theorem X7_list_reorder_keeps_order faults session id newPosition now db r db' :
  PATCH faults session id newPosition now db = (r, db') ->
  status_of r = 200 ->
  order_invariant db ->
  order_invariant db' /\
  exists list, lists db !! id = Some list /\
    (position <$> lists db' !! id) = Some newPosition /\
    forall j lj, j <> id -> lists db !! j = Some lj ->
      exists lj', lists db' !! j = Some lj' /\ boardId lj' = boardId lj /\
        position lj' =
          if decide (boardId lj = boardId list /\ position list < position lj <= newPosition)
          then position lj - 1
          else if decide (boardId lj = boardId list /\
                          newPosition <= position lj < position list)
               then position lj + 1
               else position lj.
Proof.
  intros Hrun Hok Hinv.
  apply PATCH_ok in Hrun as (list & Hlist & ->); [|exact Hok].
  split; [now apply reordered_order|].
  exists list. split; [exact Hlist|]. split.
  - rewrite reordered_lookup, decide_True by reflexivity. reflexivity.
  - intros j lj Hj Hlj. rewrite reordered_lookup, decide_False by congruence.
    rewrite Hlj. eexists. split; [reflexivity|].
    split; [apply shift_boardId|]. rewrite shift_position.
    repeat case_decide; try reflexivity; try lia; try tauto;
      destruct_and?; congruence.
Qed.

Lemma X7_list_reorder_keeps_order_witness :
  order_invariant (PATCH (fun _ => false) (Some "cuser00001") "clist00001" 2 7 sample_db).2 /\
  (position <$> lists (PATCH (fun _ => false) (Some "cuser00001") "clist00001" 2 7
                         sample_db).2 !! "clist00001") = Some 2.
Proof.
  destruct (X7_list_reorder_keeps_order (fun _ => false) (Some "cuser00001") "clist00001"
              2 7 sample_db
              (PATCH (fun _ => false) (Some "cuser00001") "clist00001" 2 7 sample_db).1
              (PATCH (fun _ => false) (Some "cuser00001") "clist00001" 2 7 sample_db).2
              ltac:(vm_compute; reflexivity) ltac:(reflexivity)
              ltac:(compute_decision))
    as (Horder & list & _ & Hpos & _).
  split; [exact Horder|exact Hpos].
Defined.

(** X8: the list reorder is not atomic.  Its statements run outside any
    transaction: when the shift of the siblings resolves and the update of
    the list itself is rejected, the handler answers 500 and the shift
    stays.  The shift resolves when the new position fits the [Int] column
    (it is below 2^31), as the stored position of the list does.  A sibling
    next to the list on the side of the move then sits on the position of
    the list, so two lists of the board share a position. *)
Theorem X8_list_reorder_not_atomic faults uid id newPosition now db list :
  faults 0%nat = false -> faults 1%nat = false -> faults 2%nat = true ->
  0 <= newPosition ->
  newPosition < 2 ^ 31 ->
  - 2 ^ 31 <= position list < 2 ^ 31 ->
  lists db !! id = Some list ->
  (boardId list, uid) ∈ boardMembers db ->
  PATCH faults (Some uid) id newPosition now db =
    (internal_error,
     with_lists (shift now (boardId list) (position list) newPosition <$> lists db) db) /\
  forall j lj, j <> id -> lists db !! j = Some lj -> boardId lj = boardId list ->
    (position list < newPosition /\ position lj = position list + 1) \/
    (newPosition < position list /\ position lj = position list - 1) ->
    ~ order_invariant (PATCH faults (Some uid) id newPosition now db).2.
Proof.
  intros Hf0 Hf1 Hf2 Hq Hq' Hp Hlist Hmember.
  assert (Hrun : PATCH faults (Some uid) id newPosition now db =
                   (internal_error,
                    with_lists (shift now (boardId list) (position list) newPosition
                                  <$> lists db) db)).
  { unfold PATCH. rewrite (proj2 (Z.leb_le _ _) Hq). cbn [negb].
    rewrite Hf0, Hlist. rewrite decide_True by exact Hmember. cbn zeta.
    rewrite Hf1. unfold shift.
    destruct (position list <? newPosition) eqn:Hdown;
      [|destruct (newPosition <? position list) eqn:Hup].
    1,2: rewrite list_updateMany_fits.
    1,4: rewrite Hf2; f_equal; unfold with_lists; cbn [lists boardMembers];
         f_equal; apply map_fmap_ext; intros i li _; list_filter_conditions; reflexivity.
    1,3: cbn [where_position]; repeat constructor; cbn [Server.filter_value];
         apply int4_spec; lia.
    1,2: intros i li _; list_filter_conditions;
         rewrite !andb_true_iff, ?Z.ltb_lt, ?Z.leb_le; intros [[_ ?] ?];
         apply int4_spec; cbn [position set_position]; lia.
    rewrite Hf2, map_fmap_id. now destruct db. }
  split; [exact Hrun|].
  intros j lj Hj Hlj Hboard Hnext Hinv. rewrite Hrun in Hinv. cbn [snd] in Hinv.
  apply Hj. symmetry.
  apply (Hinv id (shift now (boardId list) (position list) newPosition list)
              ltac:(cbn [lists with_lists]; now rewrite lookup_fmap, Hlist)
              j (shift now (boardId list) (position list) newPosition lj)
              ltac:(cbn [lists with_lists]; now rewrite lookup_fmap, Hlj)).
  - rewrite !shift_boardId. congruence.
  - rewrite shift_self, shift_position.
    rewrite decide_True by exact Hboard.
    repeat case_decide; lia.
Qed.

Lemma X8_list_reorder_not_atomic_witness :
  PATCH update_fault (Some "cuser00001") "clist00001" 2 7 sample_db =
    (internal_error,
     with_lists (shift 7 "cboard0001" 0 2 <$> lists sample_db) sample_db) /\
  order_invariant sample_db /\
  ~ order_invariant (PATCH update_fault (Some "cuser00001") "clist00001" 2 7 sample_db).2.
Proof.
  destruct (X8_list_reorder_not_atomic update_fault "cuser00001" "clist00001" 2 7
              sample_db (sample_list "To Do" 0)
              eq_refl eq_refl eq_refl ltac:(lia) ltac:(lia) ltac:(cbn; lia)
              eq_refl ltac:(compute_decision))
    as [Hrun Hbroken].
  split; [exact Hrun|]. split; [compute_decision|].
  apply (Hbroken "clist00002" (sample_list "Doing" 1));
    [discriminate|reflexivity|reflexivity|].
  left. cbn. lia.
Defined.

End ListRouteFacts.

(** ** Presence in the realtime server *)

Section PresenceFacts.
Import Realtime.
#[local] Set Warnings "-clear-no-such-hyp".

Lemma socket_rooms_disconnected s io : socket_rooms s (on_disconnect s io).1 = [].
Proof.
  destruct (socket_rooms s (on_disconnect s io).1) as [|r rs] eqn:Hrooms; [reflexivity|].
  assert (Hr : r ∈ socket_rooms s (on_disconnect s io).1) by (rewrite Hrooms; left).
  apply elem_of_socket_rooms in Hr. rewrite room_members_disconnect in Hr. set_solver.
Qed.

(** X9: the [disconnect] listener notifies nobody.  When it runs, the
    socket has already left its rooms, so the loop over [socket.rooms] finds
    no board room and no [board:user-left] is sent; the socket is gone from
    the server and from every room, and the other members stay. *)
Theorem X9_disconnect_notifies_nobody s io :
  (on_disconnect s io).2 = [] /\
  sockets (on_disconnect s io).1 !! s = None /\
  forall r, room_members r (on_disconnect s io).1 = room_members r io ∖ {[s]}.
Proof.
  split; [|split].
  - pose proof (socket_rooms_disconnected s io) as Hrooms.
    unfold on_disconnect in *. cbn [fst snd] in *. now rewrite Hrooms.
  - unfold on_disconnect. cbn [fst sockets]. apply lookup_delete_eq.
  - intros r. apply room_members_disconnect.
Qed.

Lemma elem_of_socket_to_emit s room ev io t ev' :
  (t, ev') ∈ socket_to_emit s room ev io <->
  t ∈ room_members room io /\ t <> s /\ ev' = ev.
Proof.
  unfold socket_to_emit. rewrite list_elem_of_fmap. split.
  - intros (t' & [= -> ->] & Hin). apply elem_of_elements in Hin. set_solver.
  - intros (Hin & Hne & ->). exists t. split; [reflexivity|].
    apply elem_of_elements. set_solver.
Qed.

Lemma NoDup_socket_to_emit s room ev io : NoDup (socket_to_emit s room ev io).
Proof.
  unfold socket_to_emit. apply NoDup_fmap_2; [|apply NoDup_elements].
  intros t t' [= ->]. reflexivity.
Qed.

(** The entry of [board:active-users] for the socket [t]. *)
Lemma active_users_entries s room io entry :
  entry ∈ ((fun '(t, u) => (user_id <$> u, u ≫= name, t))
             <$> filter (fun su : string * option SocketUser => su.1 ≠ s)
                   (fetchSockets room io)) <->
  exists t, t ∈ room_members room io /\ t <> s /\
            entry = (userId_of t io, userName_of t io, t).
Proof.
  rewrite list_elem_of_fmap. unfold fetchSockets. split.
  - intros ([t u] & -> & [Hne Hin]%list_elem_of_filter).
    apply list_elem_of_fmap in Hin as (t' & [= -> ->] & Hin%elem_of_elements).
    exists t'. repeat split; assumption.
  - intros (t & Hin & Hne & ->). exists (t, sockets io !! t). split; [reflexivity|].
    apply list_elem_of_filter. split; [exact Hne|].
    apply list_elem_of_fmap. exists t. split; [reflexivity|].
    now apply elem_of_elements.
Qed.

(** X10: [board:join] puts the socket in the room of the board and tells
    both sides.  No emission is sent twice: every socket that was in the
    room before, and no other, receives one [board:user-joined] naming the
    joiner; the joiner receives one [board:active-users] and nothing else,
    and it lists exactly the other sockets of the room, each once, with the
    user of each. *)
Theorem X10_board_join_presence s boardId io :
  room_members (board_room boardId) (on_event s (BoardJoin boardId) io).1
    = {[s]} ∪ room_members (board_room boardId) io /\
  NoDup (on_event s (BoardJoin boardId) io).2 /\
  length (on_event s (BoardJoin boardId) io).2
    = S (size (room_members (board_room boardId) io ∖ {[s]})) /\
  exists activeUsers,
    NoDup activeUsers.*2 /\
    (forall entry, entry ∈ activeUsers <->
       exists t, t ∈ room_members (board_room boardId) io /\ t <> s /\
                 entry = (userId_of t io, userName_of t io, t)) /\
    forall t ev,
      (t, ev) ∈ (on_event s (BoardJoin boardId) io).2 <->
      (t ∈ room_members (board_room boardId) io /\ t <> s /\
       ev = BoardUserJoined (userId_of s io) (userName_of s io) s) \/
      (t = s /\ ev = BoardActiveUsers activeUsers).
Proof.
  cbn [on_event fst snd]. split; [|split; [|split]].
  - rewrite room_members_join. now rewrite decide_True.
  - apply NoDup_app. split; [apply NoDup_socket_to_emit|]. split.
    + intros [t ev] [_ [Hne _]]%elem_of_socket_to_emit Hin.
      unfold socket_emit in Hin. apply list_elem_of_singleton in Hin.
      injection Hin as -> _. now apply Hne.
    + unfold socket_emit. apply NoDup_singleton.
  - rewrite length_app. unfold socket_emit, socket_to_emit. cbn [length].
    rewrite length_fmap, room_members_join, decide_True by reflexivity.
    rewrite Nat.add_1_r. f_equal.
    replace (({[s]} ∪ room_members (board_room boardId) io) ∖ {[s]})
      with (room_members (board_room boardId) io ∖ {[s]}) by set_solver.
    reflexivity.
  - exists ((fun '(t, u) => (user_id <$> u, u ≫= name, t))
             <$> filter (fun su : string * option SocketUser => su.1 ≠ s)
                   (fetchSockets (board_room boardId)
                      (socket_join s (board_room boardId) io))).
    split; [|split; [|intros t ev; rewrite elem_of_app, elem_of_socket_to_emit;
                      unfold socket_emit; rewrite list_elem_of_singleton]].
    + rewrite <- list_fmap_compose.
      apply NoDup_fmap_2_strong.
      * intros [t u] [t' u'] [_ Hin]%list_elem_of_filter [_ Hin']%list_elem_of_filter.
        cbn. intros ->. unfold fetchSockets in Hin, Hin'.
        apply list_elem_of_fmap in Hin as (? & [= -> ->] & _).
        apply list_elem_of_fmap in Hin' as (? & [= <- ->] & _). reflexivity.
      * apply NoDup_filter. unfold fetchSockets.
        apply NoDup_fmap_2; [|apply NoDup_elements].
        intros t t' [= ->]. reflexivity.
    + intros entry. rewrite active_users_entries.
      setoid_rewrite room_members_join. rewrite decide_True by reflexivity.
      split; intros (t & Hin & Hne & ->); exists t; repeat split; try assumption;
        set_solver.
    + rewrite room_members_join, decide_True by reflexivity.
      split.
      * intros [(Hin & Hne & ->)|[= -> ->]]; [left|right; now split].
        repeat split; [set_solver|exact Hne].
      * intros [(Hin & Hne & ->)|[-> ->]]; [left|now right].
        repeat split; [set_solver|exact Hne].
Qed.

(** X11: [board:leave] takes the socket out of the room of the board and
    sends one [board:user-left] naming it to every socket that stays in the
    room, and to no other socket.  Nothing checks that the socket was in the
    room. *)
Theorem X11_board_leave_notifies_room s boardId io :
  room_members (board_room boardId) (on_event s (BoardLeave boardId) io).1
    = room_members (board_room boardId) io ∖ {[s]} /\
  NoDup (on_event s (BoardLeave boardId) io).2 /\
  forall t ev,
    (t, ev) ∈ (on_event s (BoardLeave boardId) io).2 <->
    t ∈ room_members (board_room boardId) io /\ t <> s /\
    ev = BoardUserLeft (userId_of s io) s.
Proof.
  cbn [on_event fst snd]. split; [|split].
  - rewrite room_members_leave. now rewrite decide_True.
  - apply NoDup_socket_to_emit.
  - intros t ev. rewrite elem_of_socket_to_emit.
    rewrite room_members_leave, decide_True by reflexivity.
    split; intros (Hin & Hne & ->); repeat split; try assumption; set_solver.
Qed.

(** X12: joining a board and leaving it again restores every room, for
    a socket that was not in the room of the board before. *)
Theorem X12_join_then_leave s boardId io :
  s ∉ room_members (board_room boardId) io ->
  forall r,
    room_members r
      (on_event s (BoardLeave boardId) (on_event s (BoardJoin boardId) io).1).1
    = room_members r io.
Proof.
  intros Hfresh r. cbn [on_event fst].
  rewrite room_members_leave, !room_members_join.
  rewrite (decide_True (P := board_room boardId = board_room boardId)) by reflexivity.
  case_decide as Hr; [subst r; set_solver|reflexivity].
Qed.

Lemma X12_join_then_leave_witness :
  ("s3" ∉ room_members (board_room "b1") (run sample_history io_empty)) /\
  room_members (board_room "b1")
    (on_event "s3" (BoardLeave "b1")
       (on_event "s3" (BoardJoin "b1") (run sample_history io_empty)).1).1
  = room_members (board_room "b1") (run sample_history io_empty).
Proof.
  assert (Hfresh : "s3" ∉ room_members (board_room "b1") (run sample_history io_empty))
    by compute_decision.
  split; [exact Hfresh|].
  exact (X12_join_then_leave "s3" "b1" (run sample_history io_empty) Hfresh
           (board_room "b1")).
Defined.

End PresenceFacts.

(** ** The actions of the client store *)

Section StoreActionFacts.
Import BoardStore.
Local Open Scope Z_scope.

Lemma cards_get_set_ne l l' v m :
  l <> l' -> cards_get l' (cards_set l v m) = cards_get l' m.
Proof.
  intros Hne. induction m as [|[k v0] m IH]; cbn.
  - now rewrite decide_False.
  - destruct (decide (k = l)) as [->|Hk]; cbn.
    + now rewrite !decide_False by exact Hne.
    + now rewrite IH.
Qed.

Lemma cards_set_get_id l m arr : cards_get l m = Some arr -> cards_set l arr m = m.
Proof.
  induction m as [|[k v0] m IH]; cbn; [discriminate|].
  destruct (decide (k = l)) as [->|Hk].
  - now intros [= ->].
  - intros H. now rewrite IH.
Qed.

Lemma cards_set_None l v m : cards_get l m = None -> cards_set l v m = m ++ [(l, v)].
Proof.
  induction m as [|[k v0] m IH]; cbn; [reflexivity|].
  destruct (decide (k = l)); [discriminate|]. intros H. now rewrite IH.
Qed.

(** Replacing the array of a key that exists replaces its cards in place. *)
Lemma all_cards_set l m arr :
  cards_get l m = Some arr ->
  exists pre post,
    all_cards m = pre ++ arr ++ post /\
    forall arr', all_cards (cards_set l arr' m) = pre ++ arr' ++ post.
Proof.
  unfold all_cards. induction m as [|[k v0] m IH]; cbn; [discriminate|].
  destruct (decide (k = l)) as [->|Hk].
  - intros [= ->]. exists [], (concat m.*2). split; reflexivity.
  - intros Hget. destruct (IH Hget) as (pre & post & Hall & Hset).
    exists (v0 ++ pre), post. split.
    + now rewrite Hall, <- app_assoc.
    + intros arr'. cbn. now rewrite Hset, <- app_assoc.
Qed.

Lemma id_imap_set_position (f : nat -> Z) (arr : list Card) :
  id <$> imap (fun index c => set_position (f index) c) arr = id <$> arr.
Proof.
  revert f. induction arr as [|c arr IH]; intros f; [reflexivity|].
  rewrite imap_cons, !fmap_cons. f_equal. apply (IH (f ∘ S)).
Qed.

Lemma id_renumber arr : id <$> renumber arr = id <$> arr.
Proof. apply id_imap_set_position. Qed.

Lemma position_imap_from n (arr : list Card) :
  position <$> imap (fun index c => set_position (Z.of_nat (n + index)) c) arr
  = Z.of_nat <$> seq n (length arr).
Proof.
  revert n. induction arr as [|c arr IH]; intros n; [reflexivity|].
  rewrite imap_cons. cbn [length seq]. rewrite !fmap_cons. f_equal.
  - cbn. now rewrite Nat.add_0_r.
  - rewrite <- (IH (S n)). f_equal. apply imap_ext. intros i x _. cbn.
    now rewrite Nat.add_succ_r.
Qed.

Lemma position_renumber arr : position <$> renumber arr = Z.of_nat <$> seq 0 (length arr).
Proof. apply (position_imap_from 0). Qed.

Lemma splice_insert_perm {A} start (x : A) arr : splice_insert start x arr ≡ₚ x :: arr.
Proof.
  unfold splice_insert. rewrite <- Permutation_middle. now rewrite take_drop.
Qed.

Lemma length_splice_insert {A} start (x : A) arr :
  length (splice_insert start x arr) = S (length arr).
Proof. now rewrite splice_insert_perm. Qed.

(** The destination array [moveCard] works on. *)
Lemma moveCard_found cardId newListId newPosition state card rest :
  take_out cardId (cards state) = (Some card, rest) ->
  exists cards2,
    all_cards cards2 = all_cards rest /\
    cards_get newListId cards2 = Some (default [] (cards_get newListId rest)) /\
    (forall l, l <> newListId -> cards_get l cards2 = cards_get l rest) /\
    cards (moveCard cardId newListId newPosition state) =
      cards_set newListId
        (renumber (splice_insert newPosition
                     (set_position newPosition (set_listId newListId card))
                     (default [] (cards_get newListId rest))))
        cards2.
Proof.
  intros Htake. unfold moveCard. rewrite Htake. cbn [cards].
  destruct (cards_get newListId rest) as [arr|] eqn:Hget.
  - exists rest. rewrite Hget. repeat split; reflexivity.
  - exists (cards_set newListId [] rest). rewrite cards_get_set.
    split; [now apply all_cards_set_empty|]. split; [reflexivity|].
    split; [|reflexivity]. intros l Hl. now apply cards_get_set_ne.
Qed.

(** [moveCard] keeps the ids of the store, each as often as before. *)
Lemma moveCard_ids cardId newListId newPosition state :
  id <$> all_cards (cards (moveCard cardId newListId newPosition state))
    ≡ₚ id <$> all_cards (cards state).
Proof.
  destruct (take_out cardId (cards state)) as [[card|] rest] eqn:Htake.
  2:{ unfold moveCard. now rewrite Htake. }
  destruct (moveCard_found cardId newListId newPosition state card rest Htake)
    as (cards2 & Hall2 & Hget2 & _ & ->).
  destruct (all_cards_set _ _ _ Hget2) as (pre & post & Hsplit & Hset).
  apply take_out_Some in Htake as (_ & pre' & post' & Hbefore & Hrest).
  rewrite Hset, Hbefore. rewrite !fmap_app, id_renumber, splice_insert_perm.
  rewrite fmap_cons. cbn [id set_position set_listId].
  rewrite fmap_cons. cbn [app]. rewrite <- !Permutation_middle. f_equiv.
  rewrite <- !fmap_app, <- Hsplit, Hall2, Hrest. reflexivity.
Qed.

(** X13: [moveCard] neither loses nor duplicates a card: the ids held by
    the store after it are the ids held before it, each as often as before.
    In particular a store in which every id occurs once stays so. *)
Theorem X13_moveCard_keeps_cards cardId newListId newPosition state :
  id <$> all_cards (cards (moveCard cardId newListId newPosition state))
    ≡ₚ id <$> all_cards (cards state) /\
  (unique_ids state -> unique_ids (moveCard cardId newListId newPosition state)).
Proof.
  split; [apply moveCard_ids|].
  unfold unique_ids. now rewrite moveCard_ids.
Qed.

(** X14: the card a [moveCard] finds lands in the destination array at
    the index [newPosition] clamped to the array (past the end it is
    appended, a negative index counts from the end), the destination array
    grows by that one card, and its cards are renumbered 0, 1, 2, ... in
    order, so the position stored on the card is its index and not
    necessarily [newPosition]. *)
Theorem X14_moveCard_renumbers_destination cardId newListId newPosition state card rest :
  take_out cardId (cards state) = (Some card, rest) ->
  exists arr,
    cards_get newListId (cards (moveCard cardId newListId newPosition state)) = Some arr /\
    length arr = S (length (default [] (cards_get newListId rest))) /\
    position <$> arr = Z.of_nat <$> seq 0 (length arr) /\
    id <$> arr !! splice_start newPosition (length (default [] (cards_get newListId rest)))
      = Some cardId /\
    id <$> delete (splice_start newPosition
                     (length (default [] (cards_get newListId rest)))) arr
      = id <$> default [] (cards_get newListId rest).
Proof.
  intros Htake.
  destruct (moveCard_found cardId newListId newPosition state card rest Htake)
    as (cards2 & _ & _ & _ & ->).
  apply take_out_Some in Htake as (Hid & _).
  set (old := default [] (cards_get newListId rest)).
  set (card' := set_position newPosition (set_listId newListId card)).
  exists (renumber (splice_insert newPosition card' old)).
  split; [apply cards_get_set|].
  split; [now rewrite length_renumber, length_splice_insert|].
  split; [rewrite length_renumber; apply position_renumber|].
  pose proof (splice_start_le newPosition (length old)) as Hk.
  assert (Hlen : length (take (splice_start newPosition (length old)) old)
                 = splice_start newPosition (length old)) by now apply length_take_le.
  split.
  - rewrite <- list_lookup_fmap, id_renumber. unfold splice_insert.
    rewrite fmap_app, fmap_cons, lookup_app_r by (rewrite length_fmap; lia).
    rewrite length_fmap, Hlen, Nat.sub_diag. cbn. now rewrite Hid.
  - rewrite <- (length_fmap id (take _ old)) in Hlen.
    rewrite list_fmap_delete, id_renumber. unfold splice_insert.
    rewrite fmap_app, fmap_cons. rewrite <- Hlen at 1. rewrite delete_middle.
    now rewrite <- fmap_app, take_drop.
Qed.

Lemma X14_moveCard_renumbers_destination_witness :
  layout (moveCard "ccard0000A" "clist00002" 7 sample_store) =
    [ ("clist00001", [ ("ccard0000B", 1); ("ccard0000C", 2) ]);
      ("clist00002", [ ("ccard0000D", 0); ("ccard0000A", 1) ]) ] /\
  exists arr,
    cards_get "clist00002" (cards (moveCard "ccard0000A" "clist00002" 7 sample_store))
      = Some arr /\
    position <$> arr = [ 0; 1 ].
Proof.
  split; [reflexivity|].
  destruct (X14_moveCard_renumbers_destination "ccard0000A" "clist00002" 7 sample_store
              (client_card "ccard0000A" "A" "clist00001" 0)
              [ ("clist00001", [ client_card "ccard0000B" "B" "clist00001" 1;
                                 client_card "ccard0000C" "C" "clist00001" 2 ]);
                ("clist00002", [ client_card "ccard0000D" "D" "clist00002" 0 ]) ]
              eq_refl) as (arr & Hget & Hlen & Hpos & _).
  exists arr. split; [exact Hget|]. rewrite Hpos, Hlen. reflexivity.
Defined.

Lemma take_out_absent cardId m :
  (forall c, c ∈ all_cards m -> id c ≠ cardId) -> take_out cardId m = (None, m).
Proof.
  unfold all_cards. induction m as [|[k arr] m IH]; cbn; [reflexivity|].
  intros Hall.
  destruct (list_find (fun c => id c = cardId) arr) as [[index c]|] eqn:Hfind.
  - apply list_find_Some in Hfind as (Hlookup & Hid & _). exfalso.
    apply (Hall c); [|exact Hid]. apply elem_of_app. left.
    eapply list_elem_of_lookup_2, Hlookup.
  - rewrite IH; [reflexivity|]. intros c Hc. apply Hall, elem_of_app. now right.
Qed.

Lemma moveCard_absent cardId newListId newPosition state :
  (forall c, c ∈ all_cards (cards state) -> id c ≠ cardId) ->
  moveCard cardId newListId newPosition state = state.
Proof.
  intros Habsent. unfold moveCard. now rewrite take_out_absent.
Qed.

(** X15: a [moveCard] (so also a [card:moved] event) for a card id that
    the store does not hold changes nothing: the card is not created in the
    destination list. *)
Theorem X15_moveCard_unknown_card cardId newListId newPosition state :
  (forall c, c ∈ all_cards (cards state) -> id c ≠ cardId) ->
  moveCard cardId newListId newPosition state = state.
Proof.
  apply moveCard_absent.
Qed.

Lemma X15_moveCard_unknown_card_witness :
  moveCard "ccard0000Z" "clist00002" 0 sample_store = sample_store.
Proof.
  apply X15_moveCard_unknown_card.
  intros c Hc. revert c Hc. apply Forall_forall.
  compute_decision.
Defined.

(** With distinct ids, the card is taken out of the array that holds it,
    and the other arrays stay. *)
Lemma take_out_unique cardId m src arr index card :
  NoDup (id <$> all_cards m) ->
  cards_get src m = Some arr ->
  arr !! index = Some card ->
  id card = cardId ->
  exists rest,
    take_out cardId m = (Some card, rest) /\
    cards_get src rest = Some (delete index arr) /\
    forall l, l <> src -> cards_get l rest = cards_get l m.
Proof.
  unfold all_cards. induction m as [|[k v] m IH]; cbn; [discriminate|].
  intros Hnodup Hget Hlookup Hid. rewrite fmap_app in Hnodup.
  apply NoDup_app in Hnodup as (Hv & Hdisj & Hm).
  destruct (decide (k = src)) as [->|Hk].
  - injection Hget as ->.
    assert (Hfind : list_find (fun c => id c = cardId) arr = Some (index, card)).
    { apply list_find_Some. split; [exact Hlookup|]. split; [exact Hid|].
      intros j y Hj Hlt Hy.
      assert (Hsame : (id <$> arr) !! j = (id <$> arr) !! index)
        by (now rewrite !list_lookup_fmap, Hj, Hlookup; cbn; rewrite Hy, Hid).
      rewrite list_lookup_fmap, Hj in Hsame. cbn in Hsame. symmetry in Hsame.
      pose proof (NoDup_lookup _ _ _ _ Hv Hsame
                    ltac:(now rewrite list_lookup_fmap, Hj)) as Heq.
      lia. }
    rewrite Hfind. eexists. split; [reflexivity|]. cbn.
    rewrite decide_True by reflexivity. split; [reflexivity|].
    intros l Hl. now rewrite !decide_False by congruence.
  - destruct (list_find (fun c => id c = cardId) v) as [[j c]|] eqn:Hfind.
    + apply list_find_Some in Hfind as (Hj & Hc & _). exfalso.
      apply (Hdisj cardId).
      * rewrite <- Hc. apply list_elem_of_fmap_2. eapply list_elem_of_lookup_2, Hj.
      * rewrite <- Hid. apply list_elem_of_fmap_2.
        eapply all_cards_elem; [apply cards_get_Some, Hget|].
        eapply list_elem_of_lookup_2, Hlookup.
    + destruct (IH Hm Hget Hlookup Hid) as (rest & -> & Hsrc & Hothers).
      eexists. split; [reflexivity|]. cbn.
      rewrite decide_False by exact Hk. split; [exact Hsrc|].
      intros l Hl. case_decide; [reflexivity|]. now apply Hothers.
Qed.

(** X16: a move to another list leaves a gap in the source.  In a store
    with distinct card ids, the array of the source list after [moveCard]
    is the old array with the card cut out: the cards that were behind it
    keep the positions they had, and only the destination is renumbered. *)
Theorem X16_moveCard_leaves_source_gap cardId src newListId newPosition state arr index card :
  unique_ids state ->
  cards_get src (cards state) = Some arr ->
  arr !! index = Some card ->
  id card = cardId ->
  src <> newListId ->
  cards_get src (cards (moveCard cardId newListId newPosition state))
    = Some (delete index arr).
Proof.
  intros Hunique Hget Hlookup Hid Hne.
  destruct (take_out_unique cardId (cards state) src arr index card
              Hunique Hget Hlookup Hid) as (rest & Htake & Hsrc & _).
  destruct (moveCard_found cardId newListId newPosition state card rest Htake)
    as (cards2 & _ & _ & Hothers & ->).
  rewrite cards_get_set_ne by congruence.
  rewrite Hothers by exact Hne. exact Hsrc.
Qed.

Lemma X16_moveCard_leaves_source_gap_witness :
  cards_get "clist00001" (cards (moveCard "ccard0000A" "clist00002" 0 sample_store))
    = Some [ client_card "ccard0000B" "B" "clist00001" 1;
             client_card "ccard0000C" "C" "clist00001" 2 ].
Proof.
  exact (X16_moveCard_leaves_source_gap "ccard0000A" "clist00001" "clist00002" 0
           sample_store
           [ client_card "ccard0000A" "A" "clist00001" 0;
             client_card "ccard0000B" "B" "clist00001" 1;
             client_card "ccard0000C" "C" "clist00001" 2 ]
           0%nat (client_card "ccard0000A" "A" "clist00001" 0)
           ltac:(compute_decision) eq_refl eq_refl eq_refl ltac:(discriminate)).
Defined.

Lemma all_cards_deleteCard cardId state :
  all_cards (cards (deleteCard cardId state))
    = filter (fun c => id c ≠ cardId) (all_cards (cards state)).
Proof.
  unfold deleteCard, all_cards. cbn [cards].
  induction (cards state) as [|[k arr] m IH]; cbn; [reflexivity|].
  rewrite filter_app. f_equal. exact IH.
Qed.

(** X17: [deleteCard] removes every card with the given id, in whatever
    list it sits and however often the id occurs; the other cards, their
    order, their positions and the list keys stay as they are (nothing is
    renumbered).  A later [moveCard] for that id changes nothing. *)
Theorem X17_deleteCard_removes_every_copy cardId state newListId newPosition :
  all_cards (cards (deleteCard cardId state))
    = filter (fun c => id c ≠ cardId) (all_cards (cards state)) /\
  (cards (deleteCard cardId state)).*1 = (cards state).*1 /\
  lists (deleteCard cardId state) = lists state /\
  moveCard cardId newListId newPosition (deleteCard cardId state)
    = deleteCard cardId state.
Proof.
  split; [apply all_cards_deleteCard|]. split; [|split; [reflexivity|]].
  - unfold deleteCard. cbn [cards]. rewrite <- list_fmap_compose.
    apply list_fmap_ext. now intros i [k arr] _.
  - apply moveCard_absent. intros c. rewrite all_cards_deleteCard, list_elem_of_filter.
    tauto.
Qed.

Lemma filter_all {A} (P : A -> Prop) `{forall x, Decision (P x)} (l : list A) :
  (forall x, x ∈ l -> P x) -> filter P l = l.
Proof.
  induction l as [|x l IH]; [reflexivity|]. intros Hall.
  rewrite filter_cons_True by (apply Hall; now left).
  f_equal. apply IH. intros y Hy. apply Hall. now right.
Qed.

Lemma deleteCard_cards_set cardId l v m :
  (fun kv : string * list Card => (kv.1, filter (fun c => id c ≠ cardId) kv.2))
    <$> cards_set l v m
  = cards_set l (filter (fun c => id c ≠ cardId) v)
      ((fun kv : string * list Card => (kv.1, filter (fun c => id c ≠ cardId) kv.2)) <$> m).
Proof.
  induction m as [|[k v0] m IH]; cbn; [reflexivity|].
  destruct (decide (k = l)); cbn; [reflexivity|]. now rewrite IH.
Qed.

Lemma deleteCard_fresh cardId (m : CardsByList) :
  (forall c, c ∈ all_cards m -> id c ≠ cardId) ->
  (fun kv : string * list Card => (kv.1, filter (fun c => id c ≠ cardId) kv.2)) <$> m = m.
Proof.
  unfold all_cards. induction m as [|[k arr] m IH]; cbn; [reflexivity|].
  intros Hall. rewrite filter_all, IH; [reflexivity| |].
  - intros c Hc. apply Hall, elem_of_app. now right.
  - intros c Hc. apply Hall, elem_of_app. now left.
Qed.

(** X18: [addCard] followed by [deleteCard] of the same card gives the
    cards back as they were, for a card whose id the store does not hold
    and whose list has an array in the store.  When the list had no array,
    [addCard] created it and it stays behind, empty. *)
Theorem X18_addCard_then_deleteCard card state :
  (forall c, c ∈ all_cards (cards state) -> id c ≠ id card) ->
  lists (deleteCard (id card) (addCard card state)) = lists state /\
  cards (deleteCard (id card) (addCard card state)) =
    match cards_get (listId card) (cards state) with
    | Some _ => cards state
    | None => cards state ++ [(listId card, [])]
    end.
Proof.
  intros Hfresh. split; [reflexivity|].
  unfold deleteCard, addCard. cbn [cards].
  assert (Hcard : filter (fun c => id c ≠ id card) [card] = []).
  { rewrite filter_cons_False by tauto. reflexivity. }
  destruct (cards_get (listId card) (cards state)) as [arr|] eqn:Hget.
  - rewrite Hget. cbn [default].
    rewrite deleteCard_cards_set, deleteCard_fresh by exact Hfresh.
    rewrite filter_app, Hcard, app_nil_r. rewrite filter_all.
    + now apply cards_set_get_id.
    + intros c Hc. apply Hfresh.
      exact (all_cards_elem _ _ _ _ (cards_get_Some _ _ _ Hget) Hc).
  - rewrite cards_get_set. cbn [default from_option Datatypes.id app].
    rewrite !deleteCard_cards_set, deleteCard_fresh by exact Hfresh.
    rewrite Hcard. cbn [filter list_filter]. rewrite cards_set_set.
    now apply cards_set_None.
Qed.

Lemma X18_addCard_then_deleteCard_witness :
  deleteCard "ccard0000E" (addCard (client_card "ccard0000E" "E" "clist00002" 1) sample_store)
  = sample_store.
Proof.
  destruct (X18_addCard_then_deleteCard (client_card "ccard0000E" "E" "clist00002" 1)
              sample_store
              ltac:(apply Forall_forall; compute_decision)) as [Hlists Hcards].
  change (cards_get (listId (client_card "ccard0000E" "E" "clist00002" 1))
            (cards sample_store))
    with (Some [ client_card "ccard0000D" "D" "clist00002" 0 ]) in Hcards.
  change (id (client_card "ccard0000E" "E" "clist00002" 1)) with "ccard0000E"
    in Hlists, Hcards.
  destruct (deleteCard "ccard0000E" _) as [ls cs]. cbn in Hlists, Hcards.
  now rewrite Hlists, Hcards.
Defined.

Lemma group_step_get acc card l :
  default [] (cards_get l (group_step acc card))
  = default [] (cards_get l acc) ++ (if decide (listId card = l) then [card] else []).
Proof.
  unfold group_step. destruct (decide (listId card = l)) as [<-|Hne].
  - rewrite cards_get_set. cbn [default].
    destruct (cards_get (listId card) acc) as [arr|] eqn:Hget.
    + now rewrite Hget.
    + now rewrite cards_get_set.
  - rewrite cards_get_set_ne by exact Hne.
    rewrite app_nil_r. destruct (cards_get (listId card) acc); [reflexivity|].
    now rewrite cards_get_set_ne by exact Hne.
Qed.

Lemma cards_get_keys l (m : CardsByList) : is_Some (cards_get l m) <-> l ∈ m.*1.
Proof.
  induction m as [|[k v] m IH]; cbn.
  - rewrite elem_of_nil. split; [now intros [? ?]|tauto].
  - rewrite elem_of_cons. destruct (decide (k = l)) as [->|Hne].
    + split; [now left|eauto].
    + rewrite IH. split; [now right|]. intros [->|?]; [contradiction|assumption].
Qed.

Lemma cards_set_keys l v (m : CardsByList) :
  (cards_set l v m).*1 = if decide (l ∈ m.*1) then m.*1 else m.*1 ++ [l].
Proof.
  induction m as [|[k v0] m IH]; cbn.
  - now rewrite decide_False by apply not_elem_of_nil.
  - destruct (decide (k = l)) as [->|Hne]; cbn.
    + now rewrite decide_True by left.
    + rewrite IH. destruct (decide (l ∈ m.*1)) as [Hin|Hnotin].
      * now rewrite decide_True by now right.
      * rewrite decide_False; [reflexivity|].
        rewrite elem_of_cons. intros [->|?]; contradiction.
Qed.

Lemma cards_set_distinct l v m : distinct_keys m -> distinct_keys (cards_set l v m).
Proof.
  unfold distinct_keys. rewrite cards_set_keys. intros Hnodup.
  case_decide as Hin; [exact Hnodup|].
  apply NoDup_app. split; [exact Hnodup|]. split; [|apply NoDup_singleton].
  intros x Hx ->%list_elem_of_singleton. contradiction.
Qed.

Lemma group_step_facts acc card :
  (distinct_keys acc -> distinct_keys (group_step acc card)) /\
  (forall l, is_Some (cards_get l (group_step acc card)) <->
             is_Some (cards_get l acc) \/ l = listId card) /\
  all_cards (group_step acc card) ≡ₚ all_cards acc ++ [card].
Proof.
  unfold group_step.
  set (acc1 := match cards_get (listId card) acc with
               | Some _ => acc
               | None => cards_set (listId card) [] acc
               end).
  assert (Hacc1 : (distinct_keys acc -> distinct_keys acc1) /\
                  all_cards acc1 = all_cards acc /\
                  cards_get (listId card) acc1
                    = Some (default [] (cards_get (listId card) acc)) /\
                  forall l, l <> listId card -> cards_get l acc1 = cards_get l acc).
  { subst acc1. destruct (cards_get (listId card) acc) as [arr|] eqn:Hget.
    - rewrite Hget. repeat split; auto.
    - rewrite cards_get_set. split; [apply cards_set_distinct|].
      split; [now apply all_cards_set_empty|]. split; [reflexivity|].
      intros l Hl. apply cards_get_set_ne. congruence. }
  destruct Hacc1 as (Hkeys & Hall & Hget1 & Hothers).
  split; [|split].
  - intros Hd. apply cards_set_distinct, Hkeys, Hd.
  - intros l. destruct (decide (l = listId card)) as [->|Hne].
    + rewrite cards_get_set. split; [now right|eauto].
    + rewrite cards_get_set_ne, Hothers by congruence. tauto.
  - destruct (all_cards_set _ _ _ Hget1) as (pre & post & Hsplit & Hset).
    rewrite Hset, Hget1. cbn [default from_option Datatypes.id].
    rewrite <- Hall, Hsplit.
    rewrite <- !app_assoc. f_equiv. f_equiv. apply Permutation_app_comm.
Qed.

Lemma group_all acc data_cards :
  (distinct_keys acc -> distinct_keys (foldl group_step acc data_cards)) /\
  (forall l, is_Some (cards_get l (foldl group_step acc data_cards)) <->
             is_Some (cards_get l acc) \/ l ∈ listId <$> data_cards) /\
  (forall l, default [] (cards_get l (foldl group_step acc data_cards))
             = default [] (cards_get l acc) ++ filter (fun c => listId c = l) data_cards) /\
  all_cards (foldl group_step acc data_cards) ≡ₚ all_cards acc ++ data_cards.
Proof.
  revert acc. induction data_cards as [|card data_cards IH]; intros acc; cbn [foldl].
  - split; [tauto|]. split; [|split].
    + intros l. rewrite fmap_nil, elem_of_nil. tauto.
    + intros l. now rewrite app_nil_r.
    + now rewrite app_nil_r.
  - destruct (IH (group_step acc card)) as (Hkeys & Hsome & Hget & Hall).
    destruct (group_step_facts acc card) as (Hkeys1 & Hsome1 & Hall1).
    split; [auto|]. split; [|split].
    + intros l. rewrite Hsome, Hsome1, fmap_cons, elem_of_cons. tauto.
    + intros l. rewrite Hget, group_step_get, filter_cons, <- app_assoc.
      f_equal. case_decide; reflexivity.
    + rewrite Hall, Hall1, <- app_assoc. reflexivity.
Qed.

(** X19: a successful [fetchBoard] replaces the lists by the fetched
    lists and the cards by the fetched cards grouped by list: the array of a
    list holds the fetched cards of that list in the order of the response, a
    list gets an array exactly when some fetched card names it, and the
    store holds the fetched cards and no other.  Nothing of the old cards
    is kept. *)
Theorem X19_fetchBoard_groups_by_list data_lists data_cards state :
  lists (fetchBoard (Some (data_lists, data_cards)) state) = data_lists /\
  distinct_keys (cards (fetchBoard (Some (data_lists, data_cards)) state)) /\
  (forall l, is_Some (cards_get l (cards (fetchBoard (Some (data_lists, data_cards)) state)))
             <-> l ∈ listId <$> data_cards) /\
  (forall l, default [] (cards_get l (cards (fetchBoard (Some (data_lists, data_cards)) state)))
             = filter (fun c => listId c = l) data_cards) /\
  all_cards (cards (fetchBoard (Some (data_lists, data_cards)) state)) ≡ₚ data_cards.
Proof.
  cbn [fetchBoard lists cards].
  destruct (group_all [] data_cards) as (Hkeys & Hsome & Hget & Hall).
  split; [reflexivity|]. split; [apply Hkeys; constructor|]. split; [|split].
  - intros l. rewrite Hsome. cbn. split; [|now right].
    intros [[? [=]]|?]; assumption.
  - intros l. now rewrite Hget.
  - now rewrite Hall.
Qed.

(** X20: [addList] followed by [deleteList] of the same list gives the
    store back, for a list whose id is new to the store: not among its
    lists and without an array of cards. *)
Theorem X20_addList_then_deleteList list state :
  list.1 ∉ (lists state).*1 ->
  cards_get list.1 (cards state) = None ->
  deleteList list.1 (addList list state) = state.
Proof.
  intros Hlist Hcards. unfold deleteList, addList. cbn [lists cards].
  destruct state as [ls cs]. cbn [lists cards] in *. f_equal.
  - rewrite filter_app, filter_cons_False, filter_nil, app_nil_r by tauto.
    apply filter_all. intros l Hl Heq. apply Hlist. rewrite <- Heq.
    now apply list_elem_of_fmap_2.
  - unfold cards_delete, CardsByList. rewrite cards_set_None by exact Hcards.
    rewrite filter_app, filter_cons_False, filter_nil, app_nil_r
      by (intros Hne; now apply Hne).
    apply filter_all. intros kv Hkv Heq.
    assert (Hsome : is_Some (cards_get list.1 cs)).
    { apply cards_get_keys. rewrite <- Heq. now apply list_elem_of_fmap_2. }
    rewrite Hcards in Hsome. now destruct Hsome.
Qed.

Lemma X20_addList_then_deleteList_witness :
  deleteList "clist00003"
    (addList ("clist00003", {| Server.list_title := "Later"; Server.boardId := "cboard0001" |})
       sample_store)
  = sample_store.
Proof.
  apply (X20_addList_then_deleteList
           ("clist00003", {| Server.list_title := "Later"; Server.boardId := "cboard0001" |})
           sample_store).
  - compute_decision.
  - reflexivity.
Defined.

End StoreActionFacts.

(** ** The other handlers of the kanban board *)

Section KanbanHandlerFacts.
Import Kanban.

Lemma with_tasks_same col : with_tasks (tasks col) col = col.
Proof. now destruct col. Qed.

Lemma filter_fresh_tasks taskId (l : list Task) :
  (forall t, t ∈ l -> id t ≠ taskId) -> filter (fun t => id t ≠ taskId) l = l.
Proof.
  induction l as [|t l IH]; [reflexivity|]. intros Hall.
  rewrite filter_cons_True by (apply Hall; now left).
  f_equal. apply IH. intros y Hy. apply Hall. now right.
Qed.

Lemma all_tasks_elem col cols t : col ∈ cols -> t ∈ tasks col -> t ∈ all_tasks cols.
Proof.
  intros Hcol Ht. unfold all_tasks.
  induction cols as [|c cols IH]; [now apply elem_of_nil in Hcol|].
  cbn. apply elem_of_app. apply elem_of_cons in Hcol as [<-|Hcol]; [now left|].
  right. now apply IH.
Qed.

(** Deleting a task id that no task of the board has changes nothing. *)
Lemma handleDeleteCard_fresh columnId taskId cols :
  (forall t, t ∈ all_tasks cols -> id t ≠ taskId) ->
  handleDeleteCard columnId taskId cols = cols.
Proof.
  intros Hfresh. unfold handleDeleteCard.
  rewrite <- (list_fmap_id cols) at 2. apply list_fmap_ext. intros i col Hcol.
  case_decide; [|reflexivity].
  rewrite filter_fresh_tasks; [apply with_tasks_same|].
  intros t Ht. apply Hfresh. eapply all_tasks_elem; [|exact Ht].
  eapply list_elem_of_lookup_2, Hcol.
Qed.

(** X21: adding a card and deleting it again gives the columns back.
    For a task id [task-<now>] that no task of the board has yet,
    [handleDeleteCard] on the column of the dialog, with that id, undoes
    [handleAddCard] at time [now], whatever was typed: a blank title or a
    missing column adds nothing, and then nothing is deleted. *)
Theorem X21_add_then_delete_card trim now dlg cols columnId :
  addCardColumnId dlg = Some columnId ->
  (forall t, t ∈ all_tasks cols -> id t ≠ task_id now) ->
  handleDeleteCard columnId (task_id now) (handleAddCard trim now dlg cols).2 = cols.
Proof.
  intros Hcolumn Hfresh. unfold handleAddCard. rewrite Hcolumn. cbn [mbind option_bind].
  destruct (nonempty (trim (newCardTitle dlg))) as [t|];
    [|now apply handleDeleteCard_fresh].
  unfold nonempty at 1. case_decide as Hempty; [now apply handleDeleteCard_fresh|].
  cbn [snd]. unfold handleDeleteCard. rewrite <- list_fmap_compose.
  rewrite <- (list_fmap_id cols) at 2. apply list_fmap_ext. intros i col Hcol. cbn.
  assert (Hcol_fresh : forall t', t' ∈ tasks col -> id t' ≠ task_id now).
  { intros t' Ht'. apply Hfresh. eapply all_tasks_elem; [|exact Ht'].
    eapply list_elem_of_lookup_2, Hcol. }
  destruct (decide (col_id col = columnId)) as [Hid|Hid].
  - cbn [col_id with_tasks]. rewrite decide_True by exact Hid.
    cbn [tasks with_tasks]. rewrite filter_app, filter_fresh_tasks by exact Hcol_fresh.
    rewrite filter_cons_False by (cbn; tauto). rewrite filter_nil, app_nil_r.
    now destruct col.
  - rewrite decide_False by exact Hid. reflexivity.
Qed.

Lemma X21_add_then_delete_card_witness :
  (fun col => id <$> tasks col) <$> (handleAddCard no_trim 1735000000000 sample_dialog
                                       initialColumns).2 =
    [ ["1"; "2"; "3"; "task-1735000000000"]; ["4"; "5"; "11"]; ["6"; "7"]; ["8"; "12"];
      ["9"; "10"; "13"] ] /\
  handleDeleteCard "backlog" (task_id 1735000000000)
    (handleAddCard no_trim 1735000000000 sample_dialog initialColumns).2 = initialColumns.
Proof.
  split; [vm_compute; reflexivity|].
  apply (X21_add_then_delete_card no_trim 1735000000000 sample_dialog initialColumns
           "backlog" eq_refl).
  apply Forall_forall. compute_decision.
Defined.

(** X22: a drop on a column id that the board does not have loses the
    task.  [handleDrop] cuts the dragged task out of its source column and
    finds no column to append it to: afterwards the task is in no column,
    every other task is still there, and the drag is over. *)
Theorem X22_drop_on_missing_column st task src tgt :
  well_formed (columns st) ->
  dragging st task src ->
  tgt ∉ col_id <$> columns st ->
  all_tasks (columns (handleDrop tgt st)) ++ [task] ≡ₚ all_tasks (columns st) /\
  (task ∉ all_tasks (columns (handleDrop tgt st))) /\
  draggedTask (handleDrop tgt st) = None.
Proof.
  intros Hwf (Hdrag & csrc & Hsrc & Hin) Htgt.
  destruct (column_Some _ _ _ Hsrc) as [Hcsrc_in Hcsrc_id].
  assert (Hne : src <> tgt).
  { intros <-. apply Htgt. rewrite <- Hcsrc_id. now apply list_elem_of_fmap_2. }
  pose proof (well_formed_column _ _ Hwf Hcsrc_in) as Hids.
  destruct (filter_by_id task (tasks csrc) Hids Hin) as (_ & _ & _ & Hone & _).
  pose proof (drop_balance task src tgt (columns st)) as Hbal.
  destruct Hwf as [Hcols Htasks].
  rewrite (taken_out_unique task src _ csrc Hcols Hsrc), Hone in Hbal.
  rewrite (put_in_absent task src tgt _ Htgt), app_nil_r in Hbal.
  rewrite <- (handleDrop_columns tgt st task src Hdrag Hne) in Hbal.
  split; [exact Hbal|]. split.
  - rewrite <- Hbal, fmap_app in Htasks.
    apply NoDup_app in Htasks as (_ & Hdisj & _).
    intros Hstill. apply (Hdisj (id task)); [now apply list_elem_of_fmap_2|].
    now left.
  - unfold handleDrop. rewrite Hdrag. now rewrite decide_False by exact Hne.
Qed.

Lemma X22_drop_on_missing_column_witness :
  (fun col => id <$> tasks col) <$> columns (handleDrop "archive" dragging_task_1) =
    [ ["2"; "3"]; ["4"; "5"; "11"]; ["6"; "7"]; ["8"; "12"]; ["9"; "10"; "13"] ] /\
  (task_1 ∉ all_tasks (columns (handleDrop "archive" dragging_task_1))).
Proof.
  split; [reflexivity|].
  assert (Hwf : well_formed initialColumns).
  { split; refine (bool_decide_unpack _ _); vm_compute; exact I. }
  assert (Hdrag : dragging dragging_task_1 task_1 "backlog").
  { eapply handleDragStart_dragging; [reflexivity|]. now left. }
  exact (proj1 (proj2 (X22_drop_on_missing_column dragging_task_1 task_1 "backlog"
                         "archive" Hwf Hdrag ltac:(compute_decision)))).
Defined.

Lemma handleDeleteCard_ids columnId taskId cols :
  col_id <$> handleDeleteCard columnId taskId cols = col_id <$> cols.
Proof.
  unfold handleDeleteCard. rewrite <- list_fmap_compose. apply list_fmap_ext.
  intros i col _. cbn. case_decide; reflexivity.
Qed.

Lemma sublist_concat_fmap {A B} (f g : A -> list B) (l : list A) :
  (forall x, f x `sublist_of` g x) -> concat (f <$> l) `sublist_of` concat (g <$> l).
Proof.
  intros Hfg. induction l as [|x l IH]; [reflexivity|]. cbn.
  now apply sublist_app.
Qed.

Lemma handleDeleteCard_sublist columnId taskId cols :
  all_tasks (handleDeleteCard columnId taskId cols) `sublist_of` all_tasks cols.
Proof.
  unfold all_tasks, handleDeleteCard. rewrite <- list_fmap_compose.
  apply sublist_concat_fmap. intros col. cbn.
  case_decide; [apply sublist_filter|reflexivity].
Qed.

Lemma handleDeleteList_sublist columnId cols :
  handleDeleteList columnId cols `sublist_of` cols.
Proof. apply sublist_filter. Qed.

Lemma sublist_all_tasks cols' cols :
  cols' `sublist_of` cols -> all_tasks cols' `sublist_of` all_tasks cols.
Proof.
  unfold all_tasks. induction 1 as [|c l1 l2 _ IH|c l1 l2 _ IH]; cbn.
  - constructor.
  - now apply sublist_app.
  - now apply sublist_inserts_l.
Qed.

(** The tasks after an addition to the columns called [columnId]. *)
Lemma all_tasks_add columnId (newTask : Task) cols :
  NoDup (col_id <$> cols) ->
  all_tasks ((fun col => if decide (col_id col = columnId)
                         then with_tasks (tasks col ++ [newTask]) col
                         else col) <$> cols)
  ≡ₚ all_tasks cols ++ (if decide (columnId ∈ col_id <$> cols) then [newTask] else []).
Proof.
  unfold all_tasks. induction cols as [|col cols IH]; [reflexivity|].
  rewrite fmap_cons, NoDup_cons. intros [Hnotin Hnodup]. cbn [fmap list_fmap concat].
  rewrite (IH Hnodup). destruct (decide (col_id col = columnId)) as [<-|Hne].
  - cbn [tasks with_tasks]. rewrite (decide_True (P := _ ∈ _ :: _)) by now left.
    rewrite decide_False by exact Hnotin. rewrite app_nil_r, <- !app_assoc.
    f_equiv. apply Permutation_app_comm.
  - rewrite <- app_assoc. f_equiv. f_equiv.
    destruct (decide (columnId ∈ col_id <$> cols)) as [Hin|Hnin].
    + now rewrite decide_True by now right.
    + rewrite decide_False; [reflexivity|].
      rewrite elem_of_cons. intros [->|?]; contradiction.
Qed.

(** X23: every handler that rewrites the columns keeps the board well
    formed: column ids distinct, and task ids distinct over the whole board.
    Deleting a card or a list always does; adding a card does when no task
    has the id [task-<now>] yet, adding a list when no column has the id
    [list-<now>] yet, and a drop does for a task dragged from its column
    onto a column of the board. *)
Theorem X23_handlers_keep_well_formed trim cols :
  well_formed cols ->
  (forall columnId taskId, well_formed (handleDeleteCard columnId taskId cols)) /\
  (forall columnId, well_formed (handleDeleteList columnId cols)) /\
  (forall now dlg,
     (forall t, t ∈ all_tasks cols -> id t ≠ task_id now) ->
     well_formed (handleAddCard trim now dlg cols).2) /\
  (forall now dlg,
     list_id now ∉ col_id <$> cols ->
     well_formed (handleAddList trim now dlg cols).2) /\
  (forall st task src tgt,
     columns st = cols -> dragging st task src -> is_Some (column tgt cols) ->
     well_formed (columns (handleDrop tgt st))).
Proof.
  intros [Hcols Htasks]. split; [|split; [|split; [|split]]].
  - intros columnId taskId. split.
    + now rewrite handleDeleteCard_ids.
    + eapply sublist_NoDup; [exact Htasks|].
      apply fmap_sublist, handleDeleteCard_sublist.
  - intros columnId. split.
    + eapply sublist_NoDup; [exact Hcols|]. apply fmap_sublist, handleDeleteList_sublist.
    + eapply sublist_NoDup; [exact Htasks|].
      apply fmap_sublist, sublist_all_tasks, handleDeleteList_sublist.
  - intros now dlg Hfresh. unfold handleAddCard.
    destruct (nonempty (trim (newCardTitle dlg))) as [t|]; [|now split].
    destruct (addCardColumnId dlg ≫= nonempty) as [columnId|]; [|now split].
    cbn [snd]. split.
    + rewrite <- list_fmap_compose.
      rewrite (list_fmap_ext _ col_id cols); [exact Hcols|].
      intros i col _. cbn. case_decide; reflexivity.
    + rewrite all_tasks_add by exact Hcols. rewrite fmap_app.
      apply NoDup_app. split; [exact Htasks|]. split.
      * intros x Hx Hnew. case_decide; [|now apply elem_of_nil in Hnew].
        apply list_elem_of_singleton in Hnew. cbn in Hnew. subst x.
        apply list_elem_of_fmap in Hx as (t' & Heq & Ht'). symmetry in Heq.
        now apply (Hfresh t').
      * case_decide; [apply NoDup_singleton|constructor].
  - intros now dlg Hfresh. unfold handleAddList.
    destruct (nonempty (trim (newListTitle dlg))) as [t|]; [|now split].
    cbn [snd]. split.
    + rewrite fmap_app. apply NoDup_app. split; [exact Hcols|].
      split; [|apply NoDup_singleton].
      intros x Hx ->%list_elem_of_singleton. contradiction.
    + unfold all_tasks. rewrite fmap_app, concat_app. cbn. now rewrite !app_nil_r.
  - intros st task src tgt <- Hdrag Htgt.
    now apply (handleDrop_well_formed st task src tgt).
Qed.

Lemma X23_handlers_keep_well_formed_witness :
  well_formed initialColumns /\
  well_formed (handleDeleteCard "todo" "5" initialColumns) /\
  well_formed (handleAddCard no_trim 1735000000000 sample_dialog initialColumns).2.
Proof.
  assert (Hwf : well_formed initialColumns).
  { split; refine (bool_decide_unpack _ _); vm_compute; exact I. }
  destruct (X23_handlers_keep_well_formed no_trim initialColumns Hwf)
    as (Hdelete & _ & Hadd & _).
  split; [exact Hwf|]. split; [apply Hdelete|].
  apply Hadd. apply Forall_forall. compute_decision.
Defined.

End KanbanHandlerFacts.

(** ** The array helpers of position.ts *)

Section PositionArrayFacts.
Import PositionArrays.
Local Open Scope Z_scope.

Lemma with_position_payload index o :
  with_position index o = <["position" := Server.JNumber (Z.of_nat index)]> (payload_of o).
Proof.
  unfold with_position, payload_of, payload. now rewrite insert_delete_eq.
Qed.

Lemma payload_with_position index o : payload (with_position index o) = payload_of o.
Proof.
  unfold with_position, payload_of, payload. now rewrite delete_insert_eq.
Qed.

Lemma payload_of_Some (items : list JsObject) : payload_of <$> (Some <$> items) = payload <$> items.
Proof. rewrite <- list_fmap_compose. reflexivity. Qed.

(** [renumber] reads the payloads only. *)
Lemma renumber_payload a b : payload_of <$> a = payload_of <$> b -> renumber a = renumber b.
Proof.
  intros Hab. unfold renumber.
  rewrite (imap_ext with_position
             (fun index => (fun p => <["position" := Server.JNumber (Z.of_nat index)]> p)
                           ∘ payload_of) a)
    by (intros; apply with_position_payload).
  rewrite (imap_ext with_position
             (fun index => (fun p => <["position" := Server.JNumber (Z.of_nat index)]> p)
                           ∘ payload_of) b)
    by (intros; apply with_position_payload).
  now rewrite <- !imap_fmap, Hab.
Qed.

Lemma payload_renumber a : payload <$> renumber a = payload_of <$> a.
Proof.
  unfold renumber. rewrite fmap_imap.
  rewrite (imap_ext _ (fun _ => payload_of)) by (intros; apply payload_with_position).
  apply imap_const.
Qed.

Lemma length_renumber_items a : length (renumber a) = length a.
Proof. apply length_imap. Qed.

Lemma positions_imap_from n (a : list (option JsObject)) :
  positions (imap (fun index => with_position (n + index)) a)
  = (fun i => Some (Server.JNumber (Z.of_nat i))) <$> seq n (length a).
Proof.
  unfold positions. revert n. induction a as [|o a IH]; intros n; [reflexivity|].
  rewrite imap_cons. cbn [length seq]. rewrite !fmap_cons. f_equal.
  - unfold with_position. rewrite lookup_insert_eq. now rewrite Nat.add_0_r.
  - rewrite <- (IH (S n)). f_equal. apply imap_ext. intros i x _. cbn.
    now rewrite Nat.add_succ_r.
Qed.

Lemma positions_renumber a : positions (renumber a) = indexes (length a).
Proof. apply (positions_imap_from 0). Qed.

Lemma splice_start_nat k len : BoardStore.splice_start (Z.of_nat k) len = Nat.min k len.
Proof. unfold BoardStore.splice_start. case_match; lia. Qed.

(** What an insertion followed by the renumbering gives. *)
Lemma renumber_splice_insert start o (arr : list JsObject) :
  let k := BoardStore.splice_start start (length arr) in
  let result := renumber (BoardStore.splice_insert start o (Some <$> arr)) in
  length result = S (length arr) /\
  result !! k = Some (with_position k o) /\
  payload <$> delete k result = payload <$> arr /\
  positions result = indexes (S (length arr)).
Proof.
  intros k result. subst result. unfold BoardStore.splice_insert.
  rewrite length_fmap. fold k.
  pose proof (splice_start_le start (length arr)) as Hk. fold k in Hk.
  assert (Hlen : length (take k (Some <$> arr)) = k)
    by (apply length_take_le; now rewrite length_fmap).
  assert (Hall : length (take k (Some <$> arr) ++ o :: drop k (Some <$> arr))
                 = S (length arr)).
  { rewrite length_app, Hlen. cbn [length]. rewrite length_drop, length_fmap. lia. }
  split; [now rewrite length_renumber_items|]. split; [|split].
  - unfold renumber. rewrite list_lookup_imap.
    rewrite lookup_app_r by lia. now rewrite Hlen, Nat.sub_diag.
  - rewrite list_fmap_delete, payload_renumber, fmap_app, fmap_cons.
    rewrite <- (length_fmap payload_of) in Hlen. rewrite <- Hlen at 1.
    rewrite delete_middle, <- fmap_app, take_drop. apply payload_of_Some.
  - now rewrite positions_renumber, Hall.
Qed.

Lemma insert_delete_same {A} (l : list A) s x :
  l !! s = Some x -> take s (delete s l) ++ x :: drop s (delete s l) = l.
Proof.
  intros Hs. pose proof (lookup_lt_Some _ _ _ Hs) as Hlt.
  rewrite delete_take_drop.
  rewrite take_app_length' by (rewrite length_take; lia).
  rewrite drop_app_length' by (rewrite length_take; lia).
  now apply take_drop_middle.
Qed.

Lemma delete_past_end {A} (l : list A) i : (length l <= i)%nat -> delete i l = l.
Proof.
  intros Hi. rewrite delete_take_drop, take_ge, drop_ge by lia. apply app_nil_r.
Qed.

(** [reorderItems] for a start index that holds an item. *)
Lemma reorderItems_found items s endIndex item :
  items !! s = Some item ->
  reorderItems items (Z.of_nat s) endIndex
  = renumber (BoardStore.splice_insert endIndex (Some item) (Some <$> delete s items)).
Proof.
  intros Hs. pose proof (lookup_lt_Some _ _ _ Hs) as Hlt.
  unfold reorderItems, splice_remove. rewrite splice_start_nat.
  rewrite Nat.min_l by lia. now rewrite Hs.
Qed.

(** X24: [reorderItems] with both indexes inside the array moves one
    item.  The result has the length of the input, its positions are
    0, 1, 2, ... in order, the item that was at [startIndex] is at
    [endIndex], and the other items follow in the order they had. *)
Theorem X24_reorderItems_moves_item items s e item :
  items !! s = Some item ->
  (e < length items)%nat ->
  length (reorderItems items (Z.of_nat s) (Z.of_nat e)) = length items /\
  positions (reorderItems items (Z.of_nat s) (Z.of_nat e)) = indexes (length items) /\
  reorderItems items (Z.of_nat s) (Z.of_nat e) !! e
    = Some (<["position" := Server.JNumber (Z.of_nat e)]> item) /\
  payload <$> delete e (reorderItems items (Z.of_nat s) (Z.of_nat e))
    = payload <$> delete s items.
Proof.
  intros Hs He. pose proof (lookup_lt_Some _ _ _ Hs) as Hlt.
  rewrite (reorderItems_found items s (Z.of_nat e) item Hs).
  destruct (renumber_splice_insert (Z.of_nat e) (Some item) (delete s items))
    as (Hlen & Hat & Hrest & Hpos).
  assert (Hdel : S (length (delete s items)) = length items)
    by (rewrite length_delete by eauto; lia).
  rewrite splice_start_nat, Nat.min_l in Hat, Hrest by lia.
  rewrite Hdel in Hlen, Hpos. repeat split; assumption.
Qed.

Lemma X24_reorderItems_moves_item_witness :
  length (reorderItems sample_items (Z.of_nat 0) (Z.of_nat 2)) = 3%nat /\
  positions (reorderItems sample_items (Z.of_nat 0) (Z.of_nat 2)) = indexes 3 /\
  reorderItems sample_items (Z.of_nat 0) (Z.of_nat 2) !! 2%nat
    = Some (<["position" := Server.JNumber 2]> (item "a" 0)).
Proof.
  destruct (X24_reorderItems_moves_item sample_items 0 2 (item "a" 0)
              eq_refl ltac:(cbn; lia)) as (Hlen & Hpos & Hat & _).
  split; [exact Hlen|]. split; [exact Hpos|exact Hat].
Defined.

Lemma renumber_numbered (items : list JsObject) :
  positions items = indexes (length items) -> renumber (Some <$> items) = items.
Proof.
  intros Hpos. apply list_eq. intros i. unfold renumber.
  rewrite list_lookup_imap, list_lookup_fmap.
  destruct (items !! i) as [it|] eqn:Hi; [|reflexivity]. cbn. f_equal.
  apply insert_id.
  assert (Hith : positions items !! i = Some (it !! "position"))
    by (unfold positions; now rewrite list_lookup_fmap, Hi).
  rewrite Hpos in Hith. unfold indexes in Hith.
  rewrite list_lookup_fmap in Hith.
  pose proof (lookup_lt_Some _ _ _ Hi) as Hlt.
  rewrite lookup_seq_lt in Hith by exact Hlt. cbn in Hith. now injection Hith as <-.
Qed.

(** X25: a reorder is undone by the reverse reorder.  For two indexes
    inside the array, moving an item from [s] to [e] and then from [e] to
    [s] gives the items in their first order, numbered 0, 1, 2, ...; for an
    array that was numbered so, it gives the array itself. *)
Theorem X25_reorderItems_round_trip items s e :
  (s < length items)%nat ->
  (e < length items)%nat ->
  reorderItems (reorderItems items (Z.of_nat s) (Z.of_nat e)) (Z.of_nat e) (Z.of_nat s)
    = renumber (Some <$> items) /\
  (positions items = indexes (length items) ->
   reorderItems (reorderItems items (Z.of_nat s) (Z.of_nat e)) (Z.of_nat e) (Z.of_nat s)
     = items).
Proof.
  intros Hs He.
  assert (Hback : reorderItems (reorderItems items (Z.of_nat s) (Z.of_nat e))
                    (Z.of_nat e) (Z.of_nat s) = renumber (Some <$> items)).
  { destruct (lookup_lt_is_Some_2 items s Hs) as [item Hitem].
    assert (Hpayload : (payload <$> items) !! s = Some (payload item))
      by now rewrite list_lookup_fmap, Hitem.
    pose proof (lookup_lt_Some _ _ _ Hpayload) as Hlt.
    set (r1 := reorderItems items (Z.of_nat s) (Z.of_nat e)).
    assert (Hlen1 : length r1 = length items).
    { subst r1. rewrite (reorderItems_found items s (Z.of_nat e) item Hitem).
      rewrite length_renumber_items, length_splice_insert, length_fmap.
      rewrite length_delete by eauto. lia. }
    assert (Hat1 : r1 !! e = Some (with_position e (Some item)) /\
                   payload <$> delete e r1 = payload <$> delete s items).
    { subst r1. rewrite (reorderItems_found items s (Z.of_nat e) item Hitem).
      destruct (renumber_splice_insert (Z.of_nat e) (Some item) (delete s items))
        as (_ & Hat & Hrest & _).
      rewrite splice_start_nat, Nat.min_l in Hat, Hrest
        by (rewrite length_delete by eauto; lia).
      now split. }
    destruct Hat1 as [Hat1 Hrest1].
    rewrite (reorderItems_found r1 e (Z.of_nat s) _ Hat1).
    apply renumber_payload. unfold BoardStore.splice_insert.
    rewrite length_fmap, splice_start_nat, Nat.min_l
      by (rewrite length_delete by eauto; lia).
    rewrite fmap_app, fmap_cons, fmap_take, fmap_drop, !payload_of_Some.
    rewrite Hrest1. change (payload_of (Some (with_position e (Some item))))
      with (payload (with_position e (Some item))).
    rewrite payload_with_position. change (payload_of (Some item)) with (payload item).
    rewrite list_fmap_delete. now apply insert_delete_same. }
  split; [exact Hback|]. intros Hnumbered. rewrite Hback.
  now apply renumber_numbered.
Qed.

Lemma item_position name p : item name p !! "position" = Some (Server.JNumber p).
Proof.
  unfold item. rewrite lookup_insert_ne by discriminate. apply lookup_singleton_eq.
Qed.

Lemma sample_items_numbered : positions sample_items = indexes (length sample_items).
Proof. unfold positions, sample_items. cbn [fmap list_fmap]. now rewrite !item_position. Qed.

Lemma X25_reorderItems_round_trip_witness :
  reorderItems (reorderItems sample_items (Z.of_nat 0) (Z.of_nat 2)) (Z.of_nat 2) (Z.of_nat 0)
  = sample_items.
Proof.
  exact (proj2 (X25_reorderItems_round_trip sample_items 0 2 ltac:(cbn; lia)
                  ltac:(cbn; lia)) sample_items_numbered).
Defined.

(** X26: [reorderItems] does not check its start index.  With a start
    index at or past the end of the array nothing is removed, and an object
    that has a [position] and nothing else is inserted at the end index
    (clamped to the array): the result is one longer than the input, and
    without that object it holds the items in their old order. *)
Theorem X26_reorderItems_start_past_end items s endIndex :
  (length items <= s)%nat ->
  length (reorderItems items (Z.of_nat s) endIndex) = S (length items) /\
  reorderItems items (Z.of_nat s) endIndex
    !! BoardStore.splice_start endIndex (length items)
    = Some {[ "position" :=
                Server.JNumber (Z.of_nat (BoardStore.splice_start endIndex (length items))) ]} /\
  payload <$> delete (BoardStore.splice_start endIndex (length items))
                (reorderItems items (Z.of_nat s) endIndex)
    = payload <$> items.
Proof.
  intros Hs. unfold reorderItems, splice_remove.
  rewrite splice_start_nat, Nat.min_r by exact Hs.
  rewrite (lookup_ge_None_2 items (length items)) by lia.
  rewrite delete_past_end by lia.
  destruct (renumber_splice_insert endIndex None items) as (Hlen & Hat & Hrest & _).
  split; [exact Hlen|]. split; [|exact Hrest].
  rewrite Hat. unfold with_position. cbn [default]. now rewrite insert_empty.
Qed.

Lemma X26_reorderItems_start_past_end_witness :
  length (reorderItems sample_items (Z.of_nat 3) 1) = 4%nat /\
  reorderItems sample_items (Z.of_nat 3) 1 !! 1%nat
    = Some {[ "position" := Server.JNumber 1 ]}.
Proof.
  destruct (X26_reorderItems_start_past_end sample_items 3 1 ltac:(cbn; lia))
    as (Hlen & Hat & _).
  split; [exact Hlen|exact Hat].
Defined.

(** [moveItemBetweenArrays] for a source index that holds an item. *)
Lemma moveItemBetweenArrays_found source destination s destIndex item :
  source !! s = Some item ->
  moveItemBetweenArrays source destination (Z.of_nat s) destIndex
  = (renumber (Some <$> delete s source),
     renumber (BoardStore.splice_insert destIndex (Some item) (Some <$> destination))).
Proof.
  intros Hs. pose proof (lookup_lt_Some _ _ _ Hs) as Hlt.
  unfold moveItemBetweenArrays, splice_remove. rewrite splice_start_nat.
  rewrite Nat.min_l by lia. now rewrite Hs.
Qed.

(** X27: [moveItemBetweenArrays] takes the item at the source index out
    of the source and puts it into the destination at the destination index
    (clamped to the array); the other items of both arrays keep their order,
    and both results are numbered 0, 1, 2, ....  Moving the item back
    from where it landed gives both arrays in their first order. *)
Theorem X27_moveItemBetweenArrays_moves_item source destination s destIndex item :
  source !! s = Some item ->
  let k := BoardStore.splice_start destIndex (length destination) in
  let moved := moveItemBetweenArrays source destination (Z.of_nat s) destIndex in
  payload <$> moved.1 = payload <$> delete s source /\
  positions moved.1 = indexes (length source - 1) /\
  moved.2 !! k = Some (<["position" := Server.JNumber (Z.of_nat k)]> item) /\
  payload <$> delete k moved.2 = payload <$> destination /\
  positions moved.2 = indexes (S (length destination)) /\
  moveItemBetweenArrays moved.2 moved.1 (Z.of_nat k) (Z.of_nat s)
    = (renumber (Some <$> destination), renumber (Some <$> source)).
Proof.
  intros Hs k moved. pose proof (lookup_lt_Some _ _ _ Hs) as Hlt.
  subst moved. rewrite (moveItemBetweenArrays_found source destination s destIndex item Hs).
  cbn [fst snd].
  destruct (renumber_splice_insert destIndex (Some item) destination)
    as (Hlen & Hat & Hrest & Hpos). fold k in Hat, Hrest.
  split; [now rewrite payload_renumber, payload_of_Some|].
  split; [rewrite positions_renumber, length_fmap, length_delete by eauto;
          f_equal; lia|].
  split; [exact Hat|]. split; [exact Hrest|]. split; [exact Hpos|].
  rewrite (moveItemBetweenArrays_found _ _ k (Z.of_nat s) _ Hat). f_equal.
  - apply renumber_payload. rewrite !payload_of_Some. exact Hrest.
  - apply renumber_payload. unfold BoardStore.splice_insert.
    rewrite length_fmap, length_renumber_items, length_fmap, splice_start_nat.
    rewrite length_delete by eauto. rewrite Nat.min_l by lia.
    rewrite fmap_app, fmap_cons, fmap_take, fmap_drop, !payload_of_Some.
    rewrite payload_renumber, payload_of_Some.
    change (payload_of (Some (with_position k (Some item))))
      with (payload (with_position k (Some item))).
    rewrite payload_with_position. change (payload_of (Some item)) with (payload item).
    rewrite list_fmap_delete. apply insert_delete_same.
    now rewrite list_lookup_fmap, Hs.
Qed.

Lemma X27_moveItemBetweenArrays_moves_item_witness :
  (moveItemBetweenArrays sample_items [ item "d" 0 ] (Z.of_nat 1) 0).2 !! 0%nat
    = Some (<["position" := Server.JNumber 0]> (item "b" 1)) /\
  positions (moveItemBetweenArrays sample_items [ item "d" 0 ] (Z.of_nat 1) 0).1
    = indexes 2 /\
  positions (moveItemBetweenArrays sample_items [ item "d" 0 ] (Z.of_nat 1) 0).2
    = indexes 2.
Proof.
  pose proof (X27_moveItemBetweenArrays_moves_item sample_items [ item "d" 0 ] 1 0
                (item "b" 1) eq_refl) as Hmove.
  cbv zeta in Hmove. destruct Hmove as (_ & Hsrc & Hat & _ & Hdest & _).
  split; [exact Hat|]. split; [exact Hsrc|exact Hdest].
Defined.

End PositionArrayFacts.

(** ** The drag and drop hook *)

Section DragAndDropFacts.
Import DragAndDrop.
Local Open Scope Z_scope.




(** The position -1 is reached: card A dropped on card D, by a hook whose
    copy of the list of D is empty. *)
Example handleDragEnd_stale_card :
  (handleDragEnd stale_lists (fun _ => true) drop_A_on_D cleared).1
  = [ CardMove "ccard0000A" "clist00001" "clist00002" (-1) ].
Proof. reflexivity. Qed.

End DragAndDropFacts.

(** ** The client store follows the server *)

Section OptimisticFacts.
Import Server Optimistic.
Local Open Scope Z_scope.

(** A strictly increasing list of [n] integers between 0 and [n - 1] is
    0, 1, ..., n - 1. *)
Lemma increasing_lower (zs : list Z) a :
  StronglySorted Z.lt zs -> (forall z, z ∈ zs -> a <= z) ->
  forall i z, zs !! i = Some z -> a + Z.of_nat i <= z.
Proof.
  intros Hsorted. revert a. induction Hsorted as [|x zs Hzs IH Hall]; intros a Hlow i z;
    [now rewrite lookup_nil|].
  destruct i as [|i]; cbn.
  - intros [= <-]. pose proof (Hlow x ltac:(now left)). lia.
  - intros Hi. rewrite Forall_forall in Hall.
    assert (a + 1 + Z.of_nat i <= z); [|lia].
    apply IH; [|exact Hi]. intros y Hy.
    pose proof (Hall y Hy). pose proof (Hlow x ltac:(now left)). lia.
Qed.

Lemma increasing_upper (zs : list Z) b :
  StronglySorted Z.lt zs -> (forall z, z ∈ zs -> z < b) ->
  forall i z, zs !! i = Some z -> z <= b - Z.of_nat (length zs) + Z.of_nat i.
Proof.
  intros Hsorted Hup. induction Hsorted as [|x zs Hzs IH Hall]; intros i z;
    [now rewrite lookup_nil|].
  rewrite Forall_forall in Hall.
  assert (Hup' : forall z, z ∈ zs -> z < b) by (intros y Hy; apply Hup; now right).
  destruct i as [|i]; cbn [lookup list_lookup length].
  - intros [= <-]. destruct zs as [|y zs'].
    + pose proof (Hup x ltac:(now left)). cbn. lia.
    + pose proof (IH Hup' 0%nat y eq_refl) as Hy.
      pose proof (Hall y ltac:(now left)). cbn [length] in *. lia.
  - intros Hi. pose proof (IH Hup' i z Hi). lia.
Qed.

Lemma increasing_range (zs : list Z) :
  StronglySorted Z.lt zs ->
  (forall z, z ∈ zs -> 0 <= z < Z.of_nat (length zs)) ->
  forall i z, zs !! i = Some z -> z = Z.of_nat i.
Proof.
  intros Hsorted Hrange i z Hi.
  pose proof (increasing_lower zs 0 Hsorted (fun y Hy => proj1 (Hrange y Hy)) i z Hi).
  pose proof (increasing_upper zs (Z.of_nat (length zs)) Hsorted
                (fun y Hy => proj2 (Hrange y Hy)) i z Hi).
  lia.
Qed.

Lemma findMany_length l db :
  Z.of_nat (length (card_findMany_byList l db)) = siblings_count l db.
Proof.
  rewrite siblings_count_eq. f_equal. unfold card_findMany_byList.
  rewrite merge_sort_Permutation, <- length_map_to_list.
  apply Permutation_length, NoDup_Permutation.
  - apply NoDup_filter, NoDup_map_to_list.
  - apply NoDup_map_to_list.
  - intros [j cj]. rewrite list_elem_of_filter, !elem_of_map_to_list.
    rewrite map_lookup_filter_Some. unfold in_list. cbn.
    rewrite bool_decide_spec. tauto.
Qed.

Lemma sorted_positions rows :
  StronglySorted position_lt rows ->
  StronglySorted Z.lt ((fun kv : string * Card => position kv.2) <$> rows).
Proof.
  induction 1 as [|kv rows Hrows IH Hall]; [constructor|].
  cbn. constructor; [exact IH|].
  rewrite Forall_fmap. eapply Forall_impl; [exact Hall|]. now intros kv'.
Qed.

(** In a dense store, the card at index [i] of a list, as the server
    orders it, is the card with position [i]. *)
Lemma dense_order db l i j cj :
  dense db ->
  cards db !! j = Some cj ->
  server_order l db !! i = Some j <-> listId cj = l /\ position cj = Z.of_nat i.
Proof.
  intros [Hinv Hbound] Hj. unfold server_order.
  pose proof (order_invariant_sorted db l Hinv) as Hsorted.
  assert (Hat : forall i' kv, card_findMany_byList l db !! i' = Some kv ->
                              position kv.2 = Z.of_nat i').
  { intros i' kv Hkv.
    apply (increasing_range _ (sorted_positions _ Hsorted)).
    - intros z (kv' & -> & Hin)%list_elem_of_fmap.
      apply findMany_elem in Hin as [Hlookup Hlist].
      rewrite length_fmap, findMany_length, <- Hlist. apply (Hbound _ _ Hlookup).
    - now rewrite list_lookup_fmap, Hkv. }
  rewrite list_lookup_fmap. split.
  - destruct (card_findMany_byList l db !! i) as [[j' cj']|] eqn:Hrow; [|discriminate].
    cbn. intros [= ->]. pose proof (Hat _ _ Hrow) as Hpos.
    apply list_elem_of_lookup_2, findMany_elem in Hrow as [Hlookup Hlist]. cbn in *.
    assert (cj' = cj) as -> by congruence. now split.
  - intros [Hlist Hpos].
    assert (Hin : (j, cj) ∈ card_findMany_byList l db) by now apply findMany_elem.
    apply list_elem_of_lookup_1 in Hin as [i' Hrow].
    pose proof (Hat _ _ Hrow) as Hpos'. cbn in Hpos'.
    assert (i' = i) as -> by lia. now rewrite Hrow.
Qed.

Lemma server_order_known db l i j :
  server_order l db !! i = Some j -> exists cj, cards db !! j = Some cj /\ listId cj = l.
Proof.
  unfold server_order. rewrite list_lookup_fmap.
  destruct (card_findMany_byList l db !! i) as [[j' cj]|] eqn:Hrow; [|discriminate].
  cbn. intros [= ->]. apply list_elem_of_lookup_2, findMany_elem in Hrow as [? ?].
  now exists cj.
Qed.

Lemma server_order_length db l :
  Z.of_nat (length (server_order l db)) = siblings_count l db.
Proof. unfold server_order. rewrite length_fmap. apply findMany_length. Qed.

Lemma lookup_splice_insert {A} start (x : A) (L : list A) i :
  BoardStore.splice_insert start x L !! i =
    if decide (i < BoardStore.splice_start start (length L))%nat then L !! i
    else if decide (i = BoardStore.splice_start start (length L)) then Some x
    else L !! (i - 1)%nat.
Proof.
  unfold BoardStore.splice_insert.
  pose proof (splice_start_le start (length L)) as Hk.
  set (k := BoardStore.splice_start start (length L)) in *.
  assert (Hlen : length (take k L) = k) by now apply length_take_le.
  destruct (decide (i < k)%nat) as [Hlt|Hge].
  - rewrite lookup_app_l by lia. now apply lookup_take_lt.
  - rewrite lookup_app_r by lia. rewrite Hlen.
    destruct (decide (i = k)) as [->|Hne]; [now rewrite Nat.sub_diag|].
    replace (i - k)%nat with (S (i - k - 1)) by lia.
    change ((x :: drop k L) !! S (i - k - 1)) with (drop k L !! (i - k - 1)%nat).
    rewrite lookup_drop. f_equal. lia.
Qed.

Lemma fmap_splice_insert {A B} (f : A -> B) start x (L : list A) :
  f <$> BoardStore.splice_insert start x L = BoardStore.splice_insert start (f x) (f <$> L).
Proof.
  unfold BoardStore.splice_insert.
  now rewrite fmap_app, fmap_cons, fmap_take, fmap_drop, length_fmap.
Qed.

Lemma list_eq_Some {A} (l1 l2 : list A) :
  (forall i x, l1 !! i = Some x <-> l2 !! i = Some x) -> l1 = l2.
Proof.
  intros Hsame. apply list_eq. intros i.
  destruct (l1 !! i) as [x|] eqn:H1.
  - symmetry. now apply Hsame.
  - destruct (l2 !! i) as [y|] eqn:H2; [|reflexivity].
    apply Hsame in H2. congruence.
Qed.

(** The order of every list of the client after [moveCard], from the
    orders before it. *)
Lemma client_order_moveCard cardId src dest q state arr p card :
  BoardStore.unique_ids state ->
  BoardStore.cards_get src (BoardStore.cards state) = Some arr ->
  arr !! p = Some card ->
  BoardStore.id card = cardId ->
  forall l,
    client_order l (BoardStore.moveCard cardId dest q state) =
      if decide (l = dest) then
        BoardStore.splice_insert q cardId
          (if decide (src = dest) then delete p (client_order src state)
           else client_order dest state)
      else if decide (l = src) then delete p (client_order src state)
      else client_order l state.
Proof.
  intros Hunique Hget Hlookup Hid l.
  destruct (take_out_unique cardId (BoardStore.cards state) src arr p card
              Hunique Hget Hlookup Hid) as (rest & Htake & Hsrc & Hothers).
  destruct (moveCard_found cardId dest q state card rest Htake)
    as (cards2 & _ & _ & Hothers2 & Hcards).
  assert (Hrest : forall l', BoardStore.id <$> default [] (BoardStore.cards_get l' rest) =
                    if decide (l' = src) then delete p (client_order src state)
                    else client_order l' state).
  { intros l'. unfold client_order. destruct (decide (l' = src)) as [->|Hne].
    - rewrite Hsrc, Hget. cbn. apply list_fmap_delete.
    - now rewrite Hothers. }
  unfold client_order at 1. rewrite Hcards.
  destruct (decide (l = dest)) as [->|Hdest].
  - rewrite cards_get_set. cbn [default from_option Datatypes.id].
    rewrite id_renumber, fmap_splice_insert. cbn [BoardStore.id BoardStore.set_position
      BoardStore.set_listId]. rewrite Hid, Hrest.
    destruct (decide (dest = src)) as [->|Hne].
    + now rewrite decide_True.
    + now rewrite decide_False by congruence.
  - rewrite cards_get_set_ne by congruence. rewrite Hothers2 by exact Hdest.
    apply Hrest.
Qed.

Lemma splice_start_in_range q len :
  0 <= q <= Z.of_nat len -> BoardStore.splice_start q len = Z.to_nat q.
Proof. intros Hq. unfold BoardStore.splice_start. case_match; lia. Qed.

(** Where the card [j] is in the order of the server, for a dense store. *)
Lemma dense_order_iff db l i j :
  dense db ->
  server_order l db !! i = Some j <->
  exists cj, cards db !! j = Some cj /\ listId cj = l /\ position cj = Z.of_nat i.
Proof.
  intros Hdense. split.
  - intros Hi. destruct (server_order_known _ _ _ _ Hi) as (cj & Hj & _).
    exists cj. split; [exact Hj|]. now apply (dense_order db l i j cj Hdense Hj).
  - intros (cj & Hj & Hl & Hp). now apply (dense_order db l i j cj Hdense Hj).
Qed.

Lemma committed_move_in_step uid id c dest q now db state :
  dense db ->
  BoardStore.unique_ids state ->
  in_step db state ->
  cards db !! id = Some c ->
  move_in_range c dest q db ->
  in_step (committed_move uid id c dest q now db) (BoardStore.moveCard id dest q state).
Proof.
  intros Hdense Hunique Hstep Hc Hrange.
  pose proof (committed_move_dense uid id c dest q now db Hc Hrange Hdense) as Hdense'.
  pose proof (proj2 Hdense _ _ Hc) as Hpc.
  pose proof (proj1 Hdense) as Hinv.
  assert (Hp : server_order (listId c) db !! Z.to_nat (position c) = Some id).
  { apply (dense_order db _ _ _ c Hdense Hc). split; [reflexivity|lia]. }
  pose proof Hp as Hp'. rewrite <- Hstep in Hp'. unfold client_order in Hp'.
  destruct (BoardStore.cards_get (listId c) (BoardStore.cards state)) as [arr|] eqn:Hget;
    [|discriminate].
  cbn [default from_option Datatypes.id] in Hp'. rewrite list_lookup_fmap in Hp'.
  destruct (arr !! Z.to_nat (position c)) as [card|] eqn:Hcard; [|discriminate].
  injection Hp' as Hid.
  intros l.
  rewrite (client_order_moveCard id (listId c) dest q state arr _ card
             Hunique Hget Hcard Hid l).
  rewrite !Hstep. apply list_eq_Some. intros i j.
  assert (Hsrc_len := server_order_length db (listId c)).
  assert (Hdest_len := server_order_length db dest).
  assert (Hk : BoardStore.splice_start q
                 (length (if decide (listId c = dest)
                          then delete (Z.to_nat (position c)) (server_order (listId c) db)
                          else server_order dest db)) = Z.to_nat q).
  { apply splice_start_in_range. unfold move_in_range in Hrange.
    destruct (decide (listId c = dest)) as [Heq|Hne].
    - rewrite length_delete by eauto. rewrite <- Heq in Hrange. lia.
    - lia. }
  destruct (cards db !! j) as [cj|] eqn:Hcj.
  2:{ assert (Hunknown : forall l' i', server_order l' db !! i' = Some j -> False).
      { intros l' i' (cj & Hj & _)%server_order_known. congruence. }
      split.
      - intros Hi. exfalso.
        repeat case_decide;
          rewrite ?lookup_splice_insert, ?list_lookup_delete in Hi;
          repeat case_decide; try (now apply Hunknown in Hi);
          injection Hi as <-; congruence.
      - intros (cj & Hj & _)%server_order_known. exfalso.
        rewrite committed_move_lookup in Hj. case_decide; [subst; congruence|].
        rewrite Hcj in Hj. discriminate. }
  pose proof (proj2 Hdense _ _ Hcj) as Hpj.
  unfold move_in_range in Hrange.
  assert (Hnew : server_order l (committed_move uid id c dest q now db) !! i = Some j <->
                 if decide (id = j) then dest = l /\ q = Z.of_nat i
                 else listId cj = l /\
                      position (shifted now (listId c) (position c) dest q cj) = Z.of_nat i).
  { destruct (decide (id = j)) as [<-|Hj].
    - rewrite (dense_order _ l i id (moved now dest q c) Hdense')
        by (rewrite committed_move_lookup; now rewrite decide_True).
      reflexivity.
    - rewrite (dense_order _ l i j (shifted now (listId c) (position c) dest q cj) Hdense')
        by (rewrite committed_move_lookup, decide_False, Hcj by exact Hj; reflexivity).
      now rewrite shifted_listId. }
  rewrite Hnew. clear Hnew. rewrite shifted_position.
  assert (Hdistinct : id <> j -> listId cj = listId c -> position cj <> position c).
  { intros Hj Hlist Hpos. apply Hj. symmetry. now apply (Hinv _ _ Hcj _ _ Hc). }
  assert (Hself : id = j -> cj = c) by (intros <-; congruence).
  clear Hdense' Hstep Hunique Hget Hcard Hid Hp Hinv.
  destruct (decide (l = dest)) as [->|Hl];
    [destruct (decide (listId c = dest)) as [Hsame|Hcross]
    |destruct (decide (l = listId c)) as [->|Hother]].
  all: rewrite ?lookup_splice_insert, ?Hk, ?list_lookup_delete.
  all: repeat case_decide.
  all: rewrite ?(dense_order db _ _ j cj Hdense Hcj).
  all: try (assert (cj = c) as -> by auto).
  all: try (split; [intros [= ->]|intros ?]; first [contradiction|tauto|lia|idtac]).
  all: intuition (try lia; try congruence).
Qed.

(** X29: the optimistic update of the client follows the server.  Take a
    store of the server with dense positions and a client store with
    distinct card ids that shows the cards of every list in the order of
    the server.  After a committed move whose new position is an index of
    the destination list, and [moveCard] on the client with the same card,
    list and position, the client again shows the cards of every list in
    the order of the server; the positions of the server are dense again
    and the card ids of the client distinct, so this holds along any
    sequence of such moves. *)
Theorem X29_moveCard_follows_server faults cuid session id body now db r db' state :
  dense db ->
  BoardStore.unique_ids state ->
  in_step db state ->
  in_range (MoveCard session id body now) db ->
  run_handler (PATCH faults cuid session id body now) db = (r, db') ->
  status_of r = 200 ->
  in_step db' (BoardStore.moveCard id (destinationListId body) (newPosition body) state) /\
  dense db' /\
  BoardStore.unique_ids
    (BoardStore.moveCard id (destinationListId body) (newPosition body) state).
Proof.
  intros Hdense Hunique Hstep Hrange Hrun Hok.
  apply PATCH_outcome in Hrun as [[_ Hne]|(uid & c & _ & Hc & _ & _ & -> & _)];
    [contradiction|].
  cbn [in_range] in Hrange. rewrite Hc in Hrange.
  split; [now apply committed_move_in_step|].
  split; [now apply committed_move_dense|].
  unfold BoardStore.unique_ids. now rewrite moveCard_ids.
Qed.

Lemma sample_in_step : in_step sample_db BoardStore.sample_store.
Proof.
  intros l. unfold server_order, card_findMany_byList, client_order.
  let rows := eval vm_compute in (map_to_list (cards sample_db)) in
  change (map_to_list (cards sample_db)) with rows.
  cbn [BoardStore.cards BoardStore.sample_store BoardStore.cards_get].
  destruct (decide ("clist00001" = l)) as [<-|Hne1]; [vm_compute; reflexivity|].
  destruct (decide ("clist00002" = l)) as [<-|Hne2]; [vm_compute; reflexivity|].
  rewrite !filter_cons_False by (cbn; congruence). reflexivity.
Qed.

Lemma X29_moveCard_follows_server_witness :
  in_step (sample_PATCH no_faults "ccard0000A" "clist00002" 0 sample_db).2
    (BoardStore.moveCard "ccard0000A" "clist00002" 0 BoardStore.sample_store) /\
  server_order "clist00002" (sample_PATCH no_faults "ccard0000A" "clist00002" 0 sample_db).2
    = [ "ccard0000A"; "ccard0000D" ].
Proof.
  split; [|vm_compute; reflexivity].
  exact (proj1 (X29_moveCard_follows_server no_faults zod_cuid (Some "cuser00001")
                  "ccard0000A" {| destinationListId := "clist00002"; newPosition := 0 |} 7
                  sample_db
                  (sample_PATCH no_faults "ccard0000A" "clist00002" 0 sample_db).1
                  (sample_PATCH no_faults "ccard0000A" "clist00002" 0 sample_db).2
                  BoardStore.sample_store
                  ltac:(compute_decision) ltac:(compute_decision) sample_in_step
                  ltac:(compute_decision) ltac:(vm_compute; reflexivity)
                  ltac:(reflexivity))).
Defined.

(** X30: a card created without a position is shown last.  In a store
    with dense positions, after a creation that answers 201 for a body
    without [position], the cards of the list of the new card, in the order
    the server returns them, are the cards it returned before followed by
    the new card; the order of every other list is as before. *)
Theorem X30_created_card_is_last faults cuid datetime url session body newId now db r db' :
  dense db ->
  new_position body = None ->
  run_handler (POST faults cuid datetime url session body newId now) db = (r, db') ->
  status_of r = 201 ->
  forall l,
    server_order l db' =
      if decide (l = new_listId body) then server_order l db ++ [newId]
      else server_order l db.
Proof.
  intros Hdense Htail Hrun Hok l.
  apply POST_outcome in Hrun as [[_ Hne]|(Hfresh & _ & Hcards & _)]; [contradiction|].
  pose proof (created_dense body newId now db db' Htail Hfresh Hcards Hdense) as Hdense'.
  assert (Hposition : created_position body db = siblings_count (new_listId body) db)
    by (unfold created_position; now rewrite Htail).
  assert (Hunknown : forall l' i', server_order l' db !! i' = Some newId -> False).
  { intros l' i' (cj & Hj & _)%server_order_known. congruence. }
  pose proof (server_order_length db l) as Hlen.
  apply list_eq_Some. intros i j.
  destruct (decide (newId = j)) as [<-|Hj].
  - rewrite (dense_order db' l i newId (created body (created_position body db) now) Hdense')
      by (rewrite Hcards; apply lookup_insert_eq).
    cbn [created listId position]. rewrite Hposition.
    case_decide as Hl.
    + subst l. destruct (decide (i < length (server_order (new_listId body) db))%nat).
      * rewrite lookup_app_l by assumption. split; [lia|].
        intros Hi. exfalso. now apply Hunknown in Hi.
      * rewrite lookup_app_r by lia.
        destruct (i - length (server_order (new_listId body) db))%nat as [|k] eqn:Hk;
          cbn; [split; [reflexivity|intros _; split; [reflexivity|lia]]|].
        split; [intros [_ ?]; lia|now destruct k].
    + split; [intros [? _]; congruence|]. intros Hi. exfalso. now apply Hunknown in Hi.
  - assert (Hsame : cards db' !! j = cards db !! j)
      by (rewrite Hcards; now apply lookup_insert_ne).
    assert (Hold : server_order l db' !! i = Some j <-> server_order l db !! i = Some j).
    { destruct (cards db !! j) as [cj|] eqn:Hcj.
      - rewrite (dense_order db' l i j cj Hdense' ltac:(congruence)).
        now rewrite (dense_order db l i j cj Hdense Hcj).
      - split; intros (cj & Hj' & _)%server_order_known; congruence. }
    rewrite Hold. case_decide; [|reflexivity].
    destruct (decide (i < length (server_order l db))%nat).
    + now rewrite lookup_app_l.
    + rewrite lookup_app_r, (lookup_ge_None_2 (server_order l db)) by lia.
      split; [discriminate|]. intros Hi.
      destruct (i - length (server_order l db))%nat as [|[|k]]; cbn in Hi; congruence.
Qed.

Lemma X30_created_card_is_last_witness :
  server_order "clist00001" (sample_commit (create_E None) sample_db)
  = server_order "clist00001" sample_db ++ [ "ccard0000E" ].
Proof.
  exact (X30_created_card_is_last no_faults zod_cuid no_format no_format
           (Some "cuser00001") (new_card_body None) "ccard0000E" 7 sample_db
           (run_handler (POST no_faults zod_cuid no_format no_format (Some "cuser00001")
                           (new_card_body None) "ccard0000E" 7) sample_db).1
           (run_handler (POST no_faults zod_cuid no_format no_format (Some "cuser00001")
                           (new_card_body None) "ccard0000E" 7) sample_db).2
           ltac:(compute_decision) eq_refl ltac:(vm_compute; reflexivity)
           ltac:(reflexivity) "clist00001").
Defined.

End OptimisticFacts.
